(** * The MIL operation node: input binding, classification gate, type and
      value inference

    A shallow embedding of [coremltools/converters/mil/mil/operation.py].
    Python objects live in an explicit store; every method of [Operation] is a
    computation in a state-and-exception monad whose state survives a raised
    exception, as a mutated Python object does. *)

From Stdlib Require Import Ascii String.
From stdpp Require Import base numbers strings list gmap pretty sorting.

Set Default Proof Using "Type".
Open Scope Z_scope.

(** ** Classification flags (module constants) *)

Definition VALUE : Z := 1.
Definition SYMBOL : Z := 2.
Definition NONE : Z := 4.
Definition ALL : Z := 7.

(** Python truthiness of an integer. *)
Definition truthy (z : Z) : bool := negb (z =? 0).

(** ** numpy arrays whose entries are numbers or sympy symbols *)

(** An entry is a number, a sympy symbol, or the floating-point NaN of an
    fp16 or fp32 array.  The code observes entries through [!=] and
    [is_symbolic] only, so a number is kept by its value, for which an integer
    stands; NaN is apart because it is the one entry that compares unequal to
    everything, itself included. *)
Inductive scalar :=
  | Num (z : Z)
  | Sym (s : string)
  | NaN.

Global Instance scalar_eq_dec : EqDecision scalar.
Proof. solve_decision. Defined.

(** Modelled from the spec: [is_symbolic] of types/symbolic.py, the predicate
    of the symbolic algebra that tells an unresolved symbol from a concrete
    entry. *)
Definition is_symbolic (x : scalar) : bool :=
  match x with Sym _ => true | Num _ | NaN => false end.

(** Python's [t != v] on entries: numbers by value, symbols structurally, and
    NaN different from every entry, itself included. *)
Definition py_ne (t v : scalar) : bool :=
  match t, v with
  | NaN, _ | _, NaN => true
  | _, _ => negb (bool_decide (t = v))
  end.

Record ndarray := mk_ndarray {
  shape : list nat;
  flatten : list scalar
}.

Global Instance ndarray_eq_dec : EqDecision ndarray.
Proof. solve_decision. Defined.

(** An array is well formed when its buffer has one entry per index. *)
Definition numel (s : list nat) : nat := foldr Nat.mul 1%nat s.
Definition ndarray_wf (a : ndarray) : Prop := length (flatten a) = numel (shape a).

(** [i]-th block of [c] consecutive entries of a row-major buffer. *)
Definition chunk (c i : nat) (l : list scalar) : list scalar :=
  take c (drop (i * c) l).

(** numpy aligns shapes on their trailing axes: the shorter one is padded
    with leading axes of extent 1. *)
Definition pad_shape (n : nat) (s : list nat) : list nat :=
  replicate (n - length s) 1%nat ++ s.

Fixpoint broadcastable (sa sb : list nat) : bool :=
  match sa, sb with
  | [], [] => true
  | da :: sa', db :: sb' =>
      (bool_decide (da = db) || bool_decide (da = 1%nat) || bool_decide (db = 1%nat))
      && broadcastable sa' sb'
  | _, _ => false
  end.

(** [np.any(a != b)] on two buffers whose (padded) shapes broadcast. *)
Fixpoint any_ne (sa sb : list nat) (a b : list scalar) : bool :=
  match sa, sb with
  | da :: sa', db :: sb' =>
      existsb
        (fun i =>
           any_ne sa' sb'
             (chunk (numel sa') (if bool_decide (da = 1%nat) then 0%nat else i) a)
             (chunk (numel sb') (if bool_decide (db = 1%nat) then 0%nat else i) b))
        (seq 0 (if bool_decide (da = 1%nat) then db else da))
  | _, _ => existsb (fun p => py_ne p.1 p.2) (zip a b)
  end.

(** ** Exceptions *)

Inductive flag := F_VALUE | F_SYMBOL | F_NONE.

Inductive not_implemented :=
  | no_support (f : flag)          (* raised by the precondition gate *)
  | no_value_inference             (* Operation.value_inference *)
  | no_output_names                (* Operation.output_names *)
  | no_type_inference.             (* Operation.type_inference *)

Inductive pyval :=
  | PyNone
  | PyStr (s : string)
  | PyVar (v : nat)
  | PyTuple (l : list nat)
  | PyObj (tag : nat).

Global Instance pyval_eq_dec : EqDecision pyval.
Proof. solve_decision. Defined.

Inductive value_error :=
  | unknown_input (k : string)
  | type_domain_not_defined (id : string)
  | list_rank (n : nat)
  | type_changes (out_name : pyval)
  | value_inference_differs (out_name : pyval)
  | required_input_missing (slot : string)
  | incompatible_subtype (v_new v_old : nat)
  | not_broadcastable
  | other_value_error (m : string).

Inductive exn :=
  | NotImplementedError (m : not_implemented)
  | ValueError (m : value_error)
  | RuntimeError (unknown : string)
  | AttributeError
  | TypeError
  | KeyError (k : string)
  | IndexError
  | ReferenceError
  | OtherError (m : string).

(** ** Types and values *)

Inductive dtype := int32 | fp16 | fp32 | bool_ | str | complex64 | complex128.

Global Instance dtype_eq_dec : EqDecision dtype.
Proof. solve_decision. Defined.

Inductive dim :=
  | Dim (n : nat)
  | SymDim (s : string).

Global Instance dim_eq_dec : EqDecision dim.
Proof. solve_decision. Defined.

(** Modelled from the spec: the builtin types of the [types] package (not part
    of the sources at hand): a declared symbolic type is an element type and
    an ordered shape whose dimensions are concrete or unresolved symbols; a
    list type carries element type, initial length and dynamic-length flag. *)
Inductive mil_type :=
  | TScalar (d : dtype)
  | TTensor (d : dtype) (shp : list dim)
  | TList (elem_type : mil_type) (init_length : nat) (dynamic_length : bool)
  | TUnknown.

Global Instance mil_type_eq_dec : EqDecision mil_type.
Proof.
  refine (fix go (x y : mil_type) : Decision (x = y) :=
    match x, y with
    | TScalar d, TScalar d' => cast_if (decide (d = d'))
    | TTensor d s, TTensor d' s' => cast_if_and (decide (d = d')) (decide (s = s'))
    | TList e i b, TList e' i' b' =>
        cast_if_and3 (go e e') (decide (i = i')) (decide (b = b'))
    | TUnknown, TUnknown => left _
    | _, _ => right _
    end); congruence.
Defined.

Definition is_list (t : mil_type) : bool :=
  match t with TList _ _ _ => true | _ => false end.
Definition is_tensor (t : mil_type) : bool :=
  match t with TTensor _ _ => true | _ => false end.
Definition is_complex_dtype (d : dtype) : bool :=
  match d with complex64 | complex128 => true | _ => false end.
(** [types.is_tensor(t) and types.is_complex(t.T[0])] *)
Definition is_complex_tensor (t : mil_type) : bool :=
  match t with TTensor d _ => is_complex_dtype d | _ => false end.

Definition dim_is_symbolic (d : dim) : bool :=
  match d with SymDim _ => true | Dim _ => false end.

Fixpoint type_has_symbol (t : mil_type) : bool :=
  match t with
  | TTensor _ shp => existsb dim_is_symbolic shp
  | TList e _ _ => type_has_symbol e
  | _ => false
  end.

(** The payload of a builtin value: an array, or the Python list that a
    [mil_list] wraps. *)
Inductive payload :=
  | PArr (a : ndarray)
  | PList (ls : list scalar).

Global Instance payload_eq_dec : EqDecision payload.
Proof. solve_decision. Defined.

(** An instance [t()] of a builtin type with its [val] attribute set. *)
Record builtin_val := mk_builtin {
  bv_type : mil_type;
  val : payload
}.

Global Instance builtin_val_eq_dec : EqDecision builtin_val.
Proof. solve_decision. Defined.

(** numpy turns a Python list operand into a one-axis array. *)
Definition as_array (p : payload) : ndarray :=
  match p with
  | PArr a => a
  | PList ls => mk_ndarray [length ls] ls
  end.

(** [np.any(x != y)]: two Python lists are compared as lists; otherwise numpy
    broadcasts, and refuses shapes that do not broadcast.  Python compares
    the entries of two lists by identity before it compares them by value;
    entries are values here, so two lists are equal when they have the same
    entries, a shared NaN included. *)
Definition np_any_ne (x y : payload) : exn + bool :=
  match x, y with
  | PList l, PList m => inr (negb (bool_decide (l = m)))
  | _, _ =>
      let a := as_array x in
      let b := as_array y in
      let n := (length (shape a) `max` length (shape b))%nat in
      let sa := pad_shape n (shape a) in
      let sb := pad_shape n (shape b) in
      if broadcastable sa sb then inr (any_ne sa sb (flatten a) (flatten b))
      else inl (ValueError not_broadcastable)
  end.

(** Modelled from the spec: [any_symbolic] of types/symbolic.py, true when the
    value contains any unresolved symbol; an absent value contains none. *)
Definition any_symbolic (v : option payload) : bool :=
  match v with
  | None => false
  | Some p => existsb is_symbolic (flatten (as_array p))
  end.

(** ** _is_compatible_symbolic_array *)

Fixpoint compatible_entries (l : list (scalar * scalar)) : bool :=
  match l with
  | [] => true
  | (t, v) :: rest =>
      if negb (is_symbolic t) && negb (is_symbolic v) then
        if py_ne t v then false else compatible_entries rest
      else compatible_entries rest
  end.

Definition _is_compatible_symbolic_array (a b : ndarray) : bool :=
  if negb (bool_decide (shape a = shape b)) then false
  else compatible_entries (zip (flatten a) (flatten b)).

(** ** Value nodes (var.py is not part of the sources at hand) *)

Inductive complex_data :=
  | CD_None
  | CD_Input (b : pyval)
  | CD_Array (a : ndarray).

Inductive var_class :=
  | PlainVar
  | ListVar (elem : mil_type)
  | ComplexVar (real imag : complex_data).

Module Var.
(** Modelled from the spec: the Value Node of var.py, with a name, a declared
    symbolic type, an optional value, a producer, a consumer set and the
    marker of non-replaceable upstream nodes. *)
Record t := mk {
  name : pyval;
  _sym_type : mil_type;
  _sym_val : option builtin_val;
  op : option nat;
  op_output_idx : option nat;
  child_ops : gset nat;
  nonreplaceable_vars_upstream : gset nat;
  class : var_class
}.

Definition sym_type (v : t) : mil_type := _sym_type v.

(** Modelled from the spec: the [sym_val] property, the raw value when one
    is attached. *)
Definition sym_val (v : t) : option payload := val <$> _sym_val v.

(** Modelled from the spec: the [val] property, the materialized value, present
    only when it is concrete. *)
Definition val (v : t) : option payload :=
  if any_symbolic (sym_val v) then None else sym_val v.

(** Modelled from the spec: [add_child_op], attaching a consumer edge. *)
Definition add_child_op (o : nat) (v : t) : t :=
  mk (name v) (_sym_type v) (_sym_val v) (op v) (op_output_idx v)
     ({[o]} ∪ child_ops v) (nonreplaceable_vars_upstream v) (class v).

(** Modelled from the spec: [remove_child_op], removing this operation from
    the node's consumer set; the spec gives the flag no effect. *)
Definition remove_child_op (o : nat) (no_check_var_types : bool) (v : t) : t :=
  mk (name v) (_sym_type v) (_sym_val v) (op v) (op_output_idx v)
     (child_ops v ∖ {[o]}) (nonreplaceable_vars_upstream v) (class v).

Definition set_sym_type (ty : mil_type) (v : t) : t :=
  mk (name v) ty (_sym_val v) (op v) (op_output_idx v)
     (child_ops v) (nonreplaceable_vars_upstream v) (class v).

Definition set_sym_val (sv : option builtin_val) (v : t) : t :=
  mk (name v) (_sym_type v) sv (op v) (op_output_idx v)
     (child_ops v) (nonreplaceable_vars_upstream v) (class v).

Definition set_nonreplaceable (s : gset nat) (v : t) : t :=
  mk (name v) (_sym_type v) (_sym_val v) (op v) (op_output_idx v)
     (child_ops v) s (class v).

(** Modelled from the spec: [elem_shape] of a list node, the shape of its
    elements when known: unknown element type gives no shape, a tensor its
    shape, a scalar the empty shape. *)
Definition elem_shape (v : t) : option (list dim) :=
  match class v with
  | ListVar TUnknown => None
  | ListVar (TTensor _ shp) => Some shp
  | ListVar _ => Some []
  | _ => None
  end.
End Var.

(** ** Input contract entries (input_type.py is not part of the sources) *)

Inductive input_class :=
  | TensorInputType (type_domain : list dtype) (type_domain_id : string)
  | TupleInputType
  | OtherInputType.

Record InputType := mk_input_type {
  optional : bool;
  in_class : input_class
}.

Definition is_tuple_input (t : InputType) : bool :=
  match in_class t with TupleInputType => true | _ => false end.

(** ** The operation object and the store *)

Record Operation := mk_op {
  self_id : nat;
  name : pyval;
  _input_types : list (string * InputType);
  _type_domains : gmap string (list dtype);
  _input_vars : gmap string pyval;
  _output_vars : option (list nat);
  enclosing_block : pyval;
  scopes : pyval
}.

Record World := mk_world {
  self : Operation;
  vars : gmap nat Var.t
}.

(** ** Kind-specific methods and collaborators *)

Inductive ti_ret :=
  | TI_single (t : mil_type)
  | TI_tuple (l : list mil_type).

(** What a value inference hands back for one output: an array or a
    [mil_list]; [None] stands for Python's [None]. *)
Inductive vi_val :=
  | Raw (a : ndarray)
  | MilList (ls : list scalar).

Inductive vi_ret :=
  | VI_single (v : option vi_val)
  | VI_tuple (l : list (option vi_val)).

Inductive names_ret :=
  | ON_single (s : string)
  | ON_tuple (l : list string).

(** The methods and class attributes a subclass of [Operation] supplies.  The
    methods read the object and the nodes it refers to. *)
Record OpKind := mk_kind {
  op_type : string;
  input_types : list (string * InputType);
  type_domains : gmap string (list dtype);
  type_inference : World -> exn + ti_ret;
  value_inference : World -> exn + vi_ret;
  output_names : World -> exn + names_ret
}.

(** The bodies [Operation] itself gives to the optional methods. *)
Definition Operation_value_inference : World -> exn + vi_ret :=
  fun _ => inl (NotImplementedError no_value_inference).
Definition Operation_output_names : World -> exn + names_ret :=
  fun _ => inl (NotImplementedError no_output_names).
Definition Operation_type_inference : World -> exn + ti_ret :=
  fun _ => inl (NotImplementedError no_type_inference).

(** Functions of other modules of the package that the sources at hand call
    but do not contain; they are parameters of the development. *)
Class Collaborators := {
  (** [types.is_compatible_type] *)
  is_compatible_type : mil_type -> mil_type -> bool;
  (** [InputSpec.validate_inputs(name, op_type, candidate_kvs)]: the exception
      it raises, if any *)
  validate_inputs : pyval -> string -> list (string * pyval) -> World -> option exn;
  (** the marker [Var._set_nonreplaceable_vars_upstream] computes for a node *)
  nonreplaceable_upstream : World -> nat -> gset nat
}.

(** ** The state-and-exception monad *)

Definition M (A : Type) : Type := World -> (exn + A) * World.

Global Instance M_ret : MRet M := fun A x w => (inr x, w).
Global Instance M_bind : MBind M := fun A B f m w =>
  match m w with
  | (inr x, w') => f x w'
  | (inl e, w') => (inl e, w')
  end.

Definition raise {A} (e : exn) : M A := fun w => (inl e, w).
Definition get : M World := fun w => (inr w, w).
Definition modify (f : World -> World) : M unit := fun w => (inr tt, f w).
Definition lift {A} (r : exn + A) : M A := fun w => (r, w).

Fixpoint for_each {A} (body : A -> M unit) (l : list A) : M unit :=
  match l with
  | [] => mret tt
  | x :: rest => body x ;; for_each body rest
  end.

(** [for i, x in enumerate(l)], counting from [i]. *)
Fixpoint for_enumerate {A} (body : nat -> A -> M unit) (i : nat) (l : list A) : M unit :=
  match l with
  | [] => mret tt
  | x :: rest => body i x ;; for_enumerate body (S i) rest
  end.

(** Field updates of the object and of the store. *)
Definition with_self (f : Operation -> Operation) (w : World) : World :=
  mk_world (f (self w)) (vars w).
Definition with_vars (f : gmap nat Var.t -> gmap nat Var.t) (w : World) : World :=
  mk_world (self w) (f (vars w)).

Definition set_input_var (k : string) (v : pyval) (o : Operation) : Operation :=
  mk_op (self_id o) (name o) (_input_types o) (_type_domains o)
        (<[k := v]> (_input_vars o)) (_output_vars o) (enclosing_block o) (scopes o).
Definition set_output_vars (outs : option (list nat)) (o : Operation) : Operation :=
  mk_op (self_id o) (name o) (_input_types o) (_type_domains o)
        (_input_vars o) outs (enclosing_block o) (scopes o).
Definition set_input_types (ts : list (string * InputType)) (o : Operation) : Operation :=
  mk_op (self_id o) (name o) ts (_type_domains o)
        (_input_vars o) (_output_vars o) (enclosing_block o) (scopes o).

(** Reading a node through a reference; a reference to nothing does not occur
    in Python and is answered with an exception of its own. *)
Definition get_var (id : nat) : M Var.t := fun w =>
  match vars w !! id with
  | Some v => (inr v, w)
  | None => (inl ReferenceError, w)
  end.

(** Attribute access [x.attr] where the attribute exists on nodes only. *)
Definition var_of (x : pyval) : M (nat * Var.t) :=
  match x with
  | PyVar id => v ← get_var id; mret (id, v)
  | _ => raise AttributeError
  end.

(** In-place change of the node behind a reference. *)
Definition edit_var (id : nat) (f : Var.t -> Var.t) (w : World) : World :=
  with_vars (fun h => match h !! id with Some v => <[id := f v]> h | None => h end) w.

Definition update_var (id : nat) (f : Var.t -> Var.t) : M unit :=
  modify (edit_var id f).

(** Python dictionaries as association lists in insertion order. *)
Fixpoint dict_get {V} (k : string) (d : list (string * V)) : option V :=
  match d with
  | [] => None
  | (k', v) :: rest => if bool_decide (k' = k) then Some v else dict_get k rest
  end.

Definition dict_has {V} (k : string) (d : list (string * V)) : bool :=
  bool_decide (k ∈ d.*1).

(** [self._input_vars[name]] *)
Definition input_var (k : string) : M pyval := fun w =>
  match _input_vars (self w) !! k with
  | Some v => (inr v, w)
  | None => (inl (KeyError k), w)
  end.

Fixpoint fold_each {A S} (body : A -> S -> M S) (l : list A) (s : S) : M S :=
  match l with
  | [] => mret s
  | x :: rest => s' ← body x s; fold_each body rest s'
  end.

(** The one-character strings a Python string iterates over. *)
Fixpoint chars (s : string) : list pyval :=
  match s with
  | EmptyString => []
  | String c rest => PyStr (String c EmptyString) :: chars rest
  end.

(** [iter(x)]: tuples and strings are iterable, the other objects are not. *)
Definition iterate (x : pyval) : M (list pyval) :=
  match x with
  | PyTuple l => mret (PyVar <$> l)
  | PyStr s => mret (chars s)
  | _ => raise TypeError
  end.

(** ** The classification gate: [precondition] *)

Definition flags : Type := bool * bool * bool.

(** [process(v, has_value, has_symbol, has_none)] on a node. *)
Definition process (v : Var.t) (has : flags) : flags :=
  let '(has_value, has_symbol, has_none) := has in
  if any_symbolic (Var.sym_val v) then (has_value, true, has_none)
  else if bool_decide (Var.val v = None) then (has_value, has_symbol, true)
  else (true, has_symbol, has_none).

(** [process] on whatever object the slot holds. *)
Definition process_obj (x : pyval) (has : flags) : M flags :=
  '(_, v) ← var_of x; mret (process v has).

(** The body of the loop over [self._input_types.items()]. *)
Definition classify_slot (entry : string * InputType) (has : flags) : M flags :=
  let '(in_name, in_type) := entry in
  if optional in_type then mret has
  else if is_tuple_input in_type then
    x ← input_var in_name;
    vs ← iterate x;
    fold_each process_obj vs has
  else
    x ← input_var in_name;
    process_obj x has.

Definition classify_inputs : M flags :=
  w ← get;
  fold_each classify_slot (_input_types (self w)) (false, false, false).

(** [precondition(allow)(func)]: the decorated value inference. *)
Definition precondition (allow : Z) (func : World -> exn + vi_ret) : World -> exn + vi_ret :=
  let ALLOW_VALUE := Z.land allow VALUE in
  let ALLOW_SYMBOL := Z.land allow SYMBOL in
  let ALLOW_NONE := Z.land allow NONE in
  fun w =>
    match (classify_inputs w).1 with
    | inl e => inl e
    | inr (HAS_VALUE, HAS_SYMBOL, HAS_NONE) =>
        if HAS_VALUE && negb (truthy ALLOW_VALUE) then
          inl (NotImplementedError (no_support F_VALUE))
        else if HAS_SYMBOL && negb (truthy ALLOW_SYMBOL) then
          inl (NotImplementedError (no_support F_SYMBOL))
        else if HAS_NONE && negb (truthy ALLOW_NONE) then
          inl (NotImplementedError (no_support F_NONE))
        else func w
    end.

Definition is_internal_input (arg_name : string) : exn + bool :=
  match arg_name with
  | EmptyString => inl IndexError
  | String c _ => inr (bool_decide (c = "_"%char))
  end.

Definition non_attributes : list string :=
  ["name"; "symbolic_datatype"; "datatype"; "symbolic_value"; "value"; "version";
   "before_op"; "no_check_var_types"; "enclosing_block"; "scopes"]%string.

Definition payload_of (v : vi_val) : payload :=
  match v with
  | Raw a => PArr a
  | MilList ls => PList ls
  end.

(** [np.real] and [np.imag] on arrays of real entries. *)
Definition np_real (p : payload) : ndarray := as_array p.
Definition np_imag (p : payload) : ndarray :=
  mk_ndarray (shape (as_array p)) ((fun _ => Num 0) <$> flatten (as_array p)).

Definition is_PList (p : payload) : bool :=
  match p with PList _ => true | PArr _ => false end.

(** ** The methods of [Operation] *)

Section operation.
Context {collab : Collaborators} (k : OpKind).

(** *** _auto_val *)

Definition as_tuple (vals : vi_ret) : list (option vi_val) :=
  match vals with
  | VI_single v => [v]
  | VI_tuple l => l
  end.

(** The loop [for val in vals: if val is None: do_auto_val = False]. *)
Definition all_known (vals : list (option vi_val)) : bool :=
  foldl (fun do_auto_val v => if bool_decide (v = None) then false else do_auto_val)
        true vals.

Definition _auto_val (output_types : list mil_type) : M (list (option builtin_val)) :=
  w ← get;
  match value_inference k w with
  | inl (NotImplementedError _) => mret ((fun _ => None) <$> output_types)
  | inl e => raise e
  | inr vals =>
      let vals := as_tuple vals in
      if negb (all_known vals) then mret ((fun _ => None) <$> output_types)
      else
        (* no entry of [vals] is None at this point *)
        mret (zip_with (fun t v => (fun x => mk_builtin t (payload_of x)) <$> v)
                       output_types vals)
  end.

(** *** type_value_inference *)

Definition default_output_names (output_types : list mil_type) : list string :=
  if bool_decide (1 < length output_types)%nat
  then (fun i => pretty i) <$> seq 0 (length output_types)
  else [""%string].

(** [_output_vars.append(new_var)]: the new node gets a fresh place in the
    store. *)
Definition append_output (new_var : Var.t) : M unit := fun w =>
  let id := fresh (dom (vars w)) in
  (inr tt,
   mk_world (set_output_vars (Some (default [] (_output_vars (self w)) ++ [id])) (self w))
            (<[id := new_var]> (vars w))).

(** [self.real_data] and the like: inputs are mirrored as attributes. *)
Definition attribute (a : string) : M pyval := fun w =>
  match _input_vars (self w) !! a with
  | Some v => (inr v, w)
  | None => (inl AttributeError, w)
  end.

(** The body of the loop that creates the output nodes. *)
Definition create_output (i : nat) (item : string * mil_type * option builtin_val) : M unit :=
  let '(n, sym_type, sym_val) := item in
  w ← get;
  name ← (if negb (bool_decide (n = ""%string)) then
            match name (self w) with
            | PyStr s => mret (PyStr (s +:+ "_" +:+ n))
            | _ => raise TypeError
            end
          else mret (name (self w)));
  new_var ←
    match sym_type with
    | TList elem_type init_length dynamic_length =>
        let sv := match sym_val with
                  | Some b => if is_PList (val b) then Some b else None
                  | None => None
                  end in
        let new_var :=
          Var.mk name (TList elem_type init_length dynamic_length) sv
                 (Some (self_id (self w))) (Some i) ∅ ∅ (ListVar elem_type) in
        match Var.elem_shape new_var with
        | Some elem_shape =>
            if bool_decide (5 <= length elem_shape)%nat
            then raise (ValueError (list_rank (length elem_shape)))
            else mret new_var
        | None => mret new_var
        end
    | _ =>
        if is_complex_tensor sym_type then
          '(real_data, imag_data) ←
            (if bool_decide (op_type k = "complex"%string) then
               re ← attribute "real_data"; im ← attribute "imag_data";
               mret (CD_Input re, CD_Input im)
             else if bool_decide (op_type k = "const"%string) then
               match sym_val with
               | Some b => mret (CD_Array (np_real (val b)), CD_Array (np_imag (val b)))
               | None => raise AttributeError
               end
             else mret (CD_None, CD_None));
          mret (Var.mk name sym_type sym_val (Some (self_id (self w))) (Some i) ∅ ∅
                       (ComplexVar real_data imag_data))
        else
          mret (Var.mk name sym_type sym_val (Some (self_id (self w))) (Some i) ∅ ∅
                       PlainVar)
    end;
  append_output new_var.

(** [o._set_nonreplaceable_vars_upstream()] *)
Definition _set_nonreplaceable_vars_upstream (o : nat) : M unit :=
  _ ← get_var o;
  w ← get;
  update_var o (Var.set_nonreplaceable (nonreplaceable_upstream w o)).

(** The body of the loop that checks a new inference against the existing
    output nodes. *)
Definition check_output (overwrite_output : bool) (i : nat)
    (item : mil_type * option builtin_val) : M unit :=
  let '(sym_type, sym_val) := item in
  w ← get;
  id ← (match default [] (_output_vars (self w)) !! i with
        | Some id => mret id
        | None => raise IndexError
        end);
  out_var ← get_var id;
  (if overwrite_output then update_var id (Var.set_sym_type sym_type)
   else if negb (is_compatible_type sym_type (Var.sym_type out_var))
        then raise (ValueError (type_changes (Var.name out_var)))
        else mret tt);;
  (if overwrite_output then update_var id (Var.set_sym_val sym_val) else mret tt);;
  out_var ← get_var id;
  match sym_val, Var.sym_val out_var with
  | Some sv, Some old =>
      differs ← lift (np_any_ne (val sv) old);
      if differs : bool then
        if overwrite_output then update_var id (Var.set_sym_val sym_val)
        else
          match val sv, old with
          | PArr a, PArr b =>
              if negb (_is_compatible_symbolic_array a b)
              then raise (ValueError (value_inference_differs (Var.name out_var)))
              else mret tt
          | _, _ => raise AttributeError
          end
      else mret tt
  | _, _ => mret tt
  end;;
  w ← get;
  for_each _set_nonreplaceable_vars_upstream (default [] (_output_vars (self w))).

Definition zip3 {A B C} (a : list A) (b : list B) (c : list C) : list (A * B * C) :=
  zip (zip a b) c.

(** [if not isinstance(output_types, tuple): output_types = (output_types,)] *)
Definition type_tuple (r : ti_ret) : list mil_type :=
  match r with
  | TI_single t => [t]
  | TI_tuple l => l
  end.

(** The [try] around [self.output_names()]: a NotImplementedError gives the
    default names, any other exception goes on to the caller. *)
Definition names_tuple (r : exn + names_ret) (output_types : list mil_type) :
    exn + list string :=
  match r with
  | inr (ON_single s) => inr [s]
  | inr (ON_tuple l) => inr l
  | inl (NotImplementedError _) => inr (default_output_names output_types)
  | inl e => inl e
  end.

Definition type_value_inference (overwrite_output : bool) : M unit :=
  w ← get;
  output_types ← lift (type_inference k w);
  let output_types := type_tuple output_types in
  output_vals ← _auto_val output_types;
  w ← get;
  output_names ← lift (names_tuple (output_names k w) output_types);
  w ← get;
  match _output_vars (self w) with
  | None =>
      modify (with_self (set_output_vars (Some [])));;
      for_enumerate create_output 0 (zip3 output_names output_types output_vals)
  | Some _ =>
      for_enumerate (check_output overwrite_output) 0 (zip output_types output_vals)
  end.

(** *** _ensure_required_inputs *)

Definition ensure_slot (entry : string * InputType) : M unit :=
  let '(name, input_type) := entry in
  if optional input_type then mret tt
  else
    v ← input_var name;
    if bool_decide (v = PyNone)
    then raise (ValueError (required_input_missing name))
    else mret tt.

Definition _ensure_required_inputs : M unit :=
  w ← get;
  for_each ensure_slot (_input_types (self w)).

(** *** _validate_and_set_inputs *)

Definition check_and_detach (v_new v_old : pyval) (no_check_var_types : bool) : M unit :=
  '(id_new, new) ← var_of v_new;
  '(id_old, old) ← var_of v_old;
  if negb (is_compatible_type (Var.sym_type new) (Var.sym_type old))
     && negb no_check_var_types
  then raise (ValueError (incompatible_subtype id_new id_old))
  else
    w ← get;
    update_var id_old (Var.remove_child_op (self_id (self w)) no_check_var_types).

Definition add_child_op (id : nat) : M unit :=
  _ ← get_var id;
  w ← get;
  update_var id (Var.add_child_op (self_id (self w))).

(** The body of the loop over [input_kvs.items()]. *)
Definition set_input (no_check_var_types : bool) (item : string * pyval) : M unit :=
  let '(name, var) := item in
  existing_input_var ← input_var name;
  (if negb (bool_decide (existing_input_var = PyNone)) then
     match existing_input_var with
     | PyTuple olds =>
         news ← iterate var;
         for_each (fun p => check_and_detach p.2 (PyVar p.1) no_check_var_types)
                  (zip olds news)
     | _ => check_and_detach var existing_input_var no_check_var_types
     end
   else mret tt);;
  match var with
  | PyVar id => add_child_op id
  | PyTuple l => for_each add_child_op l
  | _ => mret tt
  end;;
  modify (with_self (set_input_var name var)).

Definition check_known_key (key : string) : M unit :=
  w ← get;
  if negb (dict_has key (_input_types (self w)))
  then raise (RuntimeError key)
  else mret tt.

Definition _validate_and_set_inputs (input_kvs : list (string * pyval))
    (no_check_var_types : bool) : M unit :=
  for_each check_known_key input_kvs.*1;;
  w ← get;
  match validate_inputs (name (self w)) (op_type k) input_kvs w with
  | Some e => raise e
  | None => mret tt
  end;;
  for_each (set_input no_check_var_types) input_kvs.

(** *** set_inputs *)

Definition set_inputs (no_check_var_types type_inference : bool)
    (input_kvs : list (string * pyval)) : M unit :=
  _validate_and_set_inputs input_kvs no_check_var_types;;
  (if type_inference && negb no_check_var_types
   then type_value_inference false
   else mret tt);;
  _ensure_required_inputs.

(** *** __init__ *)

Definition check_expected_key (key : string) : M unit :=
  w ← get;
  if negb (bool_decide (key ∈ non_attributes)) && negb (dict_has key (_input_types (self w)))
  then raise (ValueError (unknown_input key))
  else mret tt.

Definition _check_expected_inputs (kwargs : list (string * pyval)) : M unit :=
  for_each check_expected_key kwargs.*1.

(** [kwargs[key]] *)
Definition kwarg (kwargs : list (string * pyval)) (key : string) : M pyval :=
  match dict_get key kwargs with
  | Some v => mret v
  | None => raise (KeyError key)
  end.

(** The body of the loop that resolves type domains; [i] is the position of
    the entry in the contract. *)
Definition populate_type_domain (i : nat) (entry : string * InputType) : M unit :=
  let '(name, v) := entry in
  match in_class v with
  | TensorInputType type_domain type_domain_id =>
      if bool_decide (length type_domain = 0%nat) then
        w ← get;
        match _type_domains (self w) !! type_domain_id with
        | None => raise (ValueError (type_domain_not_defined type_domain_id))
        | Some d =>
            modify (with_self (fun o =>
              set_input_types
                (<[i := (name, mk_input_type (optional v) (TensorInputType d type_domain_id))]>
                   (_input_types o)) o))
        end
      else mret tt
  | _ => mret tt
  end.

(** [__init__] up to and including the binding of the supplied inputs. *)
Definition __init___bind (kwargs : list (string * pyval)) : M unit :=
  let op_name := default PyNone (dict_get "name"%string kwargs) in
  modify (with_self (fun o =>
    mk_op (self_id o) op_name (input_types k) (type_domains k) ∅ None
          (enclosing_block o) (scopes o)));;
  block ← kwarg kwargs "enclosing_block";
  modify (with_self (fun o =>
    mk_op (self_id o) (name o) (_input_types o) (_type_domains o) (_input_vars o)
          (_output_vars o) block (scopes o)));;
  sc ← kwarg kwargs "scopes";
  modify (with_self (fun o =>
    mk_op (self_id o) (name o) (_input_types o) (_type_domains o) (_input_vars o)
          (_output_vars o) (enclosing_block o) sc));;
  (* Initialize inputs as object attributes (all None) *)
  for_each (fun key => modify (with_self (set_input_var key PyNone))) (input_types k).*1;;
  _check_expected_inputs kwargs;;
  (* Populate type_domains into input types *)
  for_enumerate populate_type_domain 0 (input_types k);;
  (* Set inputs from kwargs *)
  w ← get;
  let input_kv :=
    filter (fun kv => dict_has kv.1 (_input_types (self w)) = true /\ kv.2 <> PyNone) kwargs in
  _validate_and_set_inputs input_kv false.

Definition __init__ (kwargs : list (string * pyval)) : M unit :=
  __init___bind kwargs;;
  _ensure_required_inputs.

End operation.

(** ** Predicates on states *)

(** The output nodes of the operation, none before the first inference. *)
Definition outputs (w : World) : list nat := default [] (_output_vars (self w)).

(** Every output node exists and satisfies [P]. *)
Definition outputs_all (P : Var.t -> Prop) (w : World) : Prop :=
  forall id, id ∈ outputs w -> exists v, vars w !! id = Some v /\ P v.

(** Every output node exists and carries no value. *)
Definition outputs_unknown (w : World) : Prop :=
  outputs_all (fun v => Var._sym_val v = None) w.

(** The rank of the elements of a list type, when their shape is known. *)
Definition list_elem_rank (ty : mil_type) : option nat :=
  match ty with
  | TList TUnknown _ _ => None
  | TList (TTensor _ shp) _ _ => Some (length shp)
  | TList _ _ _ => Some 0%nat
  | _ => None
  end.

(** No list node has elements of rank 5 or more. *)
Definition rank_supported (v : Var.t) : Prop :=
  forall elem_shape, Var.elem_shape v = Some elem_shape -> (length elem_shape <= 4)%nat.


(** Weakest precondition of a computation: [Q] for a normal end, [E] for an
    exception, both on the state reached. *)
Definition wp {A} (m : M A) (Q : A -> World -> Prop) (E : exn -> World -> Prop)
    (w : World) : Prop :=
  match m w with
  | (inr x, w') => Q x w'
  | (inl e, w') => E e w'
  end.


(** ** Concrete kinds and states used to exercise the statements *)

Module Demo.

Fixpoint compatible_dims (a b : list dim) : bool :=
  match a, b with
  | [], [] => true
  | x :: a', y :: b' =>
      (bool_decide (x = y) || dim_is_symbolic x || dim_is_symbolic y)
      && compatible_dims a' b'
  | _, _ => false
  end.

(** Equal types, or tensors of one element type whose dimensions agree
    wherever both are concrete. *)
Definition compatible (t1 t2 : mil_type) : bool :=
  bool_decide (t1 = t2) ||
  match t1, t2 with
  | TTensor d1 s1, TTensor d2 s2 => bool_decide (d1 = d2) && compatible_dims s1 s2
  | _, _ => false
  end.

Definition collaborators : Collaborators := {|
  is_compatible_type := compatible;
  validate_inputs := fun _ _ _ _ => None;
  nonreplaceable_upstream := fun _ _ => ∅ |}.

(** The node bound to a slot, if the slot holds one. *)
Definition input_node (w : World) (slot : string) : option Var.t :=
  match _input_vars (self w) !! slot with
  | Some (PyVar id) => vars w !! id
  | _ => None
  end.

Definition add_type_inference (w : World) : exn + ti_ret :=
  match input_node w "x" with
  | Some v => inr (TI_single (Var.sym_type v))
  | None => inl AttributeError
  end.

Definition add_entries (x y : scalar) : scalar :=
  match x, y with
  | NaN, _ | _, NaN => NaN
  | Num a, Num b => Num (a + b)
  | Sym s, _ => Sym s
  | _, Sym s => Sym s
  end.

Definition add_values (w : World) : exn + vi_ret :=
  match input_node w "x", input_node w "y" with
  | Some vx, Some vy =>
      match Var.sym_val vx, Var.sym_val vy with
      | Some px, Some py =>
          inr (VI_single (Some (Raw (mk_ndarray (shape (as_array px))
                 (zip_with add_entries (flatten (as_array px)) (flatten (as_array py)))))))
      | _, _ => inr (VI_single None)
      end
  | _, _ => inl AttributeError
  end.

Definition tensor_in : InputType := mk_input_type false (TensorInputType [int32] "T").
Definition optional_in : InputType := mk_input_type true (TensorInputType [int32] "T").

(** An elementwise addition whose value inference tolerates the flags
    [allow]. *)
Definition add_kind (allow : Z) : OpKind :=
  mk_kind "add" [("x"%string, tensor_in); ("y"%string, tensor_in)] ∅
          add_type_inference (precondition allow add_values) Operation_output_names.

(** A kind that hands on the value of [x] under a type whose only dimension
    is unresolved. *)
Definition echo_kind : OpKind :=
  mk_kind "echo" [("x"%string, tensor_in)] ∅
          (fun _ => inr (TI_single (TTensor int32 [SymDim "s0"])))
          (fun w => match input_node w "x" with
                    | Some v => inr (VI_single (Raw <$> (as_array <$> Var.sym_val v)))
                    | None => inl AttributeError
                    end)
          Operation_output_names.

(** A kind whose output is a list of tensors of rank [r]. *)
Definition list_kind (r : nat) : OpKind :=
  mk_kind "make_list" [] ∅
          (fun _ => inr (TI_single (TList (TTensor fp32 (replicate r (Dim 1))) 0 true)))
          Operation_value_inference Operation_output_names.

(** The addition without a gate on its value inference. *)
Definition sum_kind : OpKind :=
  mk_kind "sum" [("x"%string, tensor_in); ("y"%string, tensor_in)] ∅
          add_type_inference add_values Operation_output_names.

(** A kind with two outputs whose value inference knows only the first. *)
Definition split_kind : OpKind :=
  mk_kind "split" [("x"%string, tensor_in)] ∅
          (fun _ => inr (TI_tuple [TTensor int32 [Dim 1]; TTensor int32 [Dim 1]]))
          (fun _ => inr (VI_tuple [Some (Raw (mk_ndarray [1%nat] [Num 1])); None]))
          Operation_output_names.

Definition vec (l : list Z) : builtin_val :=
  mk_builtin (TTensor int32 [Dim (length l)])
             (PArr (mk_ndarray [length l] (Num <$> l))).

Definition const_node (nm : string) (l : list Z) : Var.t :=
  Var.mk (PyStr nm) (TTensor int32 [Dim (length l)]) (Some (vec l)) None None ∅ ∅ PlainVar.

(** A node whose shape has an unresolved dimension and that has no value. *)
Definition symbolic_shape_node (nm : string) : Var.t :=
  Var.mk (PyStr nm) (TTensor int32 [SymDim "s0"; Dim 2]) None None None ∅ ∅ PlainVar.

(** A node whose value has an unresolved entry. *)
Definition symbolic_value_node (nm : string) : Var.t :=
  Var.mk (PyStr nm) (TTensor int32 [Dim 2])
         (Some (mk_builtin (TTensor int32 [Dim 2])
                           (PArr (mk_ndarray [2%nat] [Sym "is0"; Num 2]))))
         None None ∅ ∅ PlainVar.

Definition blank (id : nat) : Operation :=
  mk_op id PyNone [] ∅ ∅ None PyNone PyNone.

Definition store : gmap nat Var.t :=
  <[0%nat := const_node "a" [1; 2]]>
    (<[1%nat := const_node "b" [3; 4]]>
       (<[2%nat := const_node "c" [1; 3]]>
          (<[3%nat := symbolic_shape_node "d"]>
             (<[4%nat := symbolic_value_node "e"]>
                (<[5%nat := const_node "ones" [1; 1; 1]]>
                   (<[6%nat := const_node "one" [1]]> ∅)))))).

(** The store before operation 7 is constructed. *)
Definition w0 : World := mk_world (blank 7) store.

Definition system_kwargs : list (string * pyval) :=
  [("name"%string, PyStr "op_7"); ("enclosing_block"%string, PyObj 0);
   ("scopes"%string, PyObj 1)].

(** The state an operation of kind [kd] is in after construction with the
    inputs [kvs]. *)
Definition constructed (kd : OpKind) (kvs : list (string * pyval)) : World :=
  (__init__ (collab := collaborators) kd (system_kwargs ++ kvs) w0).2.

(** The state after construction and first inference. *)
Definition inferred (kd : OpKind) (kvs : list (string * pyval)) : World :=
  (type_value_inference (collab := collaborators) kd false (constructed kd kvs)).2.

(** The state after construction, first inference and a rebinding, with or
    without the type check on the new node. *)
Definition rebound (kd : OpKind) (kvs : list (string * pyval))
    (no_check_var_types : bool) (new_kvs : list (string * pyval)) : World :=
  (_validate_and_set_inputs (collab := collaborators) kd new_kvs no_check_var_types
     (inferred kd kvs)).2.

(** A kind without inputs whose single fp32 output holds a NaN. *)
Definition nan_kind : OpKind :=
  mk_kind "fill_nan" [] ∅
          (fun _ => inr (TI_single (TTensor fp32 [Dim 1])))
          (fun _ => inr (VI_single (Some (Raw (mk_ndarray [1%nat] [NaN])))))
          Operation_output_names.

(** A kind without inputs that types two outputs and names one. *)
Definition pair_kind : OpKind :=
  mk_kind "pair" [] ∅
          (fun _ => inr (TI_tuple [TTensor int32 [Dim 1]; TTensor int32 [Dim 1]]))
          Operation_value_inference
          (fun _ => inr (ON_single "out")).

End Demo.


(** ** The classification of an input, as the code makes it and as the
       specification words it *)

Inductive classification := Materialized | Symbolic | Absent.

(** Setting the flag of a classification among the accumulated flags. *)
Definition mark (c : classification) (has : flags) : flags :=
  let '(has_value, has_symbol, has_none) := has in
  match c with
  | Materialized => (true, has_symbol, has_none)
  | Symbolic => (has_value, true, has_none)
  | Absent => (has_value, has_symbol, true)
  end.

(** The classification [process] makes: it looks at the value only. *)
Definition value_classification (v : Var.t) : classification :=
  if any_symbolic (Var.sym_val v) then Symbolic
  else match Var.sym_val v with
       | Some _ => Materialized
       | None => Absent
       end.

(** The classification in the words of the specification: Symbolic if the
    type or the value contains any unresolved symbol, Materialized if the node
    carries a concrete value, Absent if neither. *)
Definition spec_classification (v : Var.t) : classification :=
  if type_has_symbol (Var.sym_type v) || any_symbolic (Var.sym_val v) then Symbolic
  else match Var.val v with
       | Some _ => Materialized
       | None => Absent
       end.

(** The nodes a tuple of references resolves to. *)
Fixpoint nodes_of (w : World) (ids : list nat) : option (list Var.t) :=
  match ids with
  | [] => Some []
  | id :: rest =>
      match vars w !! id, nodes_of w rest with
      | Some v, Some vs => Some (v :: vs)
      | _, _ => None
      end
  end.

Definition required_entries (ts : list (string * InputType)) : list (string * InputType) :=
  filter (fun e => optional e.2 = false) ts.


(** ** Bound and unbound slots *)

(** The slot holds Python's None. *)
Definition slot_unbound (w : World) (n : string) : Prop :=
  _input_vars (self w) !! n = Some PyNone.

(** A required slot of the contract that is unbound. *)
Definition missing_required (w : World) (n : string) : Prop :=
  exists t, (n, t) ∈ _input_types (self w) /\ optional t = false /\ slot_unbound w n.

(** Every slot of the contract has its key in [_input_vars], as after the
    initialisation loop of [__init__]. *)
Definition slots_initialized (w : World) : Prop :=
  forall n t, (n, t) ∈ _input_types (self w) -> is_Some (_input_vars (self w) !! n).


(** Name and optionality of the entries of a contract. *)
Definition signature (ts : list (string * InputType)) : list (string * bool) :=
  (fun e => (e.1, optional e.2)) <$> ts.

(** The contract is that of the kind, up to resolved type domains, and each
    of its names has its key. *)
Definition contract_ready (k : OpKind) (w : World) : Prop :=
  signature (_input_types (self w)) = signature (input_types k) /\
  forall n, n ∈ (input_types k).*1 -> is_Some (_input_vars (self w) !! n).


(** The keyword arguments without the pair that passes None for [key]. *)
Definition without_none (key : string) (kwargs : list (string * pyval)) :
    list (string * pyval) :=
  filter (fun kv => kv <> (key, PyNone)) kwargs.


(** ** Frames *)

(** Two node records that differ at most in their consumer sets. *)
Definition same_but_consumers (v v' : Var.t) : Prop :=
  Var.name v' = Var.name v /\
  Var._sym_type v' = Var._sym_type v /\
  Var._sym_val v' = Var._sym_val v /\
  Var.op v' = Var.op v /\
  Var.op_output_idx v' = Var.op_output_idx v /\
  Var.nonreplaceable_vars_upstream v' = Var.nonreplaceable_vars_upstream v /\
  Var.class v' = Var.class v.

(** The store of [w'] has the nodes of [w], changed at most in their consumer
    sets, and no others. *)
Definition nodes_kept (w w' : World) : Prop :=
  forall id,
    match vars w !! id, vars w' !! id with
    | Some v, Some v' => same_but_consumers v v'
    | None, None => True
    | _, _ => False
    end.


(** ** Symbolic compatibility, in the words of the specification *)

(** Same shape and, at every position where both entries are concrete, equal
    entries; equal is the equality of the entries as Python compares them,
    under which a NaN is equal to nothing. *)
Definition symbolic_compatible (a b : ndarray) : Prop :=
  shape a = shape b /\
  forall i x y,
    flatten a !! i = Some x -> flatten b !! i = Some y ->
    is_symbolic x = false -> is_symbolic y = false -> py_ne x y = false.


(** ** Consumer edges *)

(** The operation is in the consumer set of the node behind [id]. *)
Definition consumes (w : World) (id : nat) : Prop :=
  exists v, vars w !! id = Some v /\ self_id (self w) ∈ Var.child_ops v.

(** The node behind [id] exists and the operation is not among its
    consumers. *)
Definition detached (w : World) (id : nat) : Prop :=
  exists v, vars w !! id = Some v /\ self_id (self w) ∉ Var.child_ops v.

(** The slot [name] holds the node [old], and the node [new] has a type that
    is not compatible with the type of [old]. *)
Definition incompatible_rebinding {collab : Collaborators}
    (name : string) (new old : nat) (w : World) : Prop :=
  _input_vars (self w) !! name = Some (PyVar old) /\
  exists vn vo,
    vars w !! new = Some vn /\ vars w !! old = Some vo /\
    is_compatible_type (Var.sym_type vn) (Var.sym_type vo) = false.


(** ** Consumer edges across a rebinding *)

(** The nodes an object holds: itself when it is a node, its elements when
    it is a tuple of nodes. *)
Definition held (x : pyval) : list nat :=
  match x with
  | PyVar id => [id]
  | PyTuple l => l
  | _ => []
  end.

(** The operation [o] is, or is not, among the consumers of the node behind
    [t]. *)
Definition lists (o : nat) (w : World) (t : nat) : Prop :=
  exists v, vars w !! t = Some v /\ o ∈ Var.child_ops v.
Definition omits (o : nat) (w : World) (t : nat) : Prop :=
  exists v, vars w !! t = Some v /\ o ∉ Var.child_ops v.

(** From [w] to [w'] the nodes are kept, the operation [o] is removed from
    the consumers of nodes in [D] only and added to those of nodes in [A]
    only. *)
Definition moves (o : nat) (A D : nat -> Prop) (w w' : World) : Prop :=
  nodes_kept w w' /\
  (forall t, ~ D t -> lists o w t -> lists o w' t) /\
  (forall t, ~ A t -> omits o w t -> omits o w' t).

(** Some pair of [kvs] offers the node [t], alone or in a tuple. *)
Definition offered_by (kvs : list (string * pyval)) (t : nat) : Prop :=
  exists n x, (n, x) ∈ kvs /\ t ∈ held x.

(** A slot other than [name] holds the node [t]; [held_by_other] looks at the
    slots in [names] only. *)
Definition held_elsewhere (w : World) (name : string) (t : nat) : Prop :=
  exists n x, n <> name /\ _input_vars (self w) !! n = Some x /\ t ∈ held x.
Definition held_by_other (w : World) (names : list string) (name : string) (t : nat) :
    Prop :=
  exists n x, n ∈ names /\ n <> name /\ _input_vars (self w) !! n = Some x /\ t ∈ held x.


(** ** Inputs and outputs across inferences *)

(** The node [id] is bound to some input slot, alone or in a tuple. *)
Definition referenced (w : World) (id : nat) : Prop :=
  exists n,
    _input_vars (self w) !! n = Some (PyVar id) \/
    exists l, _input_vars (self w) !! n = Some (PyTuple l) /\ id ∈ l.

(** The nodes an object refers to are in the store. *)
Definition nodes_exist (w : World) (x : pyval) : Prop :=
  match x with
  | PyVar id => is_Some (vars w !! id)
  | PyTuple l => Forall (fun id => is_Some (vars w !! id)) l
  | _ => True
  end.

Global Instance nodes_exist_dec (w : World) (x : pyval) : Decision (nodes_exist w x).
Proof. destruct x; apply _. Defined.

(** Every input refers to nodes of the store. *)
Definition inputs_exist (w : World) : Prop :=
  map_Forall (fun _ x => nodes_exist w x) (_input_vars (self w)).

(** [w'] is [w] as far as the inputs go: the same object but for its outputs,
    and the same nodes behind its inputs. *)
Definition same_inputs (w w' : World) : Prop :=
  set_output_vars None (self w') = set_output_vars None (self w) /\
  forall id, referenced w id -> vars w' !! id = vars w !! id.

(** The methods of the kind read the object and the nodes bound to its inputs,
    and nothing else. *)
Definition reads_inputs_only (k : OpKind) : Prop :=
  forall w w', same_inputs w w' ->
    type_inference k w' = type_inference k w /\
    value_inference k w' = value_inference k w /\
    output_names k w' = output_names k w.

(** The kind names every output it types. *)
Definition names_cover_types (k : OpKind) (w : World) : Prop :=
  forall t names,
    type_inference k w = inr t ->
    names_tuple (output_names k w) (type_tuple t) = inr names ->
    (length (type_tuple t) <= length names)%nat.

(** [w'] has the object of [w] but for its outputs, and the nodes of [w]. *)
Definition grows (w w' : World) : Prop :=
  set_output_vars None (self w') = set_output_vars None (self w) /\
  forall id v, vars w !! id = Some v -> vars w' !! id = Some v.

(** The node behind [id] has the type of the item and its value, or no value
    where the node is a list and the value is not one. *)
Definition node_matches (w : World) (id : nat)
    (item : string * mil_type * option builtin_val) : Prop :=
  exists v, vars w !! id = Some v /\
    Var._sym_type v = item.1.2 /\
    (Var._sym_val v = item.2 \/ Var._sym_val v = None).

Definition same_type_value (v v' : Var.t) : Prop :=
  Var._sym_type v' = Var._sym_type v /\ Var._sym_val v' = Var._sym_val v.

(** The stores of [w] and [w'] have the same nodes with the same types and
    values. *)
Definition values_kept (w w' : World) : Prop :=
  forall id,
    match vars w !! id, vars w' !! id with
    | Some v, Some v' => same_type_value v v'
    | None, None => True
    | _, _ => False
    end.


(** The property the second run keeps: the outputs of [w1] and the types and
    values of its nodes. *)
Definition rerun_inv (w1 w' : World) : Prop :=
  _output_vars (self w') = _output_vars (self w1) /\ values_kept w1 w'.


(** ** Further predicates *)

(** An exception that [_auto_val] does not catch. *)
Definition not_caught (e : exn) : Prop := forall m, e <> NotImplementedError m.

(** The flag is among the flags [allow] lets through. *)
Definition allows (allow flag : Z) : bool := truthy (Z.land allow flag).

(** The node records the operation [o] as its producer and [i] as its
    position among the outputs of [o]. *)
Definition produced_by (o i : nat) (v : Var.t) : Prop :=
  Var.op v = Some o /\ Var.op_output_idx v = Some i.

(** The outputs of [w] are nodes that [w0] does not have, one per position,
    each produced by the operation at its position, and they are all that
    [w] has beyond the nodes of [w0]. *)
Definition fresh_outputs (w0 w : World) : Prop :=
  grows w0 w /\
  exists outs,
    _output_vars (self w) = Some outs /\
    NoDup outs /\
    (forall id, id ∈ outs -> vars w0 !! id = None) /\
    (forall j id, outs !! j = Some id ->
                  exists v, vars w !! id = Some v /\ produced_by (self_id (self w0)) j v) /\
    dom (vars w) = dom (vars w0) ∪ list_to_set outs.

(** The keyword is a system name or a name of the contract. *)
Definition expected_key (w : World) (key : string) : Prop :=
  key ∈ non_attributes \/ dict_has key (_input_types (self w)) = true.

(** The slot holds something other than None. *)
Definition slot_bound (w : World) (n : string) : Prop :=
  exists v, _input_vars (self w) !! n = Some v /\ v <> PyNone.

(** The object with the slots of [kvs] set, in the order of [kvs]. *)
Definition with_slots (kvs : list (string * pyval)) (o : Operation) : Operation :=
  foldl (fun o kv => set_input_var kv.1 kv.2 o) o kvs.

(** A required entry whose slot is there and holds a node, or an optional
    entry: the check of the required inputs passes it. *)
Definition entry_satisfied (w : World) (e : string * InputType) : Prop :=
  optional e.2 = true \/ slot_bound w e.1.

(** ** Type domains and opset versions *)

(** The entry with an empty type domain filled in from the registry [ds] of
    the class. *)
Definition resolve_domain (ds : gmap string (list dtype)) (e : string * InputType) :
    string * InputType :=
  match in_class e.2 with
  | TensorInputType type_domain type_domain_id =>
      if bool_decide (length type_domain = 0%nat) then
        match ds !! type_domain_id with
        | Some d => (e.1, mk_input_type (optional e.2) (TensorInputType d type_domain_id))
        | None => e
        end
      else e
  | _ => e
  end.

(** The identifier of the entry's type domain when the entry has an empty
    type domain that the registry [ds] does not define. *)
Definition undefined_domain (ds : gmap string (list dtype)) (e : string * InputType) :
    option string :=
  match in_class e.2 with
  | TensorInputType type_domain type_domain_id =>
      if bool_decide (length type_domain = 0%nat) then
        match ds !! type_domain_id with
        | Some _ => None
        | None => Some type_domain_id
        end
      else None
  | _ => None
  end.

(** [opset_version]: the table [_op_variants] of the class, from opset version
    to the class registered for it, is filled in outside this file and is an
    argument here, with classes told apart by a number; the method returns
    None when the loop ends without a match. *)
Definition opset_version (op_variants : gmap Z nat) (cls : nat) : option Z :=
  let opset_versions := merge_sort Z.le (elements (dom op_variants)) in
  snd <$> list_find (fun i => op_variants !! i = Some cls) opset_versions.

(** ** Values without NaN *)

(** No entry of the value is NaN. *)
Definition nan_free (p : payload) : Prop := NaN ∉ flatten (as_array p).

(** No inferred value has a NaN entry. *)
Definition values_nan_free (vals : list (option builtin_val)) : Prop :=
  forall b, Some b ∈ vals -> nan_free (val b).

(** The values that the kind infers in [w] have no NaN entry. *)
Definition infers_no_nan (k : OpKind) (w : World) : Prop :=
  forall t vals,
    type_inference k w = inr t ->
    (_auto_val k (type_tuple t) w).1 = inr vals ->
    values_nan_free vals.

(** * Properties *)

(** ** Running computations *)

Lemma bind_run {A B} (m : M A) (f : A -> M B) (w : World) :
  (m ≫= f) w = match m w with
               | (inr x, w') => f x w'
               | (inl e, w') => (inl e, w')
               end.
Proof. reflexivity. Qed.

Lemma bind_ok {A B} (m : M A) (f : A -> M B) (w w' : World) (x : A) :
  m w = (inr x, w') -> (m ≫= f) w = f x w'.
Proof. intros Hm. rewrite bind_run, Hm. reflexivity. Qed.

(** A property of the state that every step keeps is kept by the sequence,
    whether the sequence ends normally or with an exception. *)
Lemma bind_preserves {A B} (P : World -> Prop) (m : M A) (f : A -> M B) (w : World) :
  P (m w).2 -> (forall x w', P w' -> P (f x w').2) -> P ((m ≫= f) w).2.
Proof.
  intros Hm Hf. rewrite bind_run. destruct (m w) as [[e|x] w']; simpl in *; auto.
Qed.

Lemma for_each_preserves {A} (P : World -> Prop) (body : A -> M unit) (l : list A) :
  (forall x w, x ∈ l -> P w -> P (body x w).2) ->
  forall w, P w -> P (for_each body l w).2.
Proof.
  induction l as [|x l IH]; intros Hbody w Hw; simpl; [done|].
  apply bind_preserves.
  - apply Hbody; [left|done].
  - intros _ w' Hw'. apply IH; [|done].
    intros y w'' Hy. apply Hbody. by right.
Qed.

Lemma fold_each_cons {A S} (body : A -> S -> M S) (x : A) (l : list A) (s : S) :
  fold_each body (x :: l) s = (body x s ≫= fold_each body l).
Proof. reflexivity. Qed.

Lemma for_each_cons {A} (body : A -> M unit) (x : A) (l : list A) :
  for_each body (x :: l) = (body x ;; for_each body l).
Proof. reflexivity. Qed.

Lemma for_enumerate_cons {A} (body : nat -> A -> M unit) (i : nat) (x : A) (l : list A) :
  for_enumerate body i (x :: l) = (body i x ;; for_enumerate body (S i) l).
Proof. reflexivity. Qed.

Lemma fmap_const_None {A B} (l : list A) :
  (fun _ => @None B) <$> l = replicate (length l) None.
Proof. induction l as [|x l IH]; [done|]. rewrite fmap_cons. simpl. by f_equal. Qed.

Lemma all_known_foldl (b : bool) (vals : list (option vi_val)) :
  foldl (fun do_auto_val v => if bool_decide (v = None) then false else do_auto_val) b vals
  = b && forallb (fun v => negb (bool_decide (v = None))) vals.
Proof.
  revert b. induction vals as [|v vals IH]; intros b; simpl.
  - by rewrite andb_true_r.
  - rewrite IH. destruct (bool_decide (v = None)), b; simpl; try done.
Qed.

Lemma all_known_false (vals : list (option vi_val)) :
  None ∈ vals -> all_known vals = false.
Proof.
  intros Hin. unfold all_known. rewrite all_known_foldl. simpl.
  apply not_true_is_false. intros Hall.
  rewrite forallb_forall in Hall.
  specialize (Hall None). rewrite <- list_elem_of_In in Hall.
  specialize (Hall Hin). by rewrite bool_decide_eq_true_2 in Hall.
Qed.

(** ** Rules for weakest preconditions *)

Section wp_rules.
Context {A B : Type}.
Implicit Types (Q : A -> World -> Prop) (E : exn -> World -> Prop) (w : World).

Lemma wp_ret Q E w (x : A) : Q x w -> wp (mret x) Q E w.
Proof. done. Qed.

Lemma wp_raise Q E w (e : exn) : E e w -> wp (raise e) Q E w.
Proof. done. Qed.

Lemma wp_lift Q E w (r : exn + A) :
  match r with inr x => Q x w | inl e => E e w end -> wp (lift r) Q E w.
Proof. unfold wp, lift. by destruct r. Qed.

Lemma wp_bind (m : M A) (f : A -> M B) (Q : B -> World -> Prop) E w :
  wp m (fun x w' => wp (f x) Q E w') E w -> wp (m ≫= f) Q E w.
Proof. unfold wp. rewrite bind_run. by destruct (m w) as [[e|x] w']. Qed.

Lemma wp_mono (m : M A) Q Q' E E' w :
  wp m Q E w ->
  (forall x w', Q x w' -> Q' x w') -> (forall e w', E e w' -> E' e w') ->
  wp m Q' E' w.
Proof. unfold wp. destruct (m w) as [[e|x] w']; auto. Qed.

Lemma wp_run (m : M A) Q E w r w' :
  wp m Q E w -> m w = (r, w') ->
  match r with inr x => Q x w' | inl e => E e w' end.
Proof. unfold wp. intros Hwp Hm. rewrite Hm in Hwp. by destruct r. Qed.

End wp_rules.

Lemma wp_eq {A} (m : M A) (Q : A -> World -> Prop) E w r w' :
  m w = (r, w') -> match r with inr x => Q x w' | inl e => E e w' end -> wp m Q E w.
Proof. unfold wp. intros ->. by destruct r. Qed.

Lemma wp_get (Q : World -> World -> Prop) E w : Q w w -> wp get Q E w.
Proof. done. Qed.

Lemma wp_modify (f : World -> World) (Q : unit -> World -> Prop) E w :
  Q tt (f w) -> wp (modify f) Q E w.
Proof. done. Qed.

Lemma wp_get_var (id : nat) (Q : Var.t -> World -> Prop) E w :
  match vars w !! id with Some v => Q v w | None => E ReferenceError w end ->
  wp (get_var id) Q E w.
Proof. unfold wp, get_var. by destruct (vars w !! id). Qed.

Lemma wp_input_var (key : string) (Q : pyval -> World -> Prop) E w :
  match _input_vars (self w) !! key with Some v => Q v w | None => E (KeyError key) w end ->
  wp (input_var key) Q E w.
Proof. unfold wp, input_var. by destruct (_input_vars (self w) !! key). Qed.

Lemma wp_attribute (a : string) (Q : pyval -> World -> Prop) E w :
  match _input_vars (self w) !! a with Some v => Q v w | None => E AttributeError w end ->
  wp (attribute a) Q E w.
Proof. unfold wp, attribute. by destruct (_input_vars (self w) !! a). Qed.

(** Loops with an invariant [I]; an exception leaves through [E]. *)
Lemma wp_for_each {A} (I : World -> Prop) (body : A -> M unit) (l : list A)
    (E : exn -> World -> Prop) w :
  I w ->
  (forall x w', x ∈ l -> I w' -> wp (body x) (fun _ => I) E w') ->
  wp (for_each body l) (fun _ => I) E w.
Proof.
  revert w. induction l as [|x l IH]; intros w Hw Hbody; simpl; [done|].
  apply wp_bind. eapply wp_mono; [apply Hbody; [left|done] | |done].
  intros [] w' Hw'. apply IH; [done|].
  intros y w'' Hy. apply Hbody. by right.
Qed.

Lemma wp_for_enumerate {A} (I : World -> Prop) (body : nat -> A -> M unit) (l : list A)
    (E : exn -> World -> Prop) i w :
  I w ->
  (forall j x w', l !! j = Some x -> I w' -> wp (body (i + j)%nat x) (fun _ => I) E w') ->
  wp (for_enumerate body i l) (fun _ => I) E w.
Proof.
  revert i w. induction l as [|x l IH]; intros i w Hw Hbody; simpl; [done|].
  apply wp_bind. eapply wp_mono; [|..].
  - specialize (Hbody 0%nat x w eq_refl Hw). by rewrite Nat.add_0_r in Hbody.
  - intros [] w' Hw'. apply IH; [done|].
    intros j y w'' Hy. specialize (Hbody (S j) y w'' Hy).
    by rewrite Nat.add_succ_r in Hbody.
  - done.
Qed.

(** One step of symbolic execution of the program in the goal. *)
Ltac wp_step :=
  lazymatch goal with
  | |- wp (mbind _ _) _ _ _ => apply wp_bind
  | |- wp (mret _) _ _ _ => apply wp_ret
  | |- wp (raise _) _ _ _ => apply wp_raise
  | |- wp get _ _ _ => apply wp_get
  | |- wp (modify _) _ _ _ => apply wp_modify
  | |- wp (update_var _ _) _ _ _ => apply wp_modify
  | |- wp (lift _) _ _ _ => apply wp_lift
  | |- wp (get_var _) _ _ _ => apply wp_get_var
  | |- wp (input_var _) _ _ _ => apply wp_input_var
  | |- wp (attribute _) _ _ _ => apply wp_attribute
  | |- wp (if ?b then _ else _) _ _ _ => destruct b eqn:?
  | |- wp (match ?x with _ => _ end) _ _ _ => destruct x eqn:?
  | |- wp (let '(_, _) := ?x in _) _ _ _ => destruct x eqn:?
  | |- match ?x with _ => _ end => destruct x eqn:?
  end; cbv beta.

Ltac wp_steps := repeat wp_step.

(** ** Value inference through the gate *)

Section auto_val.
Context {collab : Collaborators} (k : OpKind).

Lemma _auto_val_not_implemented (tys : list mil_type) (w : World) (m : not_implemented) :
  value_inference k w = inl (NotImplementedError m) ->
  _auto_val k tys w = (inr (replicate (length tys) None), w).
Proof.
  intros Hvi. unfold _auto_val. rewrite bind_run. simpl. rewrite Hvi.
  by rewrite fmap_const_None.
Qed.

Lemma _auto_val_partial (tys : list mil_type) (w : World) (vals : vi_ret) :
  value_inference k w = inr vals -> None ∈ as_tuple vals ->
  _auto_val k tys w = (inr (replicate (length tys) None), w).
Proof.
  intros Hvi Hin. unfold _auto_val. rewrite bind_run. simpl. rewrite Hvi.
  rewrite (all_known_false _ Hin). simpl. by rewrite fmap_const_None.
Qed.

Lemma _auto_val_state (tys : list mil_type) (w : World) :
  (_auto_val k tys w).2 = w.
Proof.
  unfold _auto_val. rewrite bind_run. simpl.
  destruct (value_inference k w) as [[]|vals]; try done.
  by destruct (negb _).
Qed.

Lemma append_output_all (P : Var.t -> Prop) (v : Var.t) (w : World) :
  outputs_all P w -> P v -> outputs_all P (append_output v w).2.
Proof.
  intros Hw Hv id. unfold append_output, outputs. simpl.
  intros [Hid | ->%list_elem_of_singleton]%elem_of_app.
  - destruct (Hw id Hid) as (v' & Hv' & HP).
    exists v'. split; [|done].
    rewrite lookup_insert_ne; [done|].
    intros <-. apply (is_fresh (dom (vars w))).
    apply elem_of_dom. by exists v'.
  - exists v. by rewrite lookup_insert_eq.
Qed.

Lemma append_output_unknown (v : Var.t) (w : World) :
  outputs_unknown w -> Var._sym_val v = None ->
  outputs_unknown (append_output v w).2.
Proof. exact (append_output_all _ v w). Qed.

Lemma create_output_unknown (i : nat) (n : string) (ty : mil_type) (w : World) :
  outputs_unknown w ->
  wp (create_output k i (n, ty, None)) (fun _ => outputs_unknown)
     (fun _ => outputs_unknown) w.
Proof.
  intros Hw. unfold create_output. wp_steps; try done.
  all: by apply (append_output_unknown _ _ Hw).
Qed.
Lemma elem_of_zip3_replicate {A B C} (a : list A) (b : list B) (c : C) (n : nat)
    (x : A * B * C) :
  x ∈ zip3 a b (replicate n c) -> x.2 = c.
Proof.
  unfold zip3. destruct x as [ab c']. intros Hx%elem_of_zip_r.
  rewrite elem_of_replicate in Hx. simpl. tauto.
Qed.

(** The inference unfolded: type inference, value inference and output names
    read the state, and one of the two loops runs. *)
Lemma type_value_inference_run (b : bool) (w : World) :
  type_value_inference k b w
  = match type_inference k w with
    | inl e => (inl e, w)
    | inr t =>
        match (_auto_val k (type_tuple t) w).1 with
        | inl e => (inl e, w)
        | inr vals =>
            match names_tuple (output_names k w) (type_tuple t) with
            | inl e => (inl e, w)
            | inr names =>
                match _output_vars (self w) with
                | None =>
                    for_enumerate (create_output k) 0 (zip3 names (type_tuple t) vals)
                                  (with_self (set_output_vars (Some [])) w)
                | Some _ =>
                    for_enumerate (check_output b) 0 (zip (type_tuple t) vals) w
                end
            end
        end
    end.
Proof.
  unfold type_value_inference. rewrite bind_run. simpl. rewrite bind_run.
  unfold lift at 1. destruct (type_inference k w) as [e|t]; [done|].
  rewrite bind_run.
  pose proof (_auto_val_state (type_tuple t) w) as Hs.
  destruct (_auto_val k (type_tuple t) w) as [[e|vals] w']; simpl in Hs; subst w'; [done|].
  simpl. rewrite bind_run. simpl. rewrite bind_run. unfold lift.
  destruct (names_tuple _ _) as [e|names]; [done|].
  rewrite bind_run. simpl.
  destruct (_output_vars (self w)); [done|]. by rewrite bind_run.
Qed.

Lemma wp_type_value_inference (b : bool) (Q : unit -> World -> Prop)
    (E : exn -> World -> Prop) (w : World) :
  (forall e, type_inference k w = inl e -> E e w) ->
  (forall t e, type_inference k w = inr t ->
               (_auto_val k (type_tuple t) w).1 = inl e -> E e w) ->
  (forall t e, type_inference k w = inr t ->
               names_tuple (output_names k w) (type_tuple t) = inl e -> E e w) ->
  (forall t vals names,
      type_inference k w = inr t ->
      (_auto_val k (type_tuple t) w).1 = inr vals ->
      names_tuple (output_names k w) (type_tuple t) = inr names ->
      match _output_vars (self w) with
      | None =>
          wp (for_enumerate (create_output k) 0 (zip3 names (type_tuple t) vals)) Q E
             (with_self (set_output_vars (Some [])) w)
      | Some _ =>
          wp (for_enumerate (check_output b) 0 (zip (type_tuple t) vals)) Q E w
      end) ->
  wp (type_value_inference k b) Q E w.
Proof.
  intros Hti Hvi Hon Hloop. unfold wp at 1. rewrite type_value_inference_run.
  destruct (type_inference k w) as [e|t]; [by apply Hti|].
  destruct (_auto_val k (type_tuple t) w).1 as [e|vals] eqn:Hvals; [by eapply Hvi|].
  destruct (names_tuple _ _) as [e|names] eqn:Hnames; [by eapply Hon|].
  specialize (Hloop t vals names eq_refl Hvals Hnames).
  by destruct (_output_vars (self w)).
Qed.

Lemma first_inference_unknown (overwrite_output : bool) (w : World) :
  _output_vars (self w) = None ->
  (forall tys, _auto_val k tys w = (inr (replicate (length tys) None), w)) ->
  wp (type_value_inference k overwrite_output) (fun _ => outputs_unknown)
     (fun _ => outputs_unknown) w.
Proof.
  intros Hnone Hauto.
  assert (Hw : outputs_unknown w).
  { intros id. unfold outputs. rewrite Hnone. simpl. by intros ?%elem_of_nil. }
  apply wp_type_value_inference; try done.
  intros t vals names _ Hvals _. rewrite Hauto in Hvals. injection Hvals as <-.
  rewrite Hnone. apply wp_for_enumerate.
  - intros id. unfold outputs. simpl. by intros ?%elem_of_nil.
  - intros j [[n ty] sv] w' Hx%list_elem_of_lookup_2 Hw'.
    apply elem_of_zip3_replicate in Hx.
    simpl in Hx. subst sv. by apply create_output_unknown.
Qed.
End auto_val.

Section auto_val_claims.
Context {collab : Collaborators} (k : OpKind).

(** C6. When the value inference returns candidates of which one is None,
    [_auto_val] returns None for every output type and raises nothing; a
    first inference then attaches no value to any output node. *)
Theorem auto_val_rejects_partial_results (w : World) (vals : vi_ret) :
  value_inference k w = inr vals ->
  None ∈ as_tuple vals ->
  (forall tys, _auto_val k tys w = (inr (replicate (length tys) None), w)) /\
  (forall overwrite_output r w',
      _output_vars (self w) = None ->
      type_value_inference k overwrite_output w = (r, w') ->
      outputs_unknown w').
Proof.
  intros Hvi Hin.
  assert (Hauto : forall tys, _auto_val k tys w = (inr (replicate (length tys) None), w)).
  { intros tys. by eapply _auto_val_partial. }
  split; [done|].
  intros ov r w' Hnone Hrun.
  pose proof (first_inference_unknown k ov w Hnone Hauto) as Hwp.
  apply (wp_run _ _ _ _ _ _ Hwp) in Hrun. by destruct r.
Qed.

(** The test the wrapper of [precondition] makes on the accumulated flags. *)
Lemma precondition_rejects (allow : Z) (func : World -> exn + vi_ret) (w : World)
    (has_value has_symbol has_none : bool) :
  (classify_inputs w).1 = inr (has_value, has_symbol, has_none) ->
  has_value && negb (truthy (Z.land allow VALUE))
  || has_symbol && negb (truthy (Z.land allow SYMBOL))
  || has_none && negb (truthy (Z.land allow NONE)) = true ->
  exists f, precondition allow func w = inl (NotImplementedError (no_support f)).
Proof.
  intros Hc Hbits. unfold precondition. rewrite Hc.
  destruct (has_value && _) eqn:Hv; [by eexists|].
  destruct (has_symbol && _) eqn:Hs; [by eexists|].
  destruct (has_none && _) eqn:Hn; [by eexists|].
  done.
Qed.

(** C1. When the flags accumulated over the non-optional inputs contain one
    that the decorated value inference does not allow, the gate raises
    NotImplementedError, [_auto_val] catches it and returns None for every
    output type without raising, and a first inference attaches no value to
    any output node. *)
Theorem gate_rejection_yields_unknown_values (allow : Z)
    (func : World -> exn + vi_ret) (w : World) (has_value has_symbol has_none : bool) :
  value_inference k = precondition allow func ->
  (classify_inputs w).1 = inr (has_value, has_symbol, has_none) ->
  has_value && negb (truthy (Z.land allow VALUE))
  || has_symbol && negb (truthy (Z.land allow SYMBOL))
  || has_none && negb (truthy (Z.land allow NONE)) = true ->
  (exists f, value_inference k w = inl (NotImplementedError (no_support f))) /\
  (forall tys, _auto_val k tys w = (inr (replicate (length tys) None), w)) /\
  (forall overwrite_output r w',
      _output_vars (self w) = None ->
      type_value_inference k overwrite_output w = (r, w') ->
      outputs_unknown w').
Proof.
  intros Hk Hc Hbits.
  destruct (precondition_rejects allow func w _ _ _ Hc Hbits) as [f Hf].
  rewrite <- Hk in Hf.
  assert (Hauto : forall tys, _auto_val k tys w = (inr (replicate (length tys) None), w)).
  { intros tys. by eapply _auto_val_not_implemented. }
  split; [by exists f|]. split; [done|].
  intros ov r w' Hnone Hrun.
  pose proof (first_inference_unknown k ov w Hnone Hauto) as Hwp.
  apply (wp_run _ _ _ _ _ _ Hwp) in Hrun. by destruct r.
Qed.
End auto_val_claims.

(** The two-output kind, whose second candidate is None. *)
Lemma auto_val_rejects_partial_results_witness :
  _auto_val Demo.split_kind
            [TTensor int32 [Dim 1]; TTensor int32 [Dim 1]]
            (Demo.constructed Demo.split_kind [("x"%string, PyVar 0)])
  = (inr [None; None], Demo.constructed Demo.split_kind [("x"%string, PyVar 0)]).
Proof.
  apply (auto_val_rejects_partial_results (collab := Demo.collaborators) Demo.split_kind
           (Demo.constructed Demo.split_kind [("x"%string, PyVar 0)])
           (VI_tuple [Some (Raw (mk_ndarray [1%nat] [Num 1])); None])).
  - reflexivity.
  - simpl. apply list_elem_of_In. simpl. tauto.
Defined.

(** Scenario B: [x] has an unresolved dimension and no value, [y] is
    materialized, and the addition allows materialized inputs only. *)
Lemma gate_rejection_yields_unknown_values_witness :
  _auto_val (Demo.add_kind VALUE) [TTensor int32 [SymDim "s0"; Dim 2]]
            (Demo.constructed (Demo.add_kind VALUE) [("x"%string, PyVar 3); ("y"%string, PyVar 1)])
  = (inr [None],
     Demo.constructed (Demo.add_kind VALUE) [("x"%string, PyVar 3); ("y"%string, PyVar 1)]).
Proof.
  apply (gate_rejection_yields_unknown_values (collab := Demo.collaborators)
           (Demo.add_kind VALUE) VALUE Demo.add_values
           (Demo.constructed (Demo.add_kind VALUE)
              [("x"%string, PyVar 3); ("y"%string, PyVar 1)])
           true false true).
  - reflexivity.
  - vm_compute. reflexivity.
  - reflexivity.
Defined.

(** ** The classification gate *)

Lemma process_value_classification (v : Var.t) (has : flags) :
  process v has = mark (value_classification v) has.
Proof.
  destruct has as [[has_value has_symbol] has_none].
  unfold process, value_classification, Var.val.
  destruct (any_symbolic (Var.sym_val v)); [done|].
  by destruct (Var.sym_val v).
Qed.

Lemma fold_process_nodes (w : World) (ids : list nat) (vs : list Var.t) (has : flags) :
  nodes_of w ids = Some vs ->
  fold_each process_obj (PyVar <$> ids) has w
  = (inr (foldl (fun acc v => process v acc) has vs), w).
Proof.
  revert vs has.
  induction ids as [|id ids IH]; intros vs has Hvs.
  - by simplify_eq/=.
  - rewrite fmap_cons. simpl in Hvs.
    destruct (vars w !! id) as [v|] eqn:Hv; [|done].
    destruct (nodes_of w ids) as [vs'|] eqn:Hvs'; [|done].
    injection Hvs as <-. simpl.
    rewrite bind_run. unfold process_obj at 1. simpl.
    rewrite !bind_run. unfold get_var. rewrite Hv. simpl.
    by apply IH.
Qed.

Lemma classify_optional_skipped (ts : list (string * InputType)) (has : flags) (w : World) :
  fold_each classify_slot ts has w = fold_each classify_slot (required_entries ts) has w.
Proof.
  unfold required_entries. revert has w.
  induction ts as [|[n t] ts IH]; intros has w; [done|].
  rewrite filter_cons. cbn [snd]. destruct (decide (optional t = false)) as [Ht|Ht].
  - rewrite !fold_each_cons, !bind_run.
    destruct (classify_slot (n, t) has w) as [[e|has'] w']; [done|].
    apply IH.
  - rewrite fold_each_cons, bind_run.
    assert (classify_slot (n, t) has w = (inr has, w)) as ->.
    { unfold classify_slot. by destruct (optional t). }
    apply IH.
Qed.

(** C5, as the code has it.  [process] classifies an input by its value
    alone: Symbolic when the value contains an unresolved symbol, Materialized
    when it is present and concrete, Absent when there is none; the declared
    type is not consulted.  The flags are accumulated over the non-optional
    slots only, a slot of tuple type contributing each of its nodes. *)
Theorem gate_classifies_by_value :
  (forall v has, process v has = mark (value_classification v) has) /\
  (forall v ty, value_classification (Var.set_sym_type ty v) = value_classification v) /\
  (forall v,
      (value_classification v = Symbolic <-> any_symbolic (Var.sym_val v) = true) /\
      (value_classification v = Materialized <-> exists p, Var.val v = Some p) /\
      (value_classification v = Absent <-> Var.sym_val v = None)) /\
  (forall w, classify_inputs w
             = fold_each classify_slot (required_entries (_input_types (self w)))
                         (false, false, false) w) /\
  (forall w n t id v has,
      optional t = false -> is_tuple_input t = false ->
      _input_vars (self w) !! n = Some (PyVar id) -> vars w !! id = Some v ->
      classify_slot (n, t) has w = (inr (process v has), w)) /\
  (forall w n t ids vs has,
      optional t = false -> is_tuple_input t = true ->
      _input_vars (self w) !! n = Some (PyTuple ids) -> nodes_of w ids = Some vs ->
      classify_slot (n, t) has w = (inr (foldl (fun acc v => process v acc) has vs), w)).
Proof.
  split; [apply process_value_classification|].
  split; [done|].
  split.
  { intros v. unfold value_classification, Var.val.
    destruct (any_symbolic (Var.sym_val v)) eqn:Hs.
    - repeat split; try done.
      + by intros [p Hp].
      + intros Hnone. rewrite Hnone in Hs. done.
    - destruct (Var.sym_val v) as [p|]; repeat split; try done.
      + by exists p.
      + by intros [p Hp]. }
  split.
  { intros w. unfold classify_inputs. rewrite bind_run. simpl.
    apply classify_optional_skipped. }
  split.
  - intros w n t id v has Hopt Htup Hin Hv.
    unfold classify_slot. rewrite Hopt, Htup.
    rewrite bind_run. unfold input_var. rewrite Hin.
    unfold process_obj. simpl. rewrite !bind_run. unfold get_var. by rewrite Hv.
  - intros w n t ids vs has Hopt Htup Hin Hvs.
    unfold classify_slot. rewrite Hopt, Htup.
    rewrite bind_run. unfold input_var. rewrite Hin.
    rewrite bind_run. simpl. by apply fold_process_nodes.
Qed.

Lemma gate_classifies_by_value_witness :
  process (Demo.symbolic_value_node "e") (false, false, false) = (false, true, false) /\
  classify_slot ("x"%string, Demo.tensor_in) (false, false, false)
    (Demo.constructed (Demo.add_kind VALUE) [("x"%string, PyVar 0); ("y"%string, PyVar 1)])
  = (inr (true, false, false),
     Demo.constructed (Demo.add_kind VALUE) [("x"%string, PyVar 0); ("y"%string, PyVar 1)]).
Proof.
  destruct gate_classifies_by_value as (Hprocess & _ & _ & _ & Hslot & _).
  split.
  - rewrite Hprocess. reflexivity.
  - apply (Hslot _ "x"%string Demo.tensor_in 0%nat
             (Var.add_child_op 7 (Demo.const_node "a" [1; 2]))).
    + reflexivity.
    + reflexivity.
    + vm_compute. reflexivity.
    + vm_compute. reflexivity.
Defined.

(** The specification's wording fails on a node whose declared shape has an
    unresolved dimension and that has no value: the code marks it Absent. *)
Lemma gate_ignores_symbolic_type :
  ~ (forall v has, process v has = mark (spec_classification v) has).
Proof.
  intros Hspec.
  specialize (Hspec (Demo.symbolic_shape_node "d") (false, false, false)).
  vm_compute in Hspec. discriminate.
Qed.

(** ** Completeness of the required inputs *)

Lemma ensure_slot_state (entry : string * InputType) (w : World) :
  (ensure_slot entry w).2 = w.
Proof.
  destruct entry as [n t]. unfold ensure_slot.
  destruct (optional t); [done|].
  rewrite bind_run. unfold input_var.
  destruct (_input_vars (self w) !! n) as [v|]; [|done].
  by destruct (bool_decide (v = PyNone)).
Qed.

Lemma for_each_ensure_slot (l : list (string * InputType)) (w : World) :
  (forall n t, (n, t) ∈ l -> is_Some (_input_vars (self w) !! n)) ->
  (for_each ensure_slot l w = (inr tt, w) /\
   forall n t, (n, t) ∈ l -> optional t = false -> ~ slot_unbound w n)
  \/ (exists n t, (n, t) ∈ l /\ optional t = false /\ slot_unbound w n /\
      for_each ensure_slot l w = (inl (ValueError (required_input_missing n)), w)).
Proof.
  induction l as [|[n t] l IH]; intros Hkeys.
  - left. split; [done|]. by intros n t ?%elem_of_nil.
  - rewrite for_each_cons, bind_run.
    destruct (Hkeys n t) as [v Hv]; [left|].
    assert (Hstep : ensure_slot (n, t) w =
                    if optional t then (inr tt, w)
                    else if bool_decide (v = PyNone)
                         then (inl (ValueError (required_input_missing n)), w)
                         else (inr tt, w)).
    { unfold ensure_slot. destruct (optional t); [done|].
      rewrite bind_run. unfold input_var. rewrite Hv.
      by destruct (bool_decide (v = PyNone)). }
    rewrite Hstep. clear Hstep.
    destruct (optional t) eqn:Hopt; [|case_bool_decide as Hnone].
    + destruct IH as [[Hok Hall]|(n' & t' & Hin & Ho & Hu & Herr)].
      { intros n' t' Hin. apply (Hkeys n' t'). by right. }
      * left. split; [done|]. intros n' t' [Heq|Hin]%elem_of_cons; [|by eauto].
        simplify_eq. congruence.
      * right. exists n', t'. repeat split; try done. by right.
    + right. exists n, t. subst v. repeat split; try done. left.
    + destruct IH as [[Hok Hall]|(n' & t' & Hin & Ho & Hu & Herr)].
      { intros n' t' Hin. apply (Hkeys n' t'). by right. }
      * left. split; [done|]. intros n' t' [Heq|Hin]%elem_of_cons; [|by eauto].
        simplify_eq. unfold slot_unbound. rewrite Hv. congruence.
      * right. exists n', t'. repeat split; try done. by right.
Qed.

Lemma _ensure_required_inputs_state (w : World) :
  (_ensure_required_inputs w).2 = w.
Proof.
  unfold _ensure_required_inputs. rewrite bind_run. simpl.
  apply (for_each_preserves (fun w' => w' = w)); [|done].
  intros x w' _ ->. apply ensure_slot_state.
Qed.

(** With an unbound required slot the check raises, naming such a slot. *)
Lemma _ensure_required_inputs_missing (w : World) :
  slots_initialized w ->
  (exists n, missing_required w n) ->
  exists n, missing_required w n /\
    _ensure_required_inputs w = (inl (ValueError (required_input_missing n)), w).
Proof.
  intros Hinit (n & t & Hin & Hopt & Hu).
  unfold _ensure_required_inputs. rewrite bind_run. simpl.
  destruct (for_each_ensure_slot (_input_types (self w)) w Hinit)
    as [[_ Hall]|(n' & t' & Hin' & Ho' & Hu' & Herr)].
  - by destruct (Hall n t Hin Hopt).
  - exists n'. split; [by exists t'|done].
Qed.

(** The check passes only when no required slot is unbound. *)
Lemma _ensure_required_inputs_ok (w w' : World) :
  _ensure_required_inputs w = (inr tt, w') ->
  w' = w /\ forall n, ~ missing_required w n.
Proof.
  intros Hrun. split.
  { pose proof (_ensure_required_inputs_state w) as Hs. by rewrite Hrun in Hs. }
  intros n (t & Hin & Hopt & Hu).
  unfold _ensure_required_inputs in Hrun. rewrite bind_run in Hrun. simpl in Hrun.
  revert Hrun Hin. generalize (_input_types (self w)). intros l.
  induction l as [|[n' t'] l IH]; intros Hrun Hin; [by apply elem_of_nil in Hin|].
  rewrite for_each_cons, bind_run in Hrun.
  destruct (ensure_slot (n', t') w) as [[e|[]] w1] eqn:Hstep; [done|].
  pose proof (ensure_slot_state (n', t') w) as Hs. rewrite Hstep in Hs. simpl in Hs. subst w1.
  apply elem_of_cons in Hin as [Heq|Hin]; [|by apply IH].
  simplify_eq. unfold ensure_slot in Hstep. rewrite Hopt in Hstep.
  rewrite bind_run in Hstep. unfold input_var in Hstep. rewrite Hu in Hstep.
  done.
Qed.

(** ** Invariants of binding and of inference

    A property of the state that the elementary mutations keep is kept by the
    methods built from them, whether they return or raise. *)

Section binding_invariant.
Context {collab : Collaborators} (k : OpKind).
Context (I : World -> Prop) (kvs : list (string * pyval)).
Hypothesis I_attach : forall w id o, I w -> I (edit_var id (Var.add_child_op o) w).
Hypothesis I_detach : forall w id o b, I w -> I (edit_var id (Var.remove_child_op o b) w).
Hypothesis I_slot : forall w n v, (n, v) ∈ kvs -> I w -> I (with_self (set_input_var n v) w).

Lemma check_and_detach_inv (v_new v_old : pyval) (b : bool) (w : World) :
  I w -> wp (check_and_detach v_new v_old b) (fun _ => I) (fun _ => I) w.
Proof using I_detach.
  intros Hw. unfold check_and_detach, var_of. wp_steps; try done.
  by apply I_detach.
Qed.

Lemma add_child_op_inv (id : nat) (w : World) :
  I w -> wp (add_child_op id) (fun _ => I) (fun _ => I) w.
Proof using I_attach.
  intros Hw. unfold add_child_op. wp_steps; try done. by apply I_attach.
Qed.

Lemma set_input_inv (b : bool) (item : string * pyval) (w : World) :
  item ∈ kvs -> I w -> wp (set_input b item) (fun _ => I) (fun _ => I) w.
Proof using I_attach I_detach I_slot.
  intros Hitem Hw. destruct item as [n var]. unfold set_input.
  apply wp_bind, wp_input_var.
  destruct (_input_vars (self w) !! n) as [existing|]; [|done].
  apply wp_bind.
  apply wp_mono with (Q := fun _ => I) (E := fun _ => I); [| |done].
  - destruct (negb (bool_decide (existing = PyNone))); [|done].
    destruct existing; try by apply check_and_detach_inv.
    unfold iterate. apply wp_bind.
    destruct var; wp_steps; try done.
    all: apply wp_for_each; [done|]; intros; by apply check_and_detach_inv.
  - intros [] w' Hw'. apply wp_bind.
    apply wp_mono with (Q := fun _ => I) (E := fun _ => I); [| |done].
    + destruct var; try done.
      * by apply add_child_op_inv.
      * apply wp_for_each; [done|]. intros; by apply add_child_op_inv.
    + intros [] w'' Hw''. wp_step. by apply I_slot.
Qed.

Lemma _validate_and_set_inputs_inv (b : bool) (w : World) :
  I w -> wp (_validate_and_set_inputs k kvs b) (fun _ => I) (fun _ => I) w.
Proof using I_attach I_detach I_slot.
  intros Hw. unfold _validate_and_set_inputs.
  apply wp_bind.
  apply wp_mono with (Q := fun _ => I) (E := fun _ => I); [| |done].
  { apply wp_for_each; [done|]. intros key w' _ Hw'.
    unfold check_known_key. wp_steps; done. }
  intros [] w' Hw'. wp_steps; try done.
  apply wp_for_each; [done|]. intros; by apply set_input_inv.
Qed.
End binding_invariant.

Section inference_invariant.
Context {collab : Collaborators} (k : OpKind).
Context (I : World -> Prop).
Hypothesis I_outputs : forall w outs, I w -> I (with_self (set_output_vars outs) w).
Hypothesis I_vars : forall w f, I w -> I (with_vars f w).

Lemma append_output_inv (v : Var.t) (w : World) :
  I w -> wp (append_output v) (fun _ => I) (fun _ => I) w.
Proof using I_outputs I_vars.
  intros Hw. unfold wp, append_output.
  exact (I_outputs _ (Some (default [] (_output_vars (self w)) ++ [fresh (dom (vars w))]))
           (I_vars w (fun h => <[fresh (dom (vars w)) := v]> h) Hw)).
Qed.

Lemma create_output_inv (i : nat) (item : string * mil_type * option builtin_val)
    (w : World) :
  I w -> wp (create_output k i item) (fun _ => I) (fun _ => I) w.
Proof using I_outputs I_vars.
  intros Hw. destruct item as [[n ty] sv]. unfold create_output.
  wp_steps; try done.
  all: by apply append_output_inv.
Qed.

Lemma _set_nonreplaceable_vars_upstream_inv (o : nat) (w : World) :
  I w -> wp (_set_nonreplaceable_vars_upstream o) (fun _ => I) (fun _ => I) w.
Proof using I_vars.
  intros Hw. unfold _set_nonreplaceable_vars_upstream. wp_steps; try done.
  by apply I_vars.
Qed.

Lemma check_output_inv (b : bool) (i : nat) (item : mil_type * option builtin_val)
    (w : World) :
  I w -> wp (check_output b i item) (fun _ => I) (fun _ => I) w.
Proof using I_vars.
  intros Hw. destruct item as [ty sv]. unfold check_output.
  assert (Hloop : forall w', I w' ->
    wp (w0 ← get;
        for_each _set_nonreplaceable_vars_upstream (default [] (_output_vars (self w0))))
       (fun _ => I) (fun _ => I) w').
  { intros w' Hw'. wp_steps. apply wp_for_each; [done|].
    intros; by apply _set_nonreplaceable_vars_upstream_inv. }
  wp_steps; try done.
  all: try by apply Hloop.
  all: try by (apply Hloop; repeat apply I_vars).
  all: repeat apply I_vars; try done.
Qed.

Lemma type_value_inference_inv (b : bool) (w : World) :
  I w -> wp (type_value_inference k b) (fun _ => I) (fun _ => I) w.
Proof using I_outputs I_vars.
  intros Hw. apply wp_type_value_inference; try done.
  intros t vals names _ _ _. destruct (_output_vars (self w)).
  - apply wp_for_enumerate; [done|]. intros; by apply check_output_inv.
  - apply wp_for_enumerate; [by apply I_outputs|]. intros; by apply create_output_inv.
Qed.
End inference_invariant.

(** ** Construction *)

Lemma init_slots_run (keys : list string) (w : World) :
  exists w',
    for_each (fun key => modify (with_self (set_input_var key PyNone))) keys w = (inr tt, w') /\
    vars w' = vars w /\
    _input_types (self w') = _input_types (self w) /\
    (forall n, n ∈ keys -> _input_vars (self w') !! n = Some PyNone) /\
    (forall n, n ∉ keys -> _input_vars (self w') !! n = _input_vars (self w) !! n).
Proof.
  revert w. induction keys as [|key keys IH]; intros w.
  - exists w. repeat split; try done. by intros n ?%elem_of_nil.
  - rewrite for_each_cons, bind_run. simpl.
    destruct (IH (with_self (set_input_var key PyNone) w))
      as (w' & Hrun & Hvars & Htypes & Hin & Hout).
    exists w'. split; [done|]. split; [done|]. split; [done|]. split.
    + intros n Hn. destruct (decide (n ∈ keys)) as [Hk|Hk]; [by apply Hin|].
      rewrite (Hout n Hk). apply elem_of_cons in Hn as [->|?]; [|done].
      simpl. apply lookup_insert_eq.
    + intros n Hn. apply not_elem_of_cons in Hn as [Hne Hn].
      rewrite (Hout n Hn). simpl. by apply lookup_insert_ne.
Qed.

Lemma signature_names (ts : list (string * InputType)) : (signature ts).*1 = ts.*1.
Proof. unfold signature. rewrite <- list_fmap_compose. by apply list_fmap_ext. Qed.

Lemma signature_required (ts ts' : list (string * InputType)) (n : string) (t : InputType) :
  signature ts = signature ts' -> (n, t) ∈ ts -> optional t = false ->
  exists t', (n, t') ∈ ts' /\ optional t' = false.
Proof.
  intros Hsig Hin Hopt.
  assert (Hs : (n, false) ∈ signature ts).
  { apply list_elem_of_fmap. exists (n, t). simpl. by rewrite Hopt. }
  rewrite Hsig in Hs. apply list_elem_of_fmap in Hs as ([n' t'] & Heq & Hin').
  simpl in Heq. injection Heq as -> Ho. by exists t'.
Qed.

Section construction.
Context {collab : Collaborators} (k : OpKind).

Lemma contract_ready_slots_initialized (w : World) :
  contract_ready k w -> slots_initialized w.
Proof.
  intros [Hsig Hkeys] n t Hin. apply Hkeys.
  rewrite <- (signature_names (input_types k)), <- Hsig, signature_names.
  apply list_elem_of_fmap. by exists (n, t).
Qed.

Lemma populate_type_domain_ready (i : nat) (entry : string * InputType) (w : World)
    (P : World -> Prop) :
  input_types k !! i = Some entry ->
  (forall w' ts, P w' -> P (with_self (set_input_types ts) w')) ->
  contract_ready k w /\ P w ->
  wp (populate_type_domain i entry) (fun _ w' => contract_ready k w' /\ P w')
     (fun _ _ => True) w.
Proof.
  intros Hi HP [[Hnames Hkeys] Hw]. destruct entry as [n v]. unfold populate_type_domain.
  wp_steps; try done.
  split; [|by apply HP]. split; [|done]. simpl.
  unfold signature in *. rewrite list_fmap_insert. simpl. rewrite Hnames.
  apply list_insert_id. rewrite list_lookup_fmap, Hi. done.
Qed.

(** After the binding phase of [__init__] every contract slot has its key, and
    a slot for which the caller supplied nothing but None is unbound. *)
Lemma __init___bind_post (kwargs : list (string * pyval)) (w : World) :
  wp (__init___bind k kwargs)
     (fun _ w' => contract_ready k w' /\
                  forall key, key ∈ (input_types k).*1 ->
                              (forall v, (key, v) ∈ kwargs -> v = PyNone) ->
                              slot_unbound w' key)
     (fun _ _ => True) w.
Proof.
  set (P := fun w' : World =>
              forall key, key ∈ (input_types k).*1 ->
                          (forall v, (key, v) ∈ kwargs -> v = PyNone) ->
                          slot_unbound w' key).
  unfold __init___bind. cbv zeta.
  do 2 wp_step. wp_step. unfold kwarg.
  destruct (dict_get "enclosing_block" kwargs) as [block|]; [|done].
  do 4 wp_step.
  destruct (dict_get "scopes" kwargs) as [sc|]; [|done].
  do 4 wp_step.
  match goal with |- wp _ _ _ ?w1 =>
    destruct (init_slots_run (input_types k).*1 w1) as (w2 & Hrun & _ & Htypes & Hin & _)
  end.
  eapply wp_eq; [exact Hrun|]. cbv beta iota.
  assert (Hready : contract_ready k w2 /\ P w2).
  { split; [split|].
    - by rewrite Htypes.
    - intros n Hn. rewrite (Hin n Hn). by eexists.
    - intros key Hkey _. by apply Hin. }
  clear Hrun Htypes Hin. revert Hready. generalize w2. clear w2. intros w2 Hready.
  wp_step. unfold _check_expected_inputs.
  apply wp_mono with (Q := fun _ w' => contract_ready k w' /\ P w') (E := fun _ _ => True);
    [| |done].
  { apply wp_for_each; [done|]. intros key w' _ Hw'.
    unfold check_expected_key. wp_steps; done. }
  intros [] w3 Hw3. wp_step.
  apply wp_mono with (Q := fun _ w' => contract_ready k w' /\ P w') (E := fun _ _ => True);
    [| |done].
  { apply wp_for_enumerate; [done|]. intros j entry w' Hj Hw'.
    apply populate_type_domain_ready; done. }
  intros [] w4 Hw4. wp_step. wp_step.
  eapply wp_mono; [apply _validate_and_set_inputs_inv
                     with (I := fun w' => contract_ready k w' /\ P w')| |done].
  - intros w' id o Hw'. exact Hw'.
  - intros w' id o b Hw'. exact Hw'.
  - intros w' n v [[Hv1 Hv2] Hin]%list_elem_of_filter [[Hnames Hkeys] HP].
    simpl in Hv1, Hv2. split; [split|].
    + done.
    + intros n' Hn'. simpl. destruct (decide (n = n')) as [->|Hne].
      * rewrite lookup_insert_eq. by eexists.
      * rewrite lookup_insert_ne; [|done]. by apply Hkeys.
    + intros key Hkey Hnone. unfold slot_unbound. simpl.
      destruct (decide (n = key)) as [->|Hne].
      * by destruct Hv2, (Hnone v).
      * rewrite lookup_insert_ne; [|done]. by apply HP.
  - done.
  - by intros.
Qed.
End construction.

Section completeness_claims.
Context {collab : Collaborators} (k : OpKind).

Lemma slots_initialized_binding (kvs : list (string * pyval)) (b : bool) (w : World) :
  slots_initialized w ->
  wp (_validate_and_set_inputs k kvs b) (fun _ => slots_initialized)
     (fun _ => slots_initialized) w.
Proof.
  apply _validate_and_set_inputs_inv; try done.
  intros w' n v _ Hw' n' t Hin. simpl in *.
  destruct (decide (n = n')) as [->|Hne].
  - rewrite lookup_insert_eq. by eexists.
  - rewrite lookup_insert_ne; [|done]. by apply (Hw' n' t).
Qed.

Lemma slots_initialized_inference (b : bool) (w : World) :
  slots_initialized w ->
  wp (type_value_inference k b) (fun _ => slots_initialized)
     (fun _ => slots_initialized) w.
Proof. by apply type_value_inference_inv. Qed.

(** C8, with the steps that run before the check told apart.  A construction,
    or a rebinding with its optional re-inference, that gets through the steps
    before [_ensure_required_inputs] and leaves a required slot unbound fails
    there with the ValueError that names an unbound required slot; neither can
    return normally while a required slot is unbound; and when the binding or
    the re-inference of a rebinding raises, that exception is what the
    rebinding raises, the check of the required inputs not being reached. *)
Theorem missing_required_input_is_reported :
  (forall kwargs w w1,
      __init___bind k kwargs w = (inr tt, w1) ->
      (exists n, missing_required w1 n) ->
      exists n, missing_required w1 n /\
        __init__ k kwargs w = (inl (ValueError (required_input_missing n)), w1)) /\
  (forall no_check_var_types type_inference kvs w w1,
      slots_initialized w ->
      (_validate_and_set_inputs k kvs no_check_var_types;;
       if type_inference && negb no_check_var_types
       then type_value_inference k false else mret tt) w = (inr tt, w1) ->
      (exists n, missing_required w1 n) ->
      exists n, missing_required w1 n /\
        set_inputs k no_check_var_types type_inference kvs w
        = (inl (ValueError (required_input_missing n)), w1)) /\
  (forall kwargs w w',
      __init__ k kwargs w = (inr tt, w') -> forall n, ~ missing_required w' n) /\
  (forall no_check_var_types type_inference kvs w w',
      set_inputs k no_check_var_types type_inference kvs w = (inr tt, w') ->
      forall n, ~ missing_required w' n) /\
  (forall no_check_var_types type_inference kvs w e w1,
      (_validate_and_set_inputs k kvs no_check_var_types;;
       if type_inference && negb no_check_var_types
       then type_value_inference k false else mret tt) w = (inl e, w1) ->
      set_inputs k no_check_var_types type_inference kvs w = (inl e, w1)).
Proof.
  split; [|split; [|split; [|split]]].
  - intros kwargs w w1 Hbind Hmiss.
    pose proof (__init___bind_post k kwargs w) as Hpost.
    apply (wp_run _ _ _ _ _ _ Hpost) in Hbind as Hready. destruct Hready as [Hready _].
    apply contract_ready_slots_initialized in Hready.
    destruct (_ensure_required_inputs_missing w1 Hready Hmiss) as (n & Hn & Hrun).
    exists n. split; [done|]. unfold __init__. by rewrite (bind_ok _ _ _ _ _ Hbind).
  - intros nc ti kvs w w1 Hinit Hbind Hmiss.
    assert (Hready : slots_initialized w1).
    { assert (Hwp : wp (_validate_and_set_inputs k kvs nc;;
                        if ti && negb nc then type_value_inference k false else mret tt)
                       (fun _ => slots_initialized) (fun _ => slots_initialized) w).
      { apply wp_bind. eapply wp_mono; [by apply slots_initialized_binding| |done].
        intros [] w' Hw'. destruct (ti && negb nc); [|done].
        by apply slots_initialized_inference. }
      by apply (wp_run _ _ _ _ _ _ Hwp) in Hbind. }
    destruct (_ensure_required_inputs_missing w1 Hready Hmiss) as (n & Hn & Hrun).
    exists n. split; [done|]. unfold set_inputs.
    rewrite bind_run in Hbind. rewrite bind_run.
    destruct (_validate_and_set_inputs k kvs nc w) as [[e|[]] w2]; [done|].
    by rewrite (bind_ok _ _ _ _ _ Hbind).
  - intros kwargs w w' Hrun n. unfold __init__ in Hrun. rewrite bind_run in Hrun.
    destruct (__init___bind k kwargs w) as [[e|[]] w1]; [done|].
    by apply _ensure_required_inputs_ok in Hrun as [-> Hok].
  - intros nc ti kvs w w' Hrun n. unfold set_inputs in Hrun. rewrite bind_run in Hrun.
    destruct (_validate_and_set_inputs k kvs nc w) as [[e|[]] w1]; [done|].
    rewrite bind_run in Hrun.
    destruct ((if ti && negb nc then type_value_inference k false else mret tt) w1)
      as [[e|[]] w2]; [done|].
    by apply _ensure_required_inputs_ok in Hrun as [-> Hok].
  - intros nc ti kvs w e w1 Hrun. unfold set_inputs.
    rewrite bind_run in Hrun. rewrite bind_run.
    destruct (_validate_and_set_inputs k kvs nc w) as [[e'|[]] w2]; [done|].
    rewrite bind_run.
    by destruct ((if ti && negb nc then type_value_inference k false else mret tt) w2)
      as [[e'|[]] w3].
Qed.
End completeness_claims.

(** Constructing the addition with [y] left out. *)
Lemma missing_required_input_is_reported_witness :
  exists n,
    missing_required
      (__init___bind (collab := Demo.collaborators) (Demo.add_kind VALUE)
         (Demo.system_kwargs ++ [("x"%string, PyVar 0)]) Demo.w0).2 n /\
    __init__ (collab := Demo.collaborators) (Demo.add_kind VALUE)
      (Demo.system_kwargs ++ [("x"%string, PyVar 0)]) Demo.w0
    = (inl (ValueError (required_input_missing n)),
       (__init___bind (collab := Demo.collaborators) (Demo.add_kind VALUE)
          (Demo.system_kwargs ++ [("x"%string, PyVar 0)]) Demo.w0).2).
Proof.
  apply (proj1 (missing_required_input_is_reported (collab := Demo.collaborators)
                  (Demo.add_kind VALUE))).
  - vm_compute. reflexivity.
  - exists "y"%string, Demo.tensor_in. split; [|split].
    + apply list_elem_of_In. vm_compute. tauto.
    + reflexivity.
    + vm_compute. reflexivity.
Defined.

(** A rebinding that leaves a required slot unbound and does not report it.
    The addition constructed without [y] (the construction has raised, and the
    operation is already among the consumers of the node bound to [x]) is
    rebound at [x] with re-inference requested: the binding returns, the
    classification gate of the value inference reads the unbound [y] and
    raises AttributeError, and the rebinding ends with that exception, [y]
    still unbound, instead of the ValueError for the missing input. *)
Lemma rebinding_with_inference_hides_missing_input :
  consumes (Demo.constructed (Demo.add_kind VALUE) [("x"%string, PyVar 0)]) 0 /\
  missing_required
    (Demo.constructed (Demo.add_kind VALUE) [("x"%string, PyVar 0)]) "y" /\
  (set_inputs (collab := Demo.collaborators) (Demo.add_kind VALUE) false true
     [("x"%string, PyVar 2)]
     (Demo.constructed (Demo.add_kind VALUE) [("x"%string, PyVar 0)])).1
  = inl AttributeError /\
  missing_required
    (set_inputs (collab := Demo.collaborators) (Demo.add_kind VALUE) false true
       [("x"%string, PyVar 2)]
       (Demo.constructed (Demo.add_kind VALUE) [("x"%string, PyVar 0)])).2 "y".
Proof.
  split; [|split; [|split]].
  - exists (Var.add_child_op 7 (Demo.const_node "a" [1; 2])). split.
    + vm_compute. reflexivity.
    + replace (self_id (self _)) with 7%nat by (vm_compute; reflexivity).
      by apply elem_of_union_l, elem_of_singleton.
  - exists Demo.tensor_in. split; [|split].
    + apply list_elem_of_In. vm_compute. tauto.
    + reflexivity.
    + vm_compute. reflexivity.
  - vm_compute. reflexivity.
  - exists Demo.tensor_in. split; [|split].
    + apply list_elem_of_In. vm_compute. tauto.
    + reflexivity.
    + vm_compute. reflexivity.
Qed.

(** ** Inputs passed as None *)

Lemma dict_get_without_none (s key : string) (kwargs : list (string * pyval)) :
  s <> key -> dict_get s (without_none key kwargs) = dict_get s kwargs.
Proof.
  intros Hne. unfold without_none.
  induction kwargs as [|[k' v] kwargs IH]; [done|].
  rewrite filter_cons. destruct (decide ((k', v) <> (key, PyNone))) as [Hq|Hq]; simpl.
  - by rewrite IH.
  - apply dec_stable in Hq. injection Hq as -> ->.
    rewrite bool_decide_eq_false_2; [done|]. congruence.
Qed.

Lemma supplied_without_none (key : string) (kwargs : list (string * pyval))
    (ts : list (string * InputType)) :
  filter (fun kv => dict_has kv.1 ts = true /\ kv.2 <> PyNone) (without_none key kwargs)
  = filter (fun kv => dict_has kv.1 ts = true /\ kv.2 <> PyNone) kwargs.
Proof.
  unfold without_none. rewrite list_filter_filter. apply list_filter_iff.
  intros [k' v]. simpl. split; [tauto|]. intros [Hk Hv]. repeat split; try done.
  congruence.
Qed.

Section none_inputs.
Context {collab : Collaborators} (k : OpKind).

Lemma check_expected_key_state (key : string) (w : World) :
  (check_expected_key key w).2 = w.
Proof.
  unfold check_expected_key. rewrite bind_run. simpl. by destruct (_ && _).
Qed.

Lemma _check_expected_inputs_without_none (key : string) (kwargs : list (string * pyval))
    (w : World) :
  dict_has key (_input_types (self w)) = true ->
  _check_expected_inputs (without_none key kwargs) w = _check_expected_inputs kwargs w.
Proof.
  intros Hkey. unfold _check_expected_inputs, without_none.
  induction kwargs as [|[k' v] kwargs IH]; [done|].
  rewrite filter_cons. destruct (decide ((k', v) <> (key, PyNone))) as [Hq|Hq].
  - rewrite !fmap_cons, !for_each_cons, !bind_run. simpl.
    destruct (check_expected_key k' w) as [[e|[]] w'] eqn:Hstep; [done|].
    pose proof (check_expected_key_state k' w) as Hs. rewrite Hstep in Hs.
    simpl in Hs. subst w'. apply IH.
  - apply dec_stable in Hq. injection Hq as -> ->.
    rewrite fmap_cons, for_each_cons, bind_run. simpl.
    assert (check_expected_key key w = (inr tt, w)) as ->; [|done].
    unfold check_expected_key. rewrite bind_run. simpl. rewrite Hkey.
    by rewrite andb_false_r.
Qed.

Lemma __init___bind_without_none (key : string) (kwargs : list (string * pyval))
    (w : World) :
  key ∈ (input_types k).*1 ->
  key ∉ ["name"; "enclosing_block"; "scopes"]%string ->
  __init___bind k (without_none key kwargs) w = __init___bind k kwargs w.
Proof.
  intros Hkey Hsys.
  assert (Hn : "name"%string <> key).
  { intros <-. apply Hsys, list_elem_of_In. simpl. tauto. }
  assert (Hb : "enclosing_block"%string <> key).
  { intros <-. apply Hsys, list_elem_of_In. simpl. tauto. }
  assert (Hs : "scopes"%string <> key).
  { intros <-. apply Hsys, list_elem_of_In. simpl. tauto. }
  unfold __init___bind, kwarg. cbv zeta.
  rewrite !(dict_get_without_none _ key) by done.
  rewrite !bind_run. simpl.
  destruct (dict_get "enclosing_block" kwargs) as [block|]; [|done]. simpl.
  rewrite !bind_run. simpl.
  destruct (dict_get "scopes" kwargs) as [sc|]; [|done]. simpl.
  repeat (rewrite bind_run; simpl).
  match goal with |- context [for_each _ _ ?w1] =>
    destruct (init_slots_run (input_types k).*1 w1) as (w2 & -> & _ & Htypes & _ & _)
  end.
  simpl in Htypes. cbv beta iota. rewrite !bind_run.
  rewrite _check_expected_inputs_without_none.
  2:{ rewrite Htypes. by apply bool_decide_eq_true_2. }
  destruct (_check_expected_inputs kwargs w2) as [[e|[]] w3]; [done|].
  rewrite !bind_run.
  destruct (for_enumerate populate_type_domain 0 (input_types k) w3) as [[e|[]] w4]; [done|].
  rewrite !bind_run. simpl. by rewrite supplied_without_none.
Qed.

(** C9. A keyword argument that passes None for a contract slot is ignored:
    the construction runs as if the pair had not been supplied; after the
    binding steps the slot is unbound; and if the slot is required, the
    construction fails with the ValueError for a missing required input. *)
Theorem none_binding_is_ignored (key : string) (kwargs : list (string * pyval)) :
  key ∈ (input_types k).*1 ->
  (key ∉ ["name"; "enclosing_block"; "scopes"]%string ->
   forall w, __init__ k kwargs w = __init__ k (without_none key kwargs) w) /\
  ((forall v, (key, v) ∈ kwargs -> v = PyNone) ->
   forall w w1,
     __init___bind k kwargs w = (inr tt, w1) ->
     slot_unbound w1 key /\
     forall t, (key, t) ∈ input_types k -> optional t = false ->
       exists n, __init__ k kwargs w = (inl (ValueError (required_input_missing n)), w1)).
Proof.
  intros Hkey. split.
  - intros Hsys w. unfold __init__. rewrite !bind_run.
    by rewrite __init___bind_without_none.
  - intros Hnone w w1 Hbind.
    pose proof (__init___bind_post k kwargs w) as Hpost.
    apply (wp_run _ _ _ _ _ _ Hpost) in Hbind as Hw1. destruct Hw1 as [Hready Hslots].
    assert (Hu : slot_unbound w1 key) by by apply Hslots.
    split; [done|]. intros t Hin Hopt.
    destruct Hready as [Hsig Hkeys].
    destruct (signature_required _ _ key t (eq_sym Hsig) Hin Hopt) as (t' & Hin' & Hopt').
    destruct (_ensure_required_inputs_missing w1) as (n & _ & Hrun).
    + apply (contract_ready_slots_initialized k). by split.
    + exists key, t'. by repeat split.
    + exists n. unfold __init__. by rewrite (bind_ok _ _ _ _ _ Hbind).
Qed.
End none_inputs.

(** Passing [y=None] to the addition, whose [y] is required. *)
Lemma none_binding_is_ignored_witness :
  slot_unbound
    (__init___bind (collab := Demo.collaborators) (Demo.add_kind VALUE)
       (Demo.system_kwargs ++ [("x"%string, PyVar 0); ("y"%string, PyNone)]) Demo.w0).2
    "y" /\
  __init__ (collab := Demo.collaborators) (Demo.add_kind VALUE)
    (Demo.system_kwargs ++ [("x"%string, PyVar 0); ("y"%string, PyNone)]) Demo.w0
  = __init__ (collab := Demo.collaborators) (Demo.add_kind VALUE)
      (Demo.system_kwargs ++ [("x"%string, PyVar 0)]) Demo.w0.
Proof.
  assert (Hkey : "y"%string ∈ (input_types (Demo.add_kind VALUE)).*1).
  { apply list_elem_of_In. simpl. tauto. }
  destruct (none_binding_is_ignored (collab := Demo.collaborators) (Demo.add_kind VALUE)
              "y"%string
              (Demo.system_kwargs ++ [("x"%string, PyVar 0); ("y"%string, PyNone)]) Hkey)
    as [Hsame Hunbound].
  split.
  - refine (proj1 (Hunbound _ Demo.w0 _ _)).
    + intros v Hv. apply list_elem_of_In in Hv. simpl in Hv.
      destruct Hv as [Hv|[Hv|[Hv|[Hv|[Hv|[]]]]]]; by inversion Hv.
    + vm_compute. reflexivity.
  - rewrite Hsame; [reflexivity|].
    intros Hin. apply list_elem_of_In in Hin. simpl in Hin.
    destruct Hin as [Hin|[Hin|[Hin|[]]]]; discriminate Hin.
Defined.

(** ** Rebinding without re-inference *)

Lemma same_but_consumers_refl (v : Var.t) : same_but_consumers v v.
Proof. by repeat split. Qed.

Lemma nodes_kept_refl (w : World) : nodes_kept w w.
Proof. intros id. destruct (vars w !! id); [apply same_but_consumers_refl|done]. Qed.

Lemma nodes_kept_edit (w w' : World) (id : nat) (f : Var.t -> Var.t) :
  (forall v, same_but_consumers v (f v)) ->
  nodes_kept w w' -> nodes_kept w (edit_var id f w').
Proof.
  intros Hf Hkept id'. specialize (Hkept id'). unfold edit_var. simpl.
  destruct (vars w' !! id) as [v1|] eqn:Hid; [|done].
  destruct (decide (id = id')) as [<-|Hne].
  - rewrite lookup_insert_eq. rewrite Hid in Hkept.
    destruct (vars w !! id) as [v0|]; [|done].
    destruct Hkept as (?&?&?&?&?&?&?), (Hf v1) as (?&?&?&?&?&?&?).
    repeat split; congruence.
  - by rewrite lookup_insert_ne.
Qed.

Section rebinding_frame.
Context {collab : Collaborators} (k : OpKind).

Lemma _validate_and_set_inputs_frame (kvs : list (string * pyval)) (b : bool) (w : World) :
  wp (_validate_and_set_inputs k kvs b)
     (fun _ w' => _output_vars (self w') = _output_vars (self w) /\ nodes_kept w w')
     (fun _ w' => _output_vars (self w') = _output_vars (self w) /\ nodes_kept w w') w.
Proof.
  apply (_validate_and_set_inputs_inv k
           (fun w' => _output_vars (self w') = _output_vars (self w) /\ nodes_kept w w')).
  - intros w' id o [Hout Hkept]. split; [done|].
    apply nodes_kept_edit; [|done]. intros v. by repeat split.
  - intros w' id o b' [Hout Hkept]. split; [done|].
    apply nodes_kept_edit; [|done]. intros v. by repeat split.
  - intros w' n v _ [Hout Hkept]. by split.
  - split; [done|apply nodes_kept_refl].
Qed.

(** C10. With [no_check_var_types] set, [set_inputs] runs no inference even
    when [type_inference] is requested: it is the binding followed by the
    completeness check, the list of output nodes is the same afterwards, and
    every node keeps its type and value.  Inference runs exactly when it is
    requested and the type check is not skipped, and a normal return always
    means that the completeness check passed. *)
Theorem set_inputs_skips_inference_without_type_check :
  (forall type_inference kvs w,
      set_inputs k true type_inference kvs w
      = (_validate_and_set_inputs k kvs true;; _ensure_required_inputs) w) /\
  (forall type_inference kvs w r w',
      set_inputs k true type_inference kvs w = (r, w') ->
      _output_vars (self w') = _output_vars (self w) /\ nodes_kept w w') /\
  (forall no_check_var_types kvs w,
      set_inputs k no_check_var_types false kvs w
      = (_validate_and_set_inputs k kvs no_check_var_types;; _ensure_required_inputs) w) /\
  (forall kvs w,
      set_inputs k false true kvs w
      = (_validate_and_set_inputs k kvs false;; type_value_inference k false;;
         _ensure_required_inputs) w) /\
  (forall no_check_var_types type_inference kvs w w',
      set_inputs k no_check_var_types type_inference kvs w = (inr tt, w') ->
      forall n, ~ missing_required w' n).
Proof.
  assert (Hskip : forall nc ti kvs w,
             ti && negb nc = false ->
             set_inputs k nc ti kvs w
             = (_validate_and_set_inputs k kvs nc;; _ensure_required_inputs) w).
  { intros nc ti kvs w Hcond. unfold set_inputs. rewrite Hcond, !bind_run.
    by destruct (_validate_and_set_inputs k kvs nc w) as [[e|[]] w1]. }
  split; [|split; [|split; [|split]]].
  - intros ti kvs w. apply Hskip. by rewrite andb_false_r.
  - intros ti kvs w r w' Hrun. rewrite Hskip in Hrun by by rewrite andb_false_r.
    rewrite bind_run in Hrun.
    pose proof (_validate_and_set_inputs_frame kvs true w) as Hwp. unfold wp in Hwp.
    destruct (_validate_and_set_inputs k kvs true w) as [[e|[]] w1]; [by simplify_eq|].
    pose proof (_ensure_required_inputs_state w1) as Hs. rewrite Hrun in Hs.
    simpl in Hs. by subst w'.
  - intros nc kvs w. by apply Hskip.
  - done.
  - intros nc ti kvs w w' Hrun n. unfold set_inputs in Hrun. rewrite bind_run in Hrun.
    destruct (_validate_and_set_inputs k kvs nc w) as [[e|[]] w1]; [done|].
    rewrite bind_run in Hrun.
    destruct ((if ti && negb nc then type_value_inference k false else mret tt) w1)
      as [[e|[]] w2]; [done|].
    by apply _ensure_required_inputs_ok in Hrun as [-> Hok].
Qed.
End rebinding_frame.

(** Rebinding [x] of an inferred addition with the type check skipped and
    inference requested. *)
Lemma set_inputs_skips_inference_without_type_check_witness :
  _output_vars
    (self (set_inputs (collab := Demo.collaborators) (Demo.add_kind VALUE) true true
             [("x"%string, PyVar 2)]
             (Demo.inferred (Demo.add_kind VALUE)
                [("x"%string, PyVar 0); ("y"%string, PyVar 1)])).2)
  = _output_vars
      (self (Demo.inferred (Demo.add_kind VALUE)
               [("x"%string, PyVar 0); ("y"%string, PyVar 1)])).
Proof.
  refine (proj1 (proj1 (proj2 (set_inputs_skips_inference_without_type_check
                                 (collab := Demo.collaborators) (Demo.add_kind VALUE)))
                   true [("x"%string, PyVar 2)] _ _ _ _)).
  apply surjective_pairing.
Defined.

(** ** The rank limit on list outputs *)

Section list_rank.
Context {collab : Collaborators} (k : OpKind).

Lemma elem_shape_list_rank (nm : pyval) (e : mil_type) (il : nat) (dl : bool)
    (sv : option builtin_val) (o i : option nat) :
  length <$> Var.elem_shape (Var.mk nm (TList e il dl) sv o i ∅ ∅ (ListVar e))
  = list_elem_rank (TList e il dl).
Proof. by destruct e. Qed.

(** What the loop body does with a list type whose element rank is known. *)
Lemma create_output_list (i : nat) (n : string) (e : mil_type) (il : nat) (dl : bool)
    (sv : option builtin_val) (w : World) (r : nat) :
  n = ""%string \/ (exists s, name (self w) = PyStr s) ->
  list_elem_rank (TList e il dl) = Some r ->
  exists v, Var.class v = ListVar e /\ Var._sym_type v = TList e il dl /\
    create_output k i (n, TList e il dl, sv) w
    = if bool_decide (5 <= r)%nat then (inl (ValueError (list_rank r)), w)
      else append_output v w.
Proof.
  intros Hname Hrank. unfold create_output.
  set (sv' := match sv with
              | Some b => if is_PList (val b) then Some b else None
              | None => None
              end).
  assert (Hnm : exists nm,
    (if negb (bool_decide (n = ""%string)) then
       match name (self w) with
       | PyStr s => mret (PyStr (s +:+ "_" +:+ n))
       | _ => raise TypeError
       end
     else mret (name (self w))) w = (inr nm, w)).
  { destruct (bool_decide (n = ""%string)) eqn:Hn; simpl; [by eexists|].
    destruct Hname as [->|[s ->]]; [done|by eexists]. }
  destruct Hnm as [nm Hnm].
  exists (Var.mk nm (TList e il dl) sv' (Some (self_id (self w))) (Some i) ∅ ∅ (ListVar e)).
  split; [done|]. split; [done|].
  rewrite bind_run. simpl. rewrite bind_run, Hnm, bind_run.
  pose proof (elem_shape_list_rank nm e il dl sv' (Some (self_id (self w))) (Some i)) as Hs.
  rewrite Hrank in Hs. fold sv'.
  destruct (Var.elem_shape _) as [shp|]; [|done].
  simpl in Hs. injection Hs as <-.
  by destruct (bool_decide (5 <= length shp)%nat).
Qed.

Lemma create_output_rank_ok (i : nat) (n : string) (ty : mil_type)
    (sv : option builtin_val) (w : World) :
  wp (create_output k i (n, ty, sv))
     (fun _ _ => forall r, list_elem_rank ty = Some r -> (r <= 4)%nat)
     (fun e _ => forall r, e = ValueError (list_rank r) ->
                           (5 <= r)%nat /\ list_elem_rank ty = Some r) w.
Proof.
  unfold create_output. wp_steps; try done.
  all: repeat match goal with
       | H : Var.elem_shape _ = _ |- _ =>
           apply (f_equal (fmap length)) in H;
           rewrite elem_shape_list_rank in H;
           cbn [fmap option_fmap option_map] in H
       | H : bool_decide _ = true |- _ => apply bool_decide_eq_true_1 in H
       | H : bool_decide _ = false |- _ => apply bool_decide_eq_false_1 in H
       end.
  all: unfold wp, append_output.
  all: match goal with
       | H : list_elem_rank _ = _ |- _ => intros r Hr; try rewrite H in Hr; try rewrite H
       end.
  all: try done.
  all: injection Hr as <-; try split; try done; lia.
Qed.
End list_rank.

Section list_rank_claim.
Context {collab : Collaborators} (k : OpKind).

Lemma create_outputs_rank (items : list (string * mil_type * option builtin_val))
    (i : nat) (w : World) (r : exn + unit) (w' : World) :
  for_enumerate (create_output k) i items w = (r, w') ->
  match r with
  | inr _ =>
      forall n ty sv rk, (n, ty, sv) ∈ items -> list_elem_rank ty = Some rk -> (rk <= 4)%nat
  | inl e =>
      forall rk, e = ValueError (list_rank rk) ->
        (5 <= rk)%nat /\
        exists n ty sv, (n, ty, sv) ∈ items /\ list_elem_rank ty = Some rk
  end.
Proof.
  revert i w. induction items as [|[[n ty] sv] items IH]; intros i w Hrun.
  - simpl in Hrun. injection Hrun as <- <-. by intros n ty sv rk ?%elem_of_nil.
  - rewrite for_enumerate_cons, bind_run in Hrun.
    pose proof (create_output_rank_ok k i n ty sv w) as Hstep. unfold wp in Hstep.
    destruct (create_output k i (n, ty, sv) w) as [[e|[]] w1].
    + injection Hrun as <- <-. intros rk Hrk. destruct (Hstep rk Hrk) as [Hge Hty].
      split; [done|]. exists n, ty, sv. split; [left|done].
    + specialize (IH _ _ Hrun). destruct r as [e|[]].
      * intros rk Hrk. destruct (IH rk Hrk) as (Hge & n' & ty' & sv' & Hin & Hty).
        split; [done|]. exists n', ty', sv'. split; [by right|done].
      * intros n' ty' sv' rk [Heq|Hin]%elem_of_cons Hty; [|by eapply IH].
        simplify_eq. by apply Hstep.
Qed.

Lemma create_output_rank_supported (i : nat)
    (item : string * mil_type * option builtin_val) (w : World) :
  outputs_all rank_supported w ->
  wp (create_output k i item) (fun _ => outputs_all rank_supported)
     (fun _ => outputs_all rank_supported) w.
Proof.
  intros Hw. destruct item as [[n ty] sv]. unfold create_output. wp_steps; try done.
  all: apply (append_output_all _ _ _ Hw).
  all: try by intros shape0 [=].
  all: match goal with
       | H : Var.elem_shape _ = _ |- _ => intros shape0 Hshp; rewrite H in Hshp
       end.
  all: try done.
  all: injection Hshp as <-.
  all: match goal with
       | H : bool_decide _ = false |- _ => apply bool_decide_eq_false_1 in H
       end; lia.
Qed.

Lemma first_inference_rank_supported (overwrite_output : bool) (w : World) :
  _output_vars (self w) = None ->
  wp (type_value_inference k overwrite_output) (fun _ => outputs_all rank_supported)
     (fun _ => outputs_all rank_supported) w.
Proof.
  intros Hnone.
  assert (Hw : outputs_all rank_supported w).
  { intros id. unfold outputs. rewrite Hnone. simpl. by intros ?%elem_of_nil. }
  apply wp_type_value_inference; try done.
  intros t vals names _ _ _. rewrite Hnone. apply wp_for_enumerate.
  - intros id. unfold outputs. simpl. by intros ?%elem_of_nil.
  - intros; by apply create_output_rank_supported.
Qed.

(** C7. At a first inference a list type whose element rank is known makes
    the loop body raise the ValueError on the rank exactly when the rank is 5
    or more, and otherwise appends a list node; the creation loop ends with
    that error only on such a type and ends normally only if there is none;
    and whether the inference returns or raises, no output node it has
    attached is a list of elements of rank 5 or more. *)
Theorem list_rank_limit :
  (forall i n e il dl sv w r,
      n = ""%string \/ (exists s, name (self w) = PyStr s) ->
      list_elem_rank (TList e il dl) = Some r ->
      (create_output k i (n, TList e il dl, sv) w = (inl (ValueError (list_rank r)), w)
       <-> (5 <= r)%nat) /\
      ((r <= 4)%nat ->
       exists v, Var.class v = ListVar e /\ Var._sym_type v = TList e il dl /\
         create_output k i (n, TList e il dl, sv) w = append_output v w)) /\
  (forall i items w r w',
      for_enumerate (create_output k) i items w = (r, w') ->
      match r with
      | inr _ =>
          forall n ty sv rk,
            (n, ty, sv) ∈ items -> list_elem_rank ty = Some rk -> (rk <= 4)%nat
      | inl e =>
          forall rk, e = ValueError (list_rank rk) ->
            (5 <= rk)%nat /\
            exists n ty sv, (n, ty, sv) ∈ items /\ list_elem_rank ty = Some rk
      end) /\
  (forall overwrite_output w r w',
      _output_vars (self w) = None ->
      type_value_inference k overwrite_output w = (r, w') ->
      outputs_all rank_supported w').
Proof.
  split; [|split].
  - intros i n e il dl sv w r Hname Hrank.
    destruct (create_output_list k i n e il dl sv w r Hname Hrank)
      as (v & Hclass & Hty & Hrun).
    split; [split|].
    + rewrite Hrun. case_bool_decide; [done|]. unfold append_output. by intros [=].
    + intros Hge. rewrite Hrun. by rewrite bool_decide_eq_true_2.
    + intros Hle. exists v. split; [done|]. split; [done|].
      rewrite Hrun. rewrite bool_decide_eq_false_2; [done|lia].
  - intros i items w r w'. apply create_outputs_rank.
  - intros ov w r w' Hnone Hrun.
    pose proof (first_inference_rank_supported ov w Hnone) as Hwp.
    apply (wp_run _ _ _ _ _ _ Hwp) in Hrun. by destruct r.
Qed.
End list_rank_claim.

(** Scenario D: a list of tensors of rank 5 at first inference. *)
Lemma list_rank_limit_witness :
  create_output (Demo.list_kind 5) 0
    (""%string, TList (TTensor fp32 (replicate 5 (Dim 1))) 0 true, None)
    (Demo.constructed (Demo.list_kind 5) [])
  = (inl (ValueError (list_rank 5)), Demo.constructed (Demo.list_kind 5) []).
Proof.
  refine (proj2 (proj1 (proj1 (list_rank_limit (collab := Demo.collaborators)
                                 (Demo.list_kind 5))
                          0%nat ""%string (TTensor fp32 (replicate 5 (Dim 1))) 0%nat true
                          None (Demo.constructed (Demo.list_kind 5) []) 5%nat
                          (or_introl eq_refl) eq_refl)) _).
  lia.
Defined.

(** ** Comparing arrays *)

Lemma existsb_blocks {X} (P : X -> bool) (d c : nat) (l : list X) :
  length l = (d * c)%nat ->
  existsb P l = existsb (fun i => existsb P (take c (drop (i * c) l))) (seq 0 d).
Proof.
  revert l. induction d as [|d IH]; intros l Hlen.
  - by destruct l.
  - rewrite <- (take_drop c l) at 1. rewrite existsb_app.
    cbn [seq existsb]. rewrite Nat.mul_0_l, drop_0. f_equal.
    rewrite (IH (drop c l)) by (rewrite length_drop; lia).
    rewrite <- fmap_S_seq. clear IH Hlen.
    generalize (seq 0 d). intros js. induction js as [|j js IHjs]; [done|].
    rewrite fmap_cons. cbn [existsb]. rewrite IHjs. f_equal.
    rewrite drop_drop. by replace (c + j * c)%nat with (S j * c)%nat by lia.
Qed.

Lemma existsb_ext_in {X} (f g : X -> bool) (l : list X) :
  (forall x, x ∈ l -> f x = g x) -> existsb f l = existsb g l.
Proof.
  induction l as [|x l IH]; intros Hfg; [done|]. cbn [existsb].
  rewrite Hfg by left. rewrite IH; [done|]. intros y Hy. apply Hfg. by right.
Qed.

Lemma length_chunk (c i d : nat) (l : list scalar) :
  length l = (d * c)%nat -> (i < d)%nat -> length (chunk c i l) = c.
Proof.
  intros Hlen Hi. unfold chunk. rewrite length_take, length_drop. nia.
Qed.

Lemma any_ne_same_shape (s : list nat) (a b : list scalar) :
  length a = numel s -> length b = numel s ->
  any_ne s s a b = existsb (fun p => py_ne p.1 p.2) (zip a b).
Proof.
  revert a b. induction s as [|d s IH]; intros a b Ha Hb; [done|].
  cbn [any_ne]. simpl in Ha, Hb.
  rewrite (existsb_blocks _ d (numel s) (zip a b)).
  2:{ rewrite length_zip_with. lia. }
  assert (Hn : (if bool_decide (d = 1%nat) then d else d) = d) by by case_bool_decide.
  rewrite Hn. apply existsb_ext_in. intros i Hi%elem_of_seq.
  assert (Hidx : (if bool_decide (d = 1%nat) then 0%nat else i) = i).
  { case_bool_decide; lia. }
  rewrite Hidx, IH.
  - unfold chunk. by rewrite zip_with_drop, zip_with_take.
  - apply (length_chunk _ _ d); [done|lia].
  - apply (length_chunk _ _ d); [done|lia].
Qed.

Lemma py_ne_refl (x : scalar) : x <> NaN -> py_ne x x = false.
Proof. intros Hx. destruct x; [| |done]; simpl; by rewrite bool_decide_eq_true_2. Qed.

Lemma elem_of_chunk (c i : nat) (l : list scalar) (x : scalar) :
  x ∈ chunk c i l -> x ∈ l.
Proof.
  unfold chunk. intros Hx.
  eapply elem_of_sublist; [|apply sublist_drop].
  eapply elem_of_sublist; [exact Hx|apply sublist_take].
Qed.

Lemma any_ne_refl (s : list nat) (a : list scalar) :
  NaN ∉ a -> any_ne s s a a = false.
Proof.
  revert a. induction s as [|d s IH]; intros a Ha.
  - cbn [any_ne]. induction a as [|x a IHa]; [done|].
    apply not_elem_of_cons in Ha as [Hx Ha].
    cbn. rewrite py_ne_refl by done. by apply IHa.
  - cbn [any_ne].
    generalize (seq 0 (if bool_decide (d = 1%nat) then d else d)). intros js.
    induction js as [|j js IHjs]; [done|]. cbn [existsb]. rewrite IHjs.
    rewrite IH; [done|]. intros Hin. by apply Ha, (elem_of_chunk _ _ _ _ Hin).
Qed.

Lemma broadcastable_refl (s : list nat) : broadcastable s s = true.
Proof.
  induction s as [|d s IH]; [done|]. cbn [broadcastable].
  by rewrite bool_decide_eq_true_2, IH.
Qed.

Lemma pad_shape_id (s : list nat) : pad_shape (length s `max` length s) s = s.
Proof. unfold pad_shape. by rewrite Nat.max_id, Nat.sub_diag. Qed.

Lemma np_any_ne_same_shape (a b : ndarray) :
  shape a = shape b -> ndarray_wf a -> ndarray_wf b ->
  np_any_ne (PArr a) (PArr b)
  = inr (existsb (fun p => py_ne p.1 p.2) (zip (flatten a) (flatten b))).
Proof.
  intros Hshape Ha Hb. unfold np_any_ne, as_array. cbv zeta.
  rewrite <- Hshape, pad_shape_id, broadcastable_refl.
  rewrite any_ne_same_shape; [done|done|]. unfold ndarray_wf in Hb. by rewrite Hshape.
Qed.

Lemma np_any_ne_refl (p : payload) : nan_free p -> np_any_ne p p = inr false.
Proof.
  intros Hp. destruct p as [a|l].
  - unfold np_any_ne, as_array. cbv zeta.
    by rewrite pad_shape_id, broadcastable_refl, any_ne_refl.
  - unfold np_any_ne. by rewrite bool_decide_eq_true_2.
Qed.

(** A value compared with itself always broadcasts. *)
Lemma np_any_ne_self (p : payload) : exists d, np_any_ne p p = inr d.
Proof.
  destruct p as [a|l].
  - unfold np_any_ne, as_array. cbv zeta.
    rewrite pad_shape_id, broadcastable_refl. by eexists.
  - unfold np_any_ne. by eexists.
Qed.

Lemma compatible_entries_spec (l : list (scalar * scalar)) :
  compatible_entries l = true <->
  forall i x y, l !! i = Some (x, y) ->
                is_symbolic x = false -> is_symbolic y = false -> py_ne x y = false.
Proof.
  induction l as [|[t v] l IH]; simpl.
  - split; [|done]. by intros _ i x y ?.
  - destruct (is_symbolic t) eqn:Ht; simpl.
    { rewrite IH. split.
      - intros Hl [|i] x y Hi Hx Hy; simpl in Hi; [simplify_eq; congruence|by eapply Hl].
      - intros Hl i x y Hi. by apply (Hl (S i)). }
    destruct (is_symbolic v) eqn:Hv; simpl.
    { rewrite IH. split.
      - intros Hl [|i] x y Hi Hx Hy; simpl in Hi; [simplify_eq; congruence|by eapply Hl].
      - intros Hl i x y Hi. by apply (Hl (S i)). }
    destruct (py_ne t v) eqn:Hne; simpl.
    + split; [done|]. intros Hl. rewrite (Hl 0%nat t v) in Hne; done.
    + rewrite IH. split.
      * intros Hl [|i] x y Hi Hx Hy; simpl in Hi; [by simplify_eq|by eapply Hl].
      * intros Hl i x y Hi. by apply (Hl (S i)).
Qed.

(** The code's test is the specification's relation. *)
Lemma _is_compatible_symbolic_array_spec (a b : ndarray) :
  _is_compatible_symbolic_array a b = true <-> symbolic_compatible a b.
Proof.
  unfold _is_compatible_symbolic_array, symbolic_compatible.
  case_bool_decide as Hshape; simpl.
  - rewrite compatible_entries_spec. split.
    + intros Hl. split; [done|]. intros i x y Hx Hy. apply (Hl i).
      rewrite lookup_zip_with, Hx. simpl. by rewrite Hy.
    + intros [_ Hl] i x y Hi. apply (Hl i).
      * rewrite lookup_zip_with in Hi. destruct (flatten a !! i); [|done].
        simpl in Hi. destruct (flatten b !! i); by simplify_eq/=.
      * rewrite lookup_zip_with in Hi. destruct (flatten a !! i); [|done].
        simpl in Hi. destruct (flatten b !! i); by simplify_eq/=.
  - split; [done|]. by intros [? _].
Qed.

(** Entries that are not compatible differ somewhere. *)
Lemma incompatible_entries_differ (l : list (scalar * scalar)) :
  compatible_entries l = false -> existsb (fun p => py_ne p.1 p.2) l = true.
Proof.
  induction l as [|[t v] l IH]; [done|]. simpl.
  destruct (negb (is_symbolic t) && negb (is_symbolic v)).
  - destruct (py_ne t v); [done|]. simpl. apply IH.
  - intros Hl. rewrite (IH Hl). by rewrite orb_true_r.
Qed.

(** ** Re-inference against an existing value *)

Section value_drift.
Context {collab : Collaborators}.

(** Refreshing the markers of the outputs raises nothing but for a reference
    to no node. *)
Lemma refresh_outputs_error (l : list nat) (w : World) :
  wp (for_each _set_nonreplaceable_vars_upstream l) (fun _ _ => True)
     (fun e _ => e = ReferenceError) w.
Proof.
  apply (wp_for_each (fun _ => True)); [done|].
  intros o w' _ _. unfold _set_nonreplaceable_vars_upstream. wp_steps; done.
Qed.

(** The check of one output whose old and new values are arrays of one
    shape, when the inferred type is compatible. *)
Lemma check_output_same_shape (i id : nat) (ty : mil_type) (sv old : builtin_val)
    (a b : ndarray) (out_var : Var.t) (w : World) :
  outputs w !! i = Some id ->
  vars w !! id = Some out_var ->
  Var._sym_val out_var = Some old ->
  val sv = PArr a -> val old = PArr b ->
  is_compatible_type ty (Var.sym_type out_var) = true ->
  shape a = shape b -> ndarray_wf a -> ndarray_wf b ->
  check_output false i (ty, Some sv) w
  = if _is_compatible_symbolic_array a b
    then for_each _set_nonreplaceable_vars_upstream (outputs w) w
    else (inl (ValueError (value_inference_differs (Var.name out_var))), w).
Proof.
  intros Hi Hid Hold Ha Hb Hty Hshape Hwa Hwb. unfold check_output, outputs in *.
  assert (Hget : get_var id w = (inr out_var, w)).
  { unfold get_var. by rewrite Hid. }
  rewrite bind_run. simpl. rewrite Hi.
  rewrite bind_run. simpl. rewrite bind_run, Hget. rewrite Hty. simpl.
  rewrite bind_run. simpl. rewrite bind_run. simpl. rewrite bind_run, Hget.
  unfold Var.sym_val. rewrite Hold. simpl. rewrite Ha, Hb.
  rewrite !bind_run. unfold lift. rewrite (np_any_ne_same_shape a b Hshape Hwa Hwb).
  destruct (_is_compatible_symbolic_array a b) eqn:Hc.
  - destruct (existsb _ _); simpl; by rewrite ?bind_run.
  - unfold _is_compatible_symbolic_array in Hc.
    rewrite bool_decide_eq_true_2 in Hc by done. simpl in Hc.
    by rewrite (incompatible_entries_differ _ Hc).
Qed.

(** C3, for arrays of one shape.  When a re-inference without overwriting
    finds an old and a new array of the same shape on an output whose type is
    still compatible, it raises the ValueError on the value exactly when the
    arrays are not symbolic-compatible; arrays that differ only where an
    entry is symbolic are accepted, and the check goes on to refresh the
    markers of the outputs. *)
Theorem value_drift_iff_incompatible (i id : nat) (ty : mil_type) (sv old : builtin_val)
    (a b : ndarray) (out_var : Var.t) (w : World) :
  outputs w !! i = Some id ->
  vars w !! id = Some out_var ->
  Var._sym_val out_var = Some old ->
  val sv = PArr a -> val old = PArr b ->
  is_compatible_type ty (Var.sym_type out_var) = true ->
  shape a = shape b -> ndarray_wf a -> ndarray_wf b ->
  ((exists nm w', check_output false i (ty, Some sv) w
                  = (inl (ValueError (value_inference_differs nm)), w'))
   <-> ~ symbolic_compatible a b) /\
  (~ symbolic_compatible a b ->
   check_output false i (ty, Some sv) w
   = (inl (ValueError (value_inference_differs (Var.name out_var))), w)) /\
  (symbolic_compatible a b ->
   check_output false i (ty, Some sv) w
   = for_each _set_nonreplaceable_vars_upstream (outputs w) w).
Proof.
  intros Hi Hid Hold Ha Hb Hty Hshape Hwa Hwb.
  pose proof (check_output_same_shape i id ty sv old a b out_var w
                Hi Hid Hold Ha Hb Hty Hshape Hwa Hwb) as Hrun.
  pose proof (_is_compatible_symbolic_array_spec a b) as Hspec.
  destruct (_is_compatible_symbolic_array a b).
  - assert (Hc : symbolic_compatible a b) by by apply Hspec.
    split; [split|split]; try done.
    intros (nm & w' & Herr). rewrite Hrun in Herr.
    pose proof (refresh_outputs_error (outputs w) w) as Hwp.
    by apply (wp_run _ _ _ _ _ _ Hwp) in Herr.
  - assert (Hc : ~ symbolic_compatible a b).
    { intros Hc. by apply Hspec in Hc. }
    split; [split|split]; try done. intros _. by eexists _, _.
Qed.
End value_drift.

(** Scenario C: the output holds [4, 6] and the re-inference after rebinding
    [x] to [1, 3] computes [4, 7]. *)
Lemma value_drift_iff_incompatible_witness :
  check_output (collab := Demo.collaborators) false 0
    (TTensor int32 [Dim 2], Some (Demo.vec [4; 7]))
    (Demo.rebound (Demo.add_kind VALUE) [("x"%string, PyVar 0); ("y"%string, PyVar 1)]
       false [("x"%string, PyVar 2)])
  = (inl (ValueError (value_inference_differs (PyStr "op_7"))),
     Demo.rebound (Demo.add_kind VALUE) [("x"%string, PyVar 0); ("y"%string, PyVar 1)]
       false [("x"%string, PyVar 2)]).
Proof.
  refine (proj1 (proj2 (value_drift_iff_incompatible (collab := Demo.collaborators)
            0 7 (TTensor int32 [Dim 2]) (Demo.vec [4; 7]) (Demo.vec [4; 6])
            (mk_ndarray [2%nat] [Num 4; Num 7]) (mk_ndarray [2%nat] [Num 4; Num 6])
            (Var.mk (PyStr "op_7") (TTensor int32 [Dim 2]) (Some (Demo.vec [4; 6]))
                    (Some 7%nat) (Some 0%nat) ∅ ∅ PlainVar)
            _ _ _ _ _ _ _ _ _ _)) _).
  - vm_compute. reflexivity.
  - vm_compute. reflexivity.
  - reflexivity.
  - reflexivity.
  - reflexivity.
  - reflexivity.
  - reflexivity.
  - reflexivity.
  - reflexivity.
  - intros Hc. apply _is_compatible_symbolic_array_spec in Hc.
    vm_compute in Hc. discriminate.
Defined.

(** Without the restriction to one shape the equivalence fails: after [x] of
    the echo is rebound from [1, 1, 1] to [1], the re-inference finds the new
    value [1] against the old value [1, 1, 1]; the two are not
    symbolic-compatible, numpy broadcasts the comparison to no difference, and
    no error is raised. *)
Lemma value_drift_missed_on_broadcast :
  (_auto_val Demo.echo_kind [TTensor int32 [SymDim "s0"]]
     (Demo.rebound Demo.echo_kind [("x"%string, PyVar 5)] true [("x"%string, PyVar 6)])).1
  = inr [Some (mk_builtin (TTensor int32 [SymDim "s0"]) (PArr (mk_ndarray [1%nat] [Num 1])))] /\
  Var.sym_val <$>
    vars (Demo.rebound Demo.echo_kind [("x"%string, PyVar 5)] true
            [("x"%string, PyVar 6)]) !! 7%nat
  = Some (Some (PArr (mk_ndarray [3%nat] [Num 1; Num 1; Num 1]))) /\
  ~ symbolic_compatible (mk_ndarray [1%nat] [Num 1])
                        (mk_ndarray [3%nat] [Num 1; Num 1; Num 1]) /\
  (check_output (collab := Demo.collaborators) false 0
     (TTensor int32 [SymDim "s0"],
      Some (mk_builtin (TTensor int32 [SymDim "s0"]) (PArr (mk_ndarray [1%nat] [Num 1]))))
     (Demo.rebound Demo.echo_kind [("x"%string, PyVar 5)] true [("x"%string, PyVar 6)])).1
  = inr tt /\
  (type_value_inference (collab := Demo.collaborators) Demo.echo_kind false
     (Demo.rebound Demo.echo_kind [("x"%string, PyVar 5)] true [("x"%string, PyVar 6)])).1
  = inr tt.
Proof.
  split; [by vm_compute|]. split; [by vm_compute|]. split; [|split; by vm_compute].
  intros [Hshape _]. discriminate Hshape.
Qed.

(** ** Rebinding a slot *)

Lemma edit_var_lookup (id j : nat) (f : Var.t -> Var.t) (w : World) :
  vars (edit_var id f w) !! j
  = if decide (id = j) then f <$> vars w !! j else vars w !! j.
Proof.
  unfold edit_var. simpl. destruct (decide (id = j)) as [<-|Hne].
  - destruct (vars w !! id) as [v|] eqn:Hv; simpl.
    + by rewrite lookup_insert_eq.
    + by rewrite Hv.
  - destruct (vars w !! id); [|done]. by rewrite lookup_insert_ne.
Qed.

Section rebinding.
Context {collab : Collaborators} (k : OpKind).

(** Rebinding a slot that holds a node to another node. *)
Lemma set_input_rebind (no_check_var_types : bool) (name : string) (new old : nat)
    (w : World) (vn vo : Var.t) :
  _input_vars (self w) !! name = Some (PyVar old) ->
  vars w !! new = Some vn -> vars w !! old = Some vo ->
  set_input no_check_var_types (name, PyVar new) w
  = if negb (is_compatible_type (Var.sym_type vn) (Var.sym_type vo))
       && negb no_check_var_types
    then (inl (ValueError (incompatible_subtype new old)), w)
    else (inr tt,
          with_self (set_input_var name (PyVar new))
            (edit_var new (Var.add_child_op (self_id (self w)))
               (edit_var old (Var.remove_child_op (self_id (self w)) no_check_var_types)
                  w))).
Proof.
  intros Hslot Hnew Hold. unfold set_input.
  rewrite bind_run. unfold input_var. rewrite Hslot.
  rewrite bind_run. simpl. unfold check_and_detach, var_of.
  rewrite !bind_run. unfold get_var at 1. rewrite Hnew. simpl.
  rewrite !bind_run. unfold get_var at 1. rewrite Hold. simpl.
  destruct (negb _ && negb _); [done|].
  rewrite !bind_run. simpl. rewrite !bind_run. unfold add_child_op.
  rewrite !bind_run. unfold get_var. rewrite edit_var_lookup.
  destruct (decide (old = new)) as [->|Hne]; rewrite Hnew; simpl; by rewrite ?bind_run.
Qed.

Lemma incompatible_rebinding_kept (name : string) (new old : nat)
    (item : string * pyval) (w : World) :
  item.1 <> name ->
  incompatible_rebinding name new old w ->
  wp (set_input false item) (fun _ => incompatible_rebinding name new old)
     (fun _ _ => True) w.
Proof.
  intros Hne Hw.
  eapply wp_mono;
    [apply (set_input_inv (incompatible_rebinding name new old) [item])| |done].
  - intros w' id o (Hslot & vn & vo & Hn & Ho & Hty). split; [done|].
    exists (if decide (id = new) then Var.add_child_op o vn else vn),
           (if decide (id = old) then Var.add_child_op o vo else vo).
    rewrite !edit_var_lookup, Hn, Ho. by repeat case_decide.
  - intros w' id o b (Hslot & vn & vo & Hn & Ho & Hty). split; [done|].
    exists (if decide (id = new) then Var.remove_child_op o b vn else vn),
           (if decide (id = old) then Var.remove_child_op o b vo else vo).
    rewrite !edit_var_lookup, Hn, Ho. by repeat case_decide.
  - intros w' n v Heq%list_elem_of_singleton (Hslot & Hrest). subst item.
    split; [|done]. simpl in *. by rewrite lookup_insert_ne.
  - by apply list_elem_of_singleton.
  - done.
  - by intros.
Qed.

Lemma incompatible_rebinding_fails (name : string) (new old : nat)
    (kvs : list (string * pyval)) (w : World) (r : exn + unit) (w' : World) :
  NoDup kvs.*1 -> (name, PyVar new) ∈ kvs ->
  incompatible_rebinding name new old w ->
  for_each (set_input false) kvs w = (r, w') ->
  exists e, r = inl e.
Proof.
  revert w. induction kvs as [|item kvs IH]; intros w Hnodup Hin Hw Hrun.
  - by apply elem_of_nil in Hin.
  - rewrite fmap_cons in Hnodup. apply NoDup_cons in Hnodup as [Hfresh Hnodup].
    rewrite for_each_cons, bind_run in Hrun.
    apply elem_of_cons in Hin as [<-|Hin].
    + destruct Hw as (Hslot & vn & vo & Hn & Ho & Hty).
      rewrite (set_input_rebind false name new old w vn vo Hslot Hn Ho) in Hrun.
      rewrite Hty in Hrun. simpl in Hrun. injection Hrun as <- _. by eexists.
    + assert (Hne : item.1 <> name).
      { intros Heq. apply Hfresh. rewrite Heq.
        apply list_elem_of_fmap. by exists (name, PyVar new). }
      pose proof (incompatible_rebinding_kept name new old item w Hne Hw) as Hwp.
      unfold wp in Hwp.
      destruct (set_input false item w) as [[e|[]] w1].
      * injection Hrun as <- _. by eexists.
      * by apply (IH w1).
Qed.

Lemma check_known_key_state (key : string) (w : World) :
  (check_known_key key w).2 = w.
Proof.
  unfold check_known_key. rewrite bind_run. simpl. by destruct (negb _).
Qed.

(** *** What a binding does to the consumer sets *)

Lemma nodes_kept_trans (w0 w1 w2 : World) :
  nodes_kept w0 w1 -> nodes_kept w1 w2 -> nodes_kept w0 w2.
Proof.
  intros H01 H12 id. specialize (H01 id). specialize (H12 id).
  destruct (vars w0 !! id), (vars w1 !! id), (vars w2 !! id); try done.
  destruct H01 as (?&?&?&?&?&?&?), H12 as (?&?&?&?&?&?&?).
  repeat split; congruence.
Qed.

Lemma moves_refl (o : nat) (A D : nat -> Prop) (w : World) : moves o A D w w.
Proof. split; [apply nodes_kept_refl|]. by split. Qed.

Lemma moves_trans (o : nat) (A D : nat -> Prop) (w0 w1 w2 : World) :
  moves o A D w0 w1 -> moves o A D w1 w2 -> moves o A D w0 w2.
Proof.
  intros (Hk1 & Hl1 & Ho1) (Hk2 & Hl2 & Ho2). split; [by eapply nodes_kept_trans|].
  split; intros t Ht Hw; [by apply Hl2, Hl1|by apply Ho2, Ho1].
Qed.

Lemma moves_weaken (o : nat) (A A' D D' : nat -> Prop) (w w' : World) :
  (forall t, A t -> A' t) -> (forall t, D t -> D' t) ->
  moves o A D w w' -> moves o A' D' w w'.
Proof.
  intros HA HD (Hk & Hl & Ho). split; [done|].
  split; intros t Ht Hw; [apply Hl|apply Ho]; auto.
Qed.

(** The slot written last does not count for the consumer sets. *)
Lemma moves_with_self (o : nat) (A D : nat -> Prop) (w w' : World)
    (f : Operation -> Operation) :
  moves o A D w w' -> moves o A D w (with_self f w').
Proof. done. Qed.

Lemma moves_attach (o id : nat) (w : World) :
  moves o (eq id) (fun _ => False) w (edit_var id (Var.add_child_op o) w).
Proof.
  split; [|split].
  - apply nodes_kept_edit; [|apply nodes_kept_refl]. intros v. by repeat split.
  - intros t _ (v & Hv & Hin). unfold lists. rewrite edit_var_lookup, Hv.
    case_decide; simpl; eexists; (split; [done|]); [|done].
    simpl. by apply elem_of_union_r.
  - intros t Hne (v & Hv & Hout). unfold omits. rewrite edit_var_lookup.
    rewrite decide_False by done. by exists v.
Qed.

Lemma lists_attach (o id : nat) (v : Var.t) (w : World) :
  vars w !! id = Some v -> lists o (edit_var id (Var.add_child_op o) w) id.
Proof.
  intros Hv. unfold lists. rewrite edit_var_lookup, decide_True, Hv by done.
  simpl. eexists. split; [done|]. simpl. by apply elem_of_union_l, elem_of_singleton.
Qed.

Lemma moves_detach (o id : nat) (b : bool) (w : World) :
  moves o (fun _ => False) (eq id) w (edit_var id (Var.remove_child_op o b) w).
Proof.
  split; [|split].
  - apply nodes_kept_edit; [|apply nodes_kept_refl]. intros v. by repeat split.
  - intros t Hne (v & Hv & Hin). unfold lists. rewrite edit_var_lookup.
    rewrite decide_False by done. by exists v.
  - intros t _ (v & Hv & Hout). unfold omits. rewrite edit_var_lookup, Hv.
    case_decide; simpl; eexists; (split; [done|]); [|done].
    simpl. intros [Hin _]%elem_of_difference. by apply Hout.
Qed.

Lemma omits_detach (o id : nat) (b : bool) (v : Var.t) (w : World) :
  vars w !! id = Some v -> omits o (edit_var id (Var.remove_child_op o b) w) id.
Proof.
  intros Hv. unfold omits. rewrite edit_var_lookup, decide_True, Hv by done.
  simpl. eexists. split; [done|]. simpl.
  intros [_ Hin]%elem_of_difference. by apply Hin, elem_of_singleton.
Qed.

Lemma add_child_op_effect (id : nat) (w : World) :
  wp (add_child_op id)
     (fun _ w' => self w' = self w /\
                  moves (self_id (self w)) (eq id) (fun _ => False) w w' /\
                  lists (self_id (self w)) w' id)
     (fun _ _ => True) w.
Proof.
  unfold add_child_op. apply wp_bind, wp_get_var.
  destruct (vars w !! id) as [v|] eqn:Hv; [|done].
  wp_steps. split; [done|]. split; [apply moves_attach|by eapply lists_attach].
Qed.

Lemma attach_loop (l : list nat) (w : World) :
  wp (for_each add_child_op l)
     (fun _ w' => self w' = self w /\
                  moves (self_id (self w)) (fun t => t ∈ l) (fun _ => False) w w' /\
                  forall t, t ∈ l -> lists (self_id (self w)) w' t)
     (fun _ _ => True) w.
Proof.
  revert w. induction l as [|id l IH]; intros w.
  - unfold wp. simpl. split; [done|]. split; [apply moves_refl|].
    by intros t ?%elem_of_nil.
  - rewrite for_each_cons. apply wp_bind.
    eapply wp_mono; [apply add_child_op_effect| |done].
    intros [] w1 (Hself & Hmoves & Hlists). cbv beta.
    eapply wp_mono; [apply IH| |done].
    intros [] w2 (Hself2 & Hmoves2 & Hlists2). rewrite Hself in Hmoves2, Hlists2.
    split; [congruence|]. split.
    + eapply moves_trans.
      * eapply moves_weaken; [| |exact Hmoves]; [|done].
        intros t <-. by left.
      * eapply moves_weaken; [| |exact Hmoves2]; [|done].
        intros t Ht. by right.
    + intros t [->|Hin]%elem_of_cons; [|by apply Hlists2].
      destruct Hmoves2 as (_ & Hkeep & _). apply Hkeep; [tauto|done].
Qed.

Lemma check_and_detach_effect (v_new v_old : pyval) (b : bool) (w : World) :
  wp (check_and_detach v_new v_old b)
     (fun _ w' =>
        self w' = self w /\
        exists new old vn vo,
          v_new = PyVar new /\ v_old = PyVar old /\
          vars w !! new = Some vn /\ vars w !! old = Some vo /\
          (is_compatible_type (Var.sym_type vn) (Var.sym_type vo) = true \/ b = true) /\
          moves (self_id (self w)) (fun _ => False) (eq old) w w' /\
          omits (self_id (self w)) w' old)
     (fun _ _ => True) w.
Proof.
  unfold check_and_detach, var_of.
  destruct v_new as [| |new| |]; try (by wp_steps).
  apply wp_bind, wp_bind, wp_get_var.
  destruct (vars w !! new) as [vn|] eqn:Hn; [|done].
  apply wp_ret. cbv beta iota.
  destruct v_old as [| |old| |]; try (by wp_steps).
  apply wp_bind, wp_bind, wp_get_var.
  destruct (vars w !! old) as [vo|] eqn:Ho; [|done].
  apply wp_ret. cbv beta iota.
  destruct (is_compatible_type (Var.sym_type vn) (Var.sym_type vo)) eqn:Hty;
    destruct b; simpl; try (by wp_steps).
  all: wp_steps; split; [done|]; exists new, old, vn, vo.
  all: repeat (split; [by auto|]).
  all: split; [apply moves_detach|by eapply omits_detach].
Qed.

Lemma detach_loop (b : bool) (pairs : list (nat * pyval)) (w : World) :
  wp (for_each (fun p => check_and_detach p.2 (PyVar p.1) b) pairs)
     (fun _ w' => self w' = self w /\
                  moves (self_id (self w)) (fun _ => False) (fun t => t ∈ pairs.*1) w w')
     (fun _ _ => True) w.
Proof.
  revert w. induction pairs as [|[old x] pairs IH]; intros w.
  - unfold wp. simpl. split; [done|]. apply moves_refl.
  - rewrite for_each_cons. apply wp_bind.
    eapply wp_mono; [apply check_and_detach_effect| |done].
    intros [] w1 (Hself & new & old' & vn & vo & _ & Hold & _ & _ & _ & Hmoves & _).
    simpl in Hold. injection Hold as <-. cbv beta.
    eapply wp_mono; [apply IH| |done].
    intros [] w2 (Hself2 & Hmoves2). rewrite Hself in Hmoves2.
    split; [congruence|].
    eapply moves_trans.
    + eapply moves_weaken; [| |exact Hmoves]; [done|]. intros t <-. by left.
    + eapply moves_weaken; [| |exact Hmoves2]; [done|]. intros t Ht. by right.
Qed.

(** One step of the binding loop and the consumer sets: the operation is
    removed from the consumers of nodes that the slot held, added to those of
    the nodes offered, and listed by every node offered; a single node that
    the slot held and that is not offered no longer lists it. *)
Lemma set_input_effect (b : bool) (n : string) (x : pyval) (w : World) :
  wp (set_input b (n, x))
     (fun _ w' =>
        exists ex,
          _input_vars (self w) !! n = Some ex /\
          self w' = set_input_var n x (self w) /\
          moves (self_id (self w)) (fun t => t ∈ held x) (fun t => t ∈ held ex) w w' /\
          (forall t, t ∈ held x -> lists (self_id (self w)) w' t) /\
          forall old, ex = PyVar old ->
            (forall new vn vo,
                x = PyVar new -> vars w !! new = Some vn -> vars w !! old = Some vo ->
                is_compatible_type (Var.sym_type vn) (Var.sym_type vo) = true \/ b = true) /\
            (old ∉ held x -> omits (self_id (self w)) w' old))
     (fun _ _ => True) w.
Proof.
  unfold set_input. apply wp_bind, wp_input_var.
  destruct (_input_vars (self w) !! n) as [ex|] eqn:Hslot; [|done].
  apply wp_bind.
  apply wp_mono with
    (Q := fun _ w1 =>
            self w1 = self w /\
            moves (self_id (self w)) (fun _ => False) (fun t => t ∈ held ex) w w1 /\
            forall old, ex = PyVar old ->
              (forall new vn vo,
                  x = PyVar new -> vars w !! new = Some vn -> vars w !! old = Some vo ->
                  is_compatible_type (Var.sym_type vn) (Var.sym_type vo) = true \/ b = true) /\
              omits (self_id (self w)) w1 old)
    (E := fun _ _ => True); [| |done].
  - case_bool_decide as Hnone; simpl.
    { apply wp_ret. split; [done|]. split; [apply moves_refl|]. by intros old ->. }
    assert (Hone : wp (check_and_detach x ex b)
              (fun _ w1 =>
                 self w1 = self w /\
                 moves (self_id (self w)) (fun _ => False) (fun t => t ∈ held ex) w w1 /\
                 forall old, ex = PyVar old ->
                   (forall new vn vo,
                       x = PyVar new -> vars w !! new = Some vn ->
                       vars w !! old = Some vo ->
                       is_compatible_type (Var.sym_type vn) (Var.sym_type vo) = true
                       \/ b = true) /\
                   omits (self_id (self w)) w1 old)
              (fun _ _ => True) w).
    { eapply wp_mono; [apply check_and_detach_effect| |done].
      intros [] w1 (Hself & new & old & vn & vo & -> & -> & Hn & Ho & Hty & Hmoves & Homits).
      split; [done|]. split.
      - eapply moves_weaken; [| |exact Hmoves]; [done|].
        intros t <-. simpl. by apply list_elem_of_singleton.
      - intros old' [= <-]. split; [|done].
        intros new' vn' vo' [= <-] Hn' Ho'. by simplify_eq. }
    destruct ex as [| |old|olds|]; try exact Hone.
    apply wp_bind. unfold iterate.
    destruct x as [|s|id|l|]; try (by wp_steps).
    + apply wp_ret.
      eapply wp_mono; [apply detach_loop| |done].
      intros [] w1 (Hself & Hmoves). split; [done|]. split; [|by intros old [=]].
      eapply moves_weaken; [| |exact Hmoves]; [done|].
      intros t Ht. simpl. apply list_elem_of_fmap in Ht as ([o' y] & -> & Hin).
      by apply elem_of_zip_l in Hin.
    + apply wp_ret.
      eapply wp_mono; [apply detach_loop| |done].
      intros [] w1 (Hself & Hmoves). split; [done|]. split; [|by intros old [=]].
      eapply moves_weaken; [| |exact Hmoves]; [done|].
      intros t Ht. simpl. apply list_elem_of_fmap in Ht as ([o' y] & -> & Hin).
      by apply elem_of_zip_l in Hin.
  - intros [] w1 (Hself1 & Hmoves1 & Hold1). apply wp_bind.
    apply wp_mono with
      (Q := fun _ w2 =>
              self w2 = self w /\
              moves (self_id (self w)) (fun t => t ∈ held x) (fun _ => False) w1 w2 /\
              forall t, t ∈ held x -> lists (self_id (self w)) w2 t)
      (E := fun _ _ => True); [| |done].
    + destruct x as [|s|id|l|]; simpl.
      * apply wp_ret. split; [done|]. split; [apply moves_refl|]. by intros t ?%elem_of_nil.
      * apply wp_ret. split; [done|]. split; [apply moves_refl|]. by intros t ?%elem_of_nil.
      * eapply wp_mono; [apply add_child_op_effect| |done].
        intros [] w2 (Hself2 & Hmoves2 & Hlists2). rewrite Hself1 in Hself2, Hmoves2, Hlists2.
        split; [done|]. split.
        -- eapply moves_weaken; [| |exact Hmoves2]; [|done].
           intros t <-. by apply list_elem_of_singleton.
        -- by intros t ->%list_elem_of_singleton.
      * eapply wp_mono; [apply attach_loop| |done].
        intros [] w2 (Hself2 & Hmoves2 & Hlists2). rewrite Hself1 in Hself2, Hmoves2, Hlists2.
        by split.
      * apply wp_ret. split; [done|]. split; [apply moves_refl|]. by intros t ?%elem_of_nil.
    + intros [] w2 (Hself2 & Hmoves2 & Hlists2). wp_step.
      exists ex. split; [done|]. split; [simpl; by rewrite Hself2|].
      split; [|split].
      * apply moves_with_self. eapply moves_trans.
        -- eapply moves_weaken; [| |exact Hmoves1]; [done|done].
        -- eapply moves_weaken; [| |exact Hmoves2]; [done|done].
      * exact Hlists2.
      * intros old Hex. destruct (Hold1 old Hex) as [Hty Homits]. split; [done|].
        intros Hnot. destruct Hmoves2 as (_ & _ & Hkeep). by apply (Hkeep old).
Qed.

(** The binding loop over pairs with distinct keys. *)
Lemma rebinding_loop (b : bool) (kvs : list (string * pyval)) :
  forall w w',
    NoDup kvs.*1 ->
    for_each (set_input b) kvs w = (inr tt, w') ->
    self_id (self w') = self_id (self w) /\
    nodes_kept w w' /\
    (forall t, ~ (exists n x, n ∈ kvs.*1 /\ _input_vars (self w) !! n = Some x /\ t ∈ held x) ->
               lists (self_id (self w)) w t -> lists (self_id (self w)) w' t) /\
    (forall t, ~ offered_by kvs t ->
               omits (self_id (self w)) w t -> omits (self_id (self w)) w' t) /\
    (forall n, n ∉ kvs.*1 -> _input_vars (self w') !! n = _input_vars (self w) !! n) /\
    forall name x ex,
      (name, x) ∈ kvs -> _input_vars (self w) !! name = Some ex ->
      _input_vars (self w') !! name = Some x /\
      (forall t, t ∈ held x -> ~ held_by_other w kvs.*1 name t ->
                 lists (self_id (self w)) w' t) /\
      forall old, ex = PyVar old ->
        (forall new vn vo,
            x = PyVar new -> vars w !! new = Some vn -> vars w !! old = Some vo ->
            is_compatible_type (Var.sym_type vn) (Var.sym_type vo) = true \/ b = true) /\
        (~ offered_by kvs old -> omits (self_id (self w)) w' old).
Proof.
  induction kvs as [|[n0 x0] rest IH]; intros w w' Hnodup Hrun.
  - injection Hrun as <-. split; [done|]. split; [apply nodes_kept_refl|].
    split; [done|]. split; [done|]. split; [done|].
    by intros name x ex Hin%elem_of_nil.
  - rewrite fmap_cons in Hnodup. apply NoDup_cons in Hnodup as [Hfresh Hnodup].
    rewrite for_each_cons, bind_run in Hrun.
    pose proof (set_input_effect b n0 x0 w) as Hstep. unfold wp in Hstep.
    destruct (set_input b (n0, x0) w) as [[e|[]] w1]; [done|].
    destruct Hstep as (ex0 & Hslot0 & Hself1 & (Hkept1 & Hlists1 & Homits1) & Hoff1 & Hold1).
    assert (Hid1 : self_id (self w1) = self_id (self w)) by by rewrite Hself1.
    assert (Hslots1 : forall n, n <> n0 ->
              _input_vars (self w1) !! n = _input_vars (self w) !! n).
    { intros n Hne. rewrite Hself1. simpl. by rewrite lookup_insert_ne. }
    assert (Hrest : forall n, n ∈ rest.*1 -> n <> n0).
    { intros n Hn ->. by apply Hfresh. }
    destruct (IH w1 w' Hnodup Hrun) as (Hid & Hkept & Hlists & Homits & Hout & Hpairs).
    rewrite Hid1 in Hid, Hlists, Homits, Hpairs.
    split; [done|]. split; [by eapply nodes_kept_trans|].
    split; [|split; [|split]].
    + intros t Hnot Ht. apply Hlists.
      * intros (n & x & Hn & Hx & Hin). apply Hnot. exists n, x.
        split; [by right|]. split; [|done]. by rewrite <- Hslots1 by by apply Hrest.
      * apply Hlists1; [|done]. intros Hin. apply Hnot. exists n0, ex0.
        split; [by left|done].
    + intros t Hnot Ht. apply Homits.
      * intros (n & x & Hn & Hin). apply Hnot. exists n, x. split; [by right|done].
      * apply Homits1; [|done]. intros Hin. apply Hnot. exists n0, x0.
        split; [by left|done].
    + intros n Hn. apply not_elem_of_cons in Hn as [Hne Hn].
      rewrite (Hout n Hn). by apply Hslots1.
    + intros name x ex Hin Hslot. simpl in Hin.
      apply elem_of_cons in Hin as [[= -> ->]|Hin].
      * rewrite Hslot0 in Hslot. injection Hslot as <-.
        split; [|split].
        -- rewrite (Hout n0 Hfresh), Hself1. simpl. by rewrite lookup_insert_eq.
        -- intros t Ht Hother. apply Hlists; [|by apply Hoff1].
           intros (n & x & Hn & Hx & Hin). apply Hother. exists n, x.
           split; [by right|]. split; [by apply Hrest|].
           split; [|done]. by rewrite <- Hslots1 by by apply Hrest.
        -- intros old Hex. destruct (Hold1 old Hex) as [Hty Homit]. split; [done|].
           intros Hnot. apply Homits.
           ++ intros (n & x & Hn & Hin). apply Hnot. exists n, x. split; [by right|done].
           ++ apply Homit. intros Hin. apply Hnot. exists n0, x0. split; [by left|done].
      * assert (Hname : name <> n0).
        { apply Hrest. apply list_elem_of_fmap. by exists (name, x). }
        destruct (Hpairs name x ex Hin) as (Hfinal & Hnew & Hold).
        { by rewrite Hslots1. }
        split; [done|]. split.
        -- intros t Ht Hother. apply Hnew; [done|].
           intros (n & y & Hn & Hne & Hy & Hty). apply Hother. exists n, y.
           split; [by right|]. split; [done|]. split; [|done].
           by rewrite <- Hslots1 by by apply Hrest.
        -- intros old Hex. destruct (Hold old Hex) as [Hty Homit]. split.
           ++ intros new vn vo Hx Hn Ho.
              pose proof (Hkept1 new) as Hkn. pose proof (Hkept1 old) as Hko.
              rewrite Hn in Hkn. rewrite Ho in Hko.
              destruct (vars w1 !! new) as [vn1|] eqn:Hn1; [|done].
              destruct (vars w1 !! old) as [vo1|] eqn:Ho1; [|done].
              destruct Hkn as (_ & Htn & _), Hko as (_ & Hto & _).
              unfold Var.sym_type. rewrite <- Htn, <- Hto.
              by apply (Hty new vn1 vo1).
           ++ intros Hnot. apply Homit. intros (n & y & Hn & Hy). apply Hnot.
              exists n, y. split; [by right|done].
Qed.

(** C4, for rebindings with distinct keys.  A rebinding that offers, for a
    slot holding a node, a node of incompatible type fails unless the type
    check is skipped.  When a rebinding succeeds, then for every slot that
    held a node and is rebound to a node: the check of the two types has
    passed or was skipped; the slot holds the new node; the operation is among
    the consumers of the new node, unless another slot named in the call held
    that node; and the operation is no longer among the consumers of the old
    node, when no pair of the call offers the old node and no other slot of
    the operation holds it. *)
Theorem rebinding_checks_type_and_moves_edge :
  (forall kvs name new old w r w',
      NoDup kvs.*1 -> (name, PyVar new) ∈ kvs ->
      incompatible_rebinding name new old w ->
      _validate_and_set_inputs k kvs false w = (r, w') ->
      exists e, r = inl e) /\
  (forall name new old w,
      incompatible_rebinding name new old w ->
      set_input false (name, PyVar new) w
      = (inl (ValueError (incompatible_subtype new old)), w)) /\
  (forall no_check_var_types kvs w w',
      NoDup kvs.*1 ->
      _validate_and_set_inputs k kvs no_check_var_types w = (inr tt, w') ->
      forall name new old,
        (name, PyVar new) ∈ kvs ->
        _input_vars (self w) !! name = Some (PyVar old) ->
        (forall vn vo,
            vars w !! new = Some vn -> vars w !! old = Some vo ->
            is_compatible_type (Var.sym_type vn) (Var.sym_type vo) = true
            \/ no_check_var_types = true) /\
        _input_vars (self w') !! name = Some (PyVar new) /\
        (~ held_by_other w kvs.*1 name new -> consumes w' new) /\
        (~ offered_by kvs old -> ~ held_elsewhere w name old -> detached w' old)).
Proof.
  split; [|split].
  - intros kvs name new old w r w' Hnodup Hin Hw Hrun.
    unfold _validate_and_set_inputs in Hrun. rewrite bind_run in Hrun.
    pose proof (for_each_preserves (fun w1 => w1 = w) check_known_key kvs.*1) as Hkeys.
    specialize (Hkeys (fun x w1 _ Hw1 => eq_trans (check_known_key_state x w1) Hw1) w eq_refl).
    destruct (for_each check_known_key kvs.*1 w) as [[e|[]] w1].
    { injection Hrun as <- _. by eexists. }
    simpl in Hkeys. subst w1. rewrite !bind_run in Hrun. simpl in Hrun.
    destruct (validate_inputs _ _ _ _) as [e|].
    { injection Hrun as <- _. by eexists. }
    simpl in Hrun. by eapply incompatible_rebinding_fails.
  - intros name new old w (Hslot & vn & vo & Hn & Ho & Hty).
    rewrite (set_input_rebind false name new old w vn vo Hslot Hn Ho).
    by rewrite Hty.
  - intros nc kvs w w' Hnodup Hrun name new old Hin Hslot.
    unfold _validate_and_set_inputs in Hrun. rewrite bind_run in Hrun.
    pose proof (for_each_preserves (fun w1 => w1 = w) check_known_key kvs.*1) as Hkeys.
    specialize (Hkeys (fun x w1 _ Hw1 => eq_trans (check_known_key_state x w1) Hw1) w eq_refl).
    destruct (for_each check_known_key kvs.*1 w) as [[e|[]] w1]; [done|].
    simpl in Hkeys. subst w1. rewrite !bind_run in Hrun. simpl in Hrun.
    destruct (validate_inputs _ _ _ _) as [e|]; [done|].
    simpl in Hrun.
    destruct (rebinding_loop nc kvs w w' Hnodup Hrun) as (Hid & _ & _ & _ & _ & Hpairs).
    destruct (Hpairs name (PyVar new) (PyVar old) Hin Hslot) as (Hfinal & Hnew & Hold).
    destruct (Hold old eq_refl) as [Hty Homits].
    split; [|split; [done|split]].
    + intros vn vo Hn Ho. by apply (Hty new vn vo).
    + intros Hother. unfold consumes. rewrite Hid.
      apply Hnew; [|done]. by apply list_elem_of_singleton.
    + intros Hoffered _. unfold detached. rewrite Hid. by apply Homits.
Qed.
End rebinding.

Lemma consumes_not_detached (w : World) (id : nat) : consumes w id -> ~ detached w id.
Proof.
  intros (v & Hv & Hin) (v' & Hv' & Hnot). rewrite Hv in Hv'. by simplify_eq.
Qed.

(** Rebinding [x] of the addition from node 0 to node 2. *)
Lemma rebinding_checks_type_and_moves_edge_witness :
  consumes
    (_validate_and_set_inputs (collab := Demo.collaborators) (Demo.add_kind VALUE)
       [("x"%string, PyVar 2)] false
       (Demo.constructed (Demo.add_kind VALUE)
          [("x"%string, PyVar 0); ("y"%string, PyVar 1)])).2 2 /\
  detached
    (_validate_and_set_inputs (collab := Demo.collaborators) (Demo.add_kind VALUE)
       [("x"%string, PyVar 2)] false
       (Demo.constructed (Demo.add_kind VALUE)
          [("x"%string, PyVar 0); ("y"%string, PyVar 1)])).2 0.
Proof.
  assert (Hslots :
    _input_vars (self (Demo.constructed (Demo.add_kind VALUE)
                         [("x"%string, PyVar 0); ("y"%string, PyVar 1)]))
    = <["x"%string := PyVar 0]> (<["y"%string := PyVar 1]> ∅)).
  { vm_compute. reflexivity. }
  destruct (proj2 (proj2 (rebinding_checks_type_and_moves_edge
                            (collab := Demo.collaborators) (Demo.add_kind VALUE)))
              false [("x"%string, PyVar 2)]
              (Demo.constructed (Demo.add_kind VALUE)
                 [("x"%string, PyVar 0); ("y"%string, PyVar 1)])
              (_validate_and_set_inputs (collab := Demo.collaborators) (Demo.add_kind VALUE)
                 [("x"%string, PyVar 2)] false
                 (Demo.constructed (Demo.add_kind VALUE)
                    [("x"%string, PyVar 0); ("y"%string, PyVar 1)])).2
              (NoDup_singleton _)
              ltac:(vm_compute; reflexivity)
              "x"%string 2%nat 0%nat)
    as (_ & _ & Hnew & Hold).
  - by apply list_elem_of_singleton.
  - rewrite Hslots. by rewrite lookup_insert_eq.
  - split.
    + apply Hnew. intros (n & x & Hn & Hne & _).
      by apply list_elem_of_singleton in Hn.
    + apply Hold.
      * intros (n & x & Hin & Ht). apply list_elem_of_singleton in Hin.
        injection Hin as -> ->. simpl in Ht. by apply list_elem_of_singleton in Ht.
      * intros (n & x & Hne & Hx & Ht). rewrite Hslots in Hx.
        rewrite lookup_insert_ne in Hx by done.
        apply lookup_insert_Some in Hx as [[<- <-]|[_ Hx]]; [|done].
        simpl in Ht. by apply list_elem_of_singleton in Ht.
Defined.

(** Rebinding [x] to the node it already holds succeeds, and the operation is
    still among the consumers of the old node. *)
Lemma rebinding_to_same_node_keeps_edge :
  _input_vars (self (Demo.constructed (Demo.add_kind VALUE)
                       [("x"%string, PyVar 0); ("y"%string, PyVar 1)])) !! "x"%string
  = Some (PyVar 0) /\
  (_validate_and_set_inputs (collab := Demo.collaborators) (Demo.add_kind VALUE)
     [("x"%string, PyVar 0)] false
     (Demo.constructed (Demo.add_kind VALUE)
        [("x"%string, PyVar 0); ("y"%string, PyVar 1)])).1 = inr tt /\
  ~ detached
      (_validate_and_set_inputs (collab := Demo.collaborators) (Demo.add_kind VALUE)
         [("x"%string, PyVar 0)] false
         (Demo.constructed (Demo.add_kind VALUE)
            [("x"%string, PyVar 0); ("y"%string, PyVar 1)])).2 0.
Proof.
  split; [by vm_compute|]. split; [by vm_compute|].
  apply consumes_not_detached.
  exists (Var.add_child_op 7 (Demo.const_node "a" [1; 2])). split.
  - vm_compute. reflexivity.
  - replace (self_id (self _)) with 7%nat by (vm_compute; reflexivity).
    by apply elem_of_union_l, elem_of_singleton.
Qed.

(** ** Inference run twice *)

Section idempotence.
Context {collab : Collaborators} (k : OpKind).

Lemma grows_append (w0 w : World) (v : Var.t) :
  grows w0 w -> grows w0 (append_output v w).2.
Proof.
  intros [Hself Hvars]. split; [done|]. intros id v0 Hid. simpl.
  rewrite lookup_insert_ne; [by apply Hvars|].
  intros <-. apply (is_fresh (dom (vars w))), elem_of_dom.
  exists v0. by apply Hvars.
Qed.

(** What a normal end of the loop body has done. *)
Lemma create_output_ok (i : nat) (n : string) (ty : mil_type)
    (sv : option builtin_val) (w : World) :
  wp (create_output k i (n, ty, sv))
     (fun _ w' => exists v, w' = (append_output v w).2 /\
                  Var._sym_type v = ty /\
                  (Var._sym_val v = sv \/ Var._sym_val v = None))
     (fun _ _ => True) w.
Proof.
  unfold create_output. wp_steps; try done.
  all: unfold wp, append_output; eexists; split; [reflexivity|]; simpl.
  all: split; [done|].
  all: try (by left).
  all: destruct sv as [b|]; [destruct (is_PList (val b))|]; auto.
Qed.

Lemma node_matches_append (w : World) (v : Var.t) (id : nat)
    (item : string * mil_type * option builtin_val) :
  node_matches w id item -> node_matches (append_output v w).2 id item.
Proof.
  intros (v0 & Hid & Hty & Hval). exists v0. split; [|done]. simpl.
  rewrite lookup_insert_ne; [done|].
  intros <-. apply (is_fresh (dom (vars w))), elem_of_dom. by exists v0.
Qed.

(** After a normal end of the creation loop the outputs are the nodes of the
    items, in order. *)
Lemma create_outputs_match (items done : list (string * mil_type * option builtin_val))
    (i : nat) (w0 w w1 : World) :
  grows w0 w ->
  is_Some (_output_vars (self w)) ->
  Forall2 (node_matches w) (outputs w) done ->
  for_enumerate (create_output k) i items w = (inr tt, w1) ->
  grows w0 w1 /\ is_Some (_output_vars (self w1)) /\
  Forall2 (node_matches w1) (outputs w1) (done ++ items).
Proof.
  revert done i w. induction items as [|[[n ty] sv] items IH];
    intros done i w Hgrows Hsome Hmatch Hrun.
  - simpl in Hrun. injection Hrun as <-. by rewrite app_nil_r.
  - rewrite for_enumerate_cons, bind_run in Hrun.
    pose proof (create_output_ok i n ty sv w) as Hstep. unfold wp in Hstep.
    destruct (create_output k i (n, ty, sv) w) as [[e|[]] w']; [done|].
    destruct Hstep as (v & -> & Hty & Hval).
    replace (done ++ (n, ty, sv) :: items) with ((done ++ [(n, ty, sv)]) ++ items)
      by by rewrite <- app_assoc.
    apply (IH _ (S i) (append_output v w).2); try done.
    + by apply grows_append.
    + unfold outputs. simpl. apply Forall2_app.
      * eapply Forall2_impl; [exact Hmatch|]. intros id item. apply node_matches_append.
      * constructor; [|constructor]. exists v. simpl. by rewrite lookup_insert_eq.
Qed.
Lemma inputs_exist_referenced (w : World) (id : nat) :
  inputs_exist w -> referenced w id -> is_Some (vars w !! id).
Proof.
  intros Hex [n [Hn|(l & Hn & Hin)]].
  - exact (Hex n _ Hn).
  - pose proof (Hex n _ Hn) as Hl. simpl in Hl.
    rewrite Forall_forall in Hl. by apply Hl.
Qed.

Lemma grows_same_inputs (w w' : World) :
  inputs_exist w -> grows w w' -> same_inputs w w'.
Proof.
  intros Hex [Hself Hvars]. split; [done|]. intros id Hid.
  destruct (inputs_exist_referenced w id Hex Hid) as [v Hv].
  rewrite Hv. by apply Hvars.
Qed.

Lemma _auto_val_ext (tys : list mil_type) (w w' : World) :
  value_inference k w' = value_inference k w ->
  (_auto_val k tys w').1 = (_auto_val k tys w).1.
Proof.
  intros Hvi. unfold _auto_val. rewrite !bind_run. simpl. rewrite Hvi.
  destruct (value_inference k w) as [[]|vals]; try done.
  by destruct (negb _).
Qed.

Lemma values_kept_refl (w : World) : values_kept w w.
Proof. intros id. by destruct (vars w !! id). Qed.

Lemma values_kept_marker (w1 w' : World) (o : nat) (s : gset nat) :
  values_kept w1 w' -> values_kept w1 (edit_var o (Var.set_nonreplaceable s) w').
Proof.
  intros Hkept id. specialize (Hkept id). rewrite edit_var_lookup.
  destruct (decide (o = id)) as [->|]; [|done].
  destruct (vars w1 !! id), (vars w' !! id); done.
Qed.

Lemma refresh_outputs_kept (l : list nat) (w1 w' : World) :
  (forall o, o ∈ l -> is_Some (vars w1 !! o)) ->
  rerun_inv w1 w' ->
  wp (for_each _set_nonreplaceable_vars_upstream l) (fun _ => rerun_inv w1)
     (fun _ _ => False) w'.
Proof.
  intros Hex Hinv. apply wp_for_each; [done|].
  intros o w'' Ho [Hout Hkept]. unfold _set_nonreplaceable_vars_upstream.
  apply wp_bind, wp_get_var.
  pose proof (Hkept o) as Hk. destruct (Hex o Ho) as [v Hv]. rewrite Hv in Hk.
  destruct (vars w'' !! o) as [v'|]; [|done].
  wp_steps. split; [done|]. by apply values_kept_marker.
Qed.

(** Checking again an output that the first inference has made. *)
Lemma check_output_again (i id : nat) (item : string * mil_type * option builtin_val)
    (w1 w' : World) :
  (forall t, is_compatible_type t t = true) ->
  (forall o, o ∈ outputs w1 -> is_Some (vars w1 !! o)) ->
  outputs w1 !! i = Some id ->
  node_matches w1 id item ->
  (forall b, item.2 = Some b -> nan_free (val b)) ->
  rerun_inv w1 w' ->
  wp (check_output false i (item.1.2, item.2)) (fun _ => rerun_inv w1)
     (fun _ _ => False) w'.
Proof.
  intros Hrefl Hex Hi (v & Hid & Hty & Hval) Hnan [Hout Hkept].
  destruct item as [[n ty] sv]. simpl in *.
  pose proof (Hkept id) as Hk. rewrite Hid in Hk.
  destruct (vars w' !! id) as [v'|] eqn:Hid'; [|done]. destruct Hk as [Hty' Hval'].
  assert (Hget : get_var id w' = (inr v', w')).
  { unfold get_var. by rewrite Hid'. }
  unfold check_output. apply wp_bind, wp_get. rewrite Hout. fold (outputs w1).
  rewrite Hi. apply wp_bind, wp_ret.
  apply wp_bind. eapply wp_eq; [exact Hget|]. cbv beta iota.
  unfold Var.sym_type. rewrite Hty', Hty, Hrefl. simpl.
  apply wp_bind, wp_ret. apply wp_bind, wp_ret.
  apply wp_bind. eapply wp_eq; [exact Hget|]. cbv beta iota.
  apply wp_bind. apply wp_eq with (r := inr tt) (w' := w').
  { unfold Var.sym_val. rewrite Hval'. destruct sv as [b|]; [|done].
    destruct Hval as [->| ->]; [|done]. simpl.
    rewrite bind_run. unfold lift. by rewrite np_any_ne_refl by by apply Hnan. }
  apply wp_bind, wp_get. rewrite Hout. fold (outputs w1).
  by apply refresh_outputs_kept.
Qed.

Lemma wp_ok {A} (m : M A) (Q : A -> World -> Prop) (w : World) :
  wp m Q (fun _ _ => False) w -> exists x w', m w = (inr x, w') /\ Q x w'.
Proof.
  unfold wp. destruct (m w) as [[e|x] w']; [done|]. intros HQ. by exists x, w'.
Qed.

Lemma default_output_names_length (tys : list mil_type) :
  (length tys <= length (default_output_names tys))%nat.
Proof.
  unfold default_output_names. case_bool_decide.
  - by rewrite length_fmap, length_seq.
  - simpl. lia.
Qed.

(** C2, for values without NaN and kinds that name every output.  Let the
    methods of the kind read nothing but the inputs, let the kind name every
    output it types and infer no value with a NaN entry, let every type be
    compatible with itself and every input refer to a node.  If the first
    inference of an operation returns normally, then an inference run again
    on the state it leaves returns normally too, raising no ValueError on a
    type or a value, and leaves the list of outputs and the type and value
    of every node as they were. *)
Theorem reinference_is_idempotent (w w1 : World) :
  (forall t, is_compatible_type t t = true) ->
  reads_inputs_only k ->
  names_cover_types k w ->
  infers_no_nan k w ->
  inputs_exist w ->
  _output_vars (self w) = None ->
  type_value_inference k false w = (inr tt, w1) ->
  exists w2,
    type_value_inference k false w1 = (inr tt, w2) /\
    _output_vars (self w2) = _output_vars (self w1) /\
    values_kept w1 w2.
Proof.
  intros Hrefl Hlocal Hcover Hnan Hex Hnone Hrun.
  rewrite type_value_inference_run in Hrun.
  destruct (type_inference k w) as [e|t] eqn:Ht; [done|].
  destruct (_auto_val k (type_tuple t) w).1 as [e|vals] eqn:Hvals; [done|].
  destruct (names_tuple (output_names k w) (type_tuple t)) as [e|names] eqn:Hnames; [done|].
  rewrite Hnone in Hrun.
  specialize (Hcover t names Ht Hnames).
  specialize (Hnan t vals Ht Hvals).
  assert (Hg0 : grows w (with_self (set_output_vars (Some [])) w)) by by split.
  assert (Hs0 : is_Some (_output_vars (self (with_self (set_output_vars (Some [])) w))))
    by by eexists.
  assert (Hm0 : Forall2 (node_matches (with_self (set_output_vars (Some [])) w))
                        (outputs (with_self (set_output_vars (Some [])) w)) [])
    by constructor.
  destruct (create_outputs_match _ [] 0 w _ w1 Hg0 Hs0 Hm0 Hrun)
    as ((Hself & Hvars) & [outs Houts] & Hmatch).
  assert (Hgrows : grows w w1) by by split.
  destruct (Hlocal w w1 (grows_same_inputs w w1 Hex Hgrows)) as (Hti & Hvi & Hon).
  simpl in Hmatch.
  assert (Hexist : forall o, o ∈ outputs w1 -> is_Some (vars w1 !! o)).
  { intros o [j Hj]%list_elem_of_lookup.
    destruct (Forall2_lookup_l _ _ _ _ _ Hmatch Hj) as (item & _ & v & Hv & _).
    by exists v. }
  assert (Hloop : wp (for_enumerate (check_output false) 0 (zip (type_tuple t) vals))
                     (fun _ => rerun_inv w1) (fun _ _ => False) w1).
  { apply wp_for_enumerate; [split; [done|apply values_kept_refl]|].
    intros j [ty sv] w' Hj Hinv. simpl.
    apply lookup_zip_with_Some in Hj as (ty' & sv' & Heq & Hty & Hsv).
    injection Heq as <- <-.
    destruct (lookup_lt_is_Some_2 names j) as [n Hn].
    { apply lookup_lt_Some in Hty. lia. }
    assert (Hitem : zip3 names (type_tuple t) vals !! j = Some (n, ty, sv)).
    { unfold zip3. rewrite !lookup_zip_with, Hn. simpl. rewrite Hty. simpl.
      by rewrite Hsv. }
    destruct (Forall2_lookup_r _ _ _ _ _ Hmatch Hitem) as (id & Hid & Hnode).
    apply (check_output_again j id (n, ty, sv) w1 w'); try done.
    intros b Hb. simpl in Hb. subst sv. apply Hnan.
    by eapply list_elem_of_lookup_2. }
  apply wp_ok in Hloop as ([] & w2 & Hrun2 & Hout2 & Hkept2).
  exists w2. split; [|done].
  rewrite type_value_inference_run, Hti, Ht.
  rewrite (_auto_val_ext _ _ _ Hvi), Hvals, Hon, Hnames, Houts. exact Hrun2.
Qed.
End idempotence.

Lemma input_node_same_inputs (w w' : World) (slot : string) :
  same_inputs w w' -> Demo.input_node w' slot = Demo.input_node w slot.
Proof.
  intros [Hself Hvars]. unfold Demo.input_node.
  assert (Hin : _input_vars (self w') = _input_vars (self w)).
  { exact (f_equal _input_vars Hself). }
  rewrite Hin. destruct (_input_vars (self w) !! slot) as [[]|] eqn:Hslot; try done.
  apply Hvars. exists slot. by left.
Qed.

Lemma sum_kind_reads_inputs_only : reads_inputs_only Demo.sum_kind.
Proof.
  intros w w' Hsame. simpl.
  unfold Demo.add_type_inference, Demo.add_values.
  by rewrite !(input_node_same_inputs w w').
Qed.

(** The ungated addition of [1, 2] and [3, 4], inferred twice. *)
Lemma reinference_is_idempotent_witness :
  exists w2,
    type_value_inference (collab := Demo.collaborators) Demo.sum_kind false
      (Demo.inferred Demo.sum_kind [("x"%string, PyVar 0); ("y"%string, PyVar 1)])
    = (inr tt, w2) /\
    _output_vars (self w2)
    = _output_vars
        (self (Demo.inferred Demo.sum_kind [("x"%string, PyVar 0); ("y"%string, PyVar 1)])) /\
    values_kept
      (Demo.inferred Demo.sum_kind [("x"%string, PyVar 0); ("y"%string, PyVar 1)]) w2.
Proof.
  apply (reinference_is_idempotent (collab := Demo.collaborators) Demo.sum_kind
           (Demo.constructed Demo.sum_kind [("x"%string, PyVar 0); ("y"%string, PyVar 1)])).
  - intros t. simpl. unfold Demo.compatible. by rewrite bool_decide_eq_true_2.
  - exact sum_kind_reads_inputs_only.
  - intros t names _ Hnames. simpl in Hnames. injection Hnames as <-.
    apply default_output_names_length.
  - intros t vals Ht Hvals b Hb.
    vm_compute in Ht. injection Ht as <-. vm_compute in Hvals. injection Hvals as <-.
    apply list_elem_of_singleton in Hb. injection Hb as ->.
    unfold nan_free. simpl. intros Hin. apply list_elem_of_In in Hin.
    simpl in Hin. by destruct Hin as [Hin|[Hin|Hin]].
  - apply (bool_decide_unpack (inputs_exist _)). vm_compute. exact I.
  - vm_compute. reflexivity.
  - vm_compute. reflexivity.
Defined.

(** Without the two restrictions the second inference fails on unchanged
    inputs.  An fp32 output holding a NaN: the first inference returns, and
    the second compares the NaN it infers with the NaN the output holds,
    finds them different and not symbolic-compatible, and raises the
    ValueError on the value.  A kind that types two outputs and names one:
    the first inference creates one output, and the second looks for a
    second one and ends in IndexError. *)
Lemma reinference_raises_on_nan_output :
  (type_value_inference (collab := Demo.collaborators) Demo.nan_kind false
     (Demo.constructed Demo.nan_kind [])).1 = inr tt /\
  Var._sym_val <$> vars (Demo.inferred Demo.nan_kind []) !! 7%nat
  = Some (Some (mk_builtin (TTensor fp32 [Dim 1]) (PArr (mk_ndarray [1%nat] [NaN])))) /\
  (type_value_inference (collab := Demo.collaborators) Demo.nan_kind false
     (Demo.inferred Demo.nan_kind [])).1
  = inl (ValueError (value_inference_differs (PyStr "op_7"))) /\
  (type_value_inference (collab := Demo.collaborators) Demo.pair_kind false
     (Demo.constructed Demo.pair_kind [])).1 = inr tt /\
  (type_value_inference (collab := Demo.collaborators) Demo.pair_kind false
     (Demo.inferred Demo.pair_kind [])).1 = inl IndexError.
Proof.
  split; [by vm_compute|]. split; [by vm_compute|]. split; [by vm_compute|].
  split; by vm_compute.
Qed.

(** * Further properties of the source *)

(** ** _is_compatible_symbolic_array *)

Lemma py_ne_sym (t v : scalar) : py_ne t v = py_ne v t.
Proof.
  destruct t as [a|a|], v as [b|b|]; simpl; try done.
  - by rewrite (bool_decide_ext (Num a = Num b) (Num b = Num a)).
  - by rewrite (bool_decide_ext (Sym a = Sym b) (Sym b = Sym a)).
Qed.

Lemma compatible_entries_sym (a b : list scalar) :
  compatible_entries (zip a b) = compatible_entries (zip b a).
Proof.
  revert b. induction a as [|x a IH]; intros [|y b]; try done.
  simpl. rewrite (py_ne_sym x y), IH.
  by destruct (is_symbolic x), (is_symbolic y).
Qed.

Lemma compatible_entries_refl (a : list scalar) :
  compatible_entries (zip a a) = true <-> NaN ∉ a.
Proof.
  induction a as [|x a IH].
  - split; [|done]. by intros _ Hin%elem_of_nil.
  - rewrite not_elem_of_cons, <- IH. destruct x as [z|n|]; simpl.
    + rewrite bool_decide_eq_true_2 by done. simpl. by intuition.
    + by intuition.
    + by intuition.
Qed.

Lemma compatible_entries_symbolic (a b : list scalar) :
  Forall (fun x => is_symbolic x = true) a -> compatible_entries (zip a b) = true.
Proof.
  intros Ha. revert b. induction Ha as [|x a Hx Ha IH]; intros [|y b]; try done.
  simpl. rewrite Hx. simpl. apply IH.
Qed.

(** X1. [_is_compatible_symbolic_array] relates an array to itself exactly
    when the array has no NaN entry, does not depend on the order of its
    arguments, and accepts an array all of whose entries are symbols against
    every array of its shape. *)
Theorem symbolic_array_compatibility_relation :
  (forall a, _is_compatible_symbolic_array a a = true <-> NaN ∉ flatten a) /\
  (forall a b, _is_compatible_symbolic_array a b = _is_compatible_symbolic_array b a) /\
  (forall a b,
      shape a = shape b -> Forall (fun x => is_symbolic x = true) (flatten a) ->
      _is_compatible_symbolic_array a b = true).
Proof.
  split; [|split].
  - intros a. unfold _is_compatible_symbolic_array.
    rewrite bool_decide_eq_true_2 by done. simpl. apply compatible_entries_refl.
  - intros a b. unfold _is_compatible_symbolic_array.
    rewrite (bool_decide_ext (shape a = shape b) (shape b = shape a)) by done.
    by rewrite compatible_entries_sym.
  - intros a b Hshape Ha. unfold _is_compatible_symbolic_array.
    rewrite bool_decide_eq_true_2 by done. by apply compatible_entries_symbolic.
Qed.

(** An array of symbols against numbers, and an array holding a NaN against
    itself. *)
Lemma symbolic_array_compatibility_relation_witness :
  _is_compatible_symbolic_array (mk_ndarray [2%nat] [Sym "is0"; Sym "is2"])
                                (mk_ndarray [2%nat] [Num 1; Num (-1)]) = true /\
  _is_compatible_symbolic_array (mk_ndarray [2%nat] [Num 1; NaN])
                                (mk_ndarray [2%nat] [Num 1; NaN]) <> true.
Proof.
  split.
  - apply (proj2 (proj2 symbolic_array_compatibility_relation)).
    + reflexivity.
    + repeat constructor.
  - intros Hc. apply (proj1 symbolic_array_compatibility_relation) in Hc.
    apply Hc. simpl. apply list_elem_of_In. simpl. tauto.
Defined.

(** ** precondition *)

Lemma precondition_allowed (allow : Z) (func : World -> exn + vi_ret) (w : World)
    (has_value has_symbol has_none : bool) :
  (classify_inputs w).1 = inr (has_value, has_symbol, has_none) ->
  (has_value = true -> allows allow VALUE = true) ->
  (has_symbol = true -> allows allow SYMBOL = true) ->
  (has_none = true -> allows allow NONE = true) ->
  precondition allow func w = func w.
Proof.
  unfold allows. intros Hc Hv Hs Hn. unfold precondition. rewrite Hc.
  destruct has_value; [rewrite Hv by done|]; simpl.
  all: destruct has_symbol; [rewrite Hs by done|]; simpl.
  all: destruct has_none; [rewrite Hn by done|]; simpl.
  all: done.
Qed.

(** X2. The decorated value inference is the undecorated one whenever every
    flag that the required inputs raise is allowed; with the default allowance
    [ALL] that is whenever the inputs can be classified. *)
Theorem precondition_runs_when_flags_allowed (allow : Z)
    (func : World -> exn + vi_ret) (w : World) (has_value has_symbol has_none : bool) :
  (classify_inputs w).1 = inr (has_value, has_symbol, has_none) ->
  ((has_value = true -> allows allow VALUE = true) ->
   (has_symbol = true -> allows allow SYMBOL = true) ->
   (has_none = true -> allows allow NONE = true) ->
   precondition allow func w = func w) /\
  precondition ALL func w = func w.
Proof.
  intros Hc. split.
  - by apply precondition_allowed.
  - by apply (precondition_allowed ALL func w has_value has_symbol has_none).
Qed.

(** Scenario A: both inputs of the addition are materialized and VALUE is
    allowed. *)
Lemma precondition_runs_when_flags_allowed_witness :
  precondition VALUE Demo.add_values
    (Demo.constructed (Demo.add_kind VALUE) [("x"%string, PyVar 0); ("y"%string, PyVar 1)])
  = Demo.add_values
      (Demo.constructed (Demo.add_kind VALUE) [("x"%string, PyVar 0); ("y"%string, PyVar 1)]).
Proof.
  refine (proj1 (precondition_runs_when_flags_allowed VALUE Demo.add_values
                   (Demo.constructed (Demo.add_kind VALUE)
                      [("x"%string, PyVar 0); ("y"%string, PyVar 1)])
                   true false false _) _ _ _).
  - vm_compute. reflexivity.
  - reflexivity.
  - discriminate.
  - discriminate.
Defined.

Lemma land_low_bits (allow flag : Z) :
  Z.land ALL flag = flag -> Z.land (Z.land allow ALL) flag = Z.land allow flag.
Proof. intros Hflag. by rewrite <- Z.land_assoc, Hflag. Qed.

(** X3. Only the three bits VALUE, SYMBOL and NONE of the allowance are read:
    the decorator built from [allow] is the one built from [allow & ALL]. *)
Theorem precondition_reads_three_bits (allow : Z) (func : World -> exn + vi_ret)
    (w : World) :
  precondition allow func w = precondition (Z.land allow ALL) func w.
Proof.
  unfold precondition.
  by rewrite !land_low_bits.
Qed.

Lemma wp_fold_each {A S} (I : S -> World -> Prop) (body : A -> S -> M S) (l : list A)
    (E : exn -> World -> Prop) s w :
  I s w ->
  (forall x s' w', x ∈ l -> I s' w' -> wp (body x s') I E w') ->
  wp (fold_each body l s) I E w.
Proof.
  revert s w. induction l as [|x l IH]; intros s w Hw Hbody; simpl; [done|].
  apply wp_bind. eapply wp_mono; [apply Hbody; [left|done] | |done].
  intros s' w' Hw'. apply IH; [done|].
  intros y s'' w'' Hy. apply Hbody. by right.
Qed.

(** Classifying a slot reads the state, and what it raises is never the
    exception that [_auto_val] catches. *)
Lemma classify_slot_reads (entry : string * InputType) (has : flags) (w : World) :
  wp (classify_slot entry has) (fun _ w' => w' = w)
     (fun e w' => w' = w /\ not_caught e) w.
Proof.
  destruct entry as [n t]. unfold classify_slot, iterate, process_obj, var_of.
  wp_steps; try done.
  all: try (apply wp_fold_each; [done|]; intros x s' w' _ ->).
  all: wp_steps; try done.
Qed.

Lemma classify_unbound_slot (n : string) (t : InputType) (has : flags) (w : World) :
  optional t = false -> _input_vars (self w) !! n = Some PyNone ->
  exists e, classify_slot (n, t) has w = (inl e, w) /\ not_caught e.
Proof.
  intros Hopt Hslot. unfold classify_slot. rewrite Hopt.
  destruct (is_tuple_input t).
  - exists TypeError. split; [|done].
    rewrite bind_run. unfold input_var. rewrite Hslot. by rewrite bind_run.
  - exists AttributeError. split; [|done].
    rewrite bind_run. unfold input_var. rewrite Hslot.
    unfold process_obj. by rewrite bind_run.
Qed.

Lemma classify_unbound_fails (ts : list (string * InputType)) (n : string)
    (t : InputType) (has : flags) (w : World) :
  (n, t) ∈ ts -> optional t = false -> _input_vars (self w) !! n = Some PyNone ->
  exists e, fold_each classify_slot ts has w = (inl e, w) /\ not_caught e.
Proof.
  intros Hin Hopt Hslot. revert has.
  induction ts as [|entry ts IH]; intros has; [by apply elem_of_nil in Hin|].
  rewrite fold_each_cons, bind_run.
  apply elem_of_cons in Hin as [<-|Hin].
  - destruct (classify_unbound_slot n t has w Hopt Hslot) as (e & -> & He).
    by exists e.
  - pose proof (classify_slot_reads entry has w) as Hstep. unfold wp in Hstep.
    destruct (classify_slot entry has w) as [[e|has'] w'].
    + destruct Hstep as [-> He]. by exists e.
    + subst w'. by apply IH.
Qed.

(** X4. The gate does not cover an unbound required input: when a required
    slot holds None, classifying the inputs raises an exception other than
    NotImplementedError (the attribute or iteration error of Python on None),
    the decorated value inference raises it whatever it allows, and
    [_auto_val] lets it through instead of answering with unknown values. *)
Theorem gate_fails_hard_on_unbound_required_input (allow : Z)
    (func : World -> exn + vi_ret) (w : World) (n : string) (t : InputType) :
  (n, t) ∈ _input_types (self w) -> optional t = false ->
  _input_vars (self w) !! n = Some PyNone ->
  exists e,
    not_caught e /\
    precondition allow func w = inl e /\
    forall k tys, value_inference k = precondition allow func ->
                  _auto_val k tys w = (inl e, w).
Proof.
  intros Hin Hopt Hslot.
  destruct (classify_unbound_fails (_input_types (self w)) n t (false, false, false) w
              Hin Hopt Hslot) as (e & Hrun & He).
  exists e. split; [done|].
  assert (Hpre : precondition allow func w = inl e).
  { unfold precondition, classify_inputs. rewrite bind_run. simpl. by rewrite Hrun. }
  split; [done|]. intros k tys Hk.
  unfold _auto_val. rewrite bind_run. simpl. rewrite Hk, Hpre.
  destruct e; try done. by destruct (He m).
Qed.

(** The addition constructed without [y]: construction fails, and the object
    it leaves has [y] unbound. *)
Lemma gate_fails_hard_on_unbound_required_input_witness :
  exists e,
    not_caught e /\
    precondition VALUE Demo.add_values
      (Demo.constructed (Demo.add_kind VALUE) [("x"%string, PyVar 0)]) = inl e /\
    forall k tys, value_inference k = precondition VALUE Demo.add_values ->
                  _auto_val k tys
                    (Demo.constructed (Demo.add_kind VALUE) [("x"%string, PyVar 0)])
                  = (inl e, Demo.constructed (Demo.add_kind VALUE) [("x"%string, PyVar 0)]).
Proof.
  apply (gate_fails_hard_on_unbound_required_input VALUE Demo.add_values
           (Demo.constructed (Demo.add_kind VALUE) [("x"%string, PyVar 0)])
           "y"%string Demo.tensor_in).
  - apply list_elem_of_In. vm_compute. tauto.
  - reflexivity.
  - vm_compute. reflexivity.
Defined.

(** ** _auto_val *)

Lemma all_known_Some (vs : list vi_val) : all_known (Some <$> vs) = true.
Proof.
  unfold all_known. rewrite all_known_foldl. simpl.
  induction vs as [|v vs IH]; [done|]. rewrite fmap_cons. simpl. exact IH.
Qed.

Lemma zip_with_known (tys : list mil_type) (vs : list vi_val) :
  zip_with (fun t v => (fun x => mk_builtin t (payload_of x)) <$> v) tys (Some <$> vs)
  = zip_with (fun t v => Some (mk_builtin t (payload_of v))) tys vs.
Proof.
  revert vs. induction tys as [|t tys IH]; intros [|v vs]; try done.
  rewrite fmap_cons. simpl. by rewrite IH.
Qed.

(** X5. When the value inference returns candidates that are all known,
    [_auto_val] pairs them with the output types in order, each candidate
    wrapped under its type (a [mil_list] by the list it holds), as many as
    the shorter of the two sequences, and leaves the state as it is; an
    exception of the value inference other than NotImplementedError goes on
    to the caller. *)
Theorem auto_val_wraps_known_values (k : OpKind) (tys : list mil_type) (w : World) :
  (forall vals vs,
      value_inference k w = inr vals -> as_tuple vals = Some <$> vs ->
      _auto_val k tys w
      = (inr (zip_with (fun t v => Some (mk_builtin t (payload_of v))) tys vs), w)) /\
  (forall e, value_inference k w = inl e -> not_caught e ->
             _auto_val k tys w = (inl e, w)).
Proof.
  split.
  - intros vals vs Hvi Hvs. unfold _auto_val. rewrite bind_run. simpl.
    rewrite Hvi, Hvs, all_known_Some. simpl. by rewrite zip_with_known.
  - intros e Hvi He. unfold _auto_val. rewrite bind_run. simpl. rewrite Hvi.
    destruct e; try done. by destruct (He m).
Qed.

(** Scenario A: the addition of [1, 2] and [3, 4]. *)
Lemma auto_val_wraps_known_values_witness :
  _auto_val Demo.sum_kind [TTensor int32 [Dim 2]]
    (Demo.constructed Demo.sum_kind [("x"%string, PyVar 0); ("y"%string, PyVar 1)])
  = (inr [Some (Demo.vec [4; 6])],
     Demo.constructed Demo.sum_kind [("x"%string, PyVar 0); ("y"%string, PyVar 1)]).
Proof.
  apply (proj1 (auto_val_wraps_known_values Demo.sum_kind [TTensor int32 [Dim 2]]
                  (Demo.constructed Demo.sum_kind
                     [("x"%string, PyVar 0); ("y"%string, PyVar 1)]))
           (VI_single (Some (Raw (mk_ndarray [2%nat] [Num 4; Num 6]))))
           [Raw (mk_ndarray [2%nat] [Num 4; Num 6])]).
  - vm_compute. reflexivity.
  - reflexivity.
Defined.

(** ** Re-inference against existing outputs *)

Section reinference.
Context {collab : Collaborators}.

Lemma values_kept_trans (w0 w1 w2 : World) :
  values_kept w0 w1 -> values_kept w1 w2 -> values_kept w0 w2.
Proof.
  intros H01 H12 id. specialize (H01 id). specialize (H12 id).
  destruct (vars w0 !! id), (vars w1 !! id), (vars w2 !! id); try done.
  destruct H01, H12. split; congruence.
Qed.

(** Refreshing the markers keeps the outputs and every type and value, and
    raises nothing but for a reference to no node. *)
Lemma refresh_outputs_reads (l : list nat) (w0 w : World) :
  rerun_inv w0 w ->
  wp (for_each _set_nonreplaceable_vars_upstream l) (fun _ => rerun_inv w0)
     (fun e w' => e = ReferenceError /\ rerun_inv w0 w') w.
Proof.
  intros Hw. apply wp_for_each; [done|].
  intros o w' _ [Hout Hkept]. unfold _set_nonreplaceable_vars_upstream.
  wp_steps; try done. split; [done|]. by apply values_kept_marker.
Qed.

(** Writing twice what is written once. *)
Lemma edit_var_idem (id : nat) (f : Var.t -> Var.t) (w : World) :
  (forall v, f (f v) = f v) -> edit_var id f (edit_var id f w) = edit_var id f w.
Proof.
  intros Hf. unfold edit_var, with_vars. simpl. f_equal.
  destruct (vars w !! id) as [v|] eqn:Hv.
  - rewrite lookup_insert_eq. by rewrite insert_insert_eq, Hf.
  - by rewrite Hv.
Qed.

(** What the check of one output does when it overwrites. *)
Lemma check_output_overwrite (i id : nat) (ty : mil_type) (sv : option builtin_val)
    (v : Var.t) (w : World) :
  outputs w !! i = Some id -> vars w !! id = Some v ->
  check_output true i (ty, sv) w
  = for_each _set_nonreplaceable_vars_upstream (outputs w)
             (edit_var id (Var.set_sym_val sv) (edit_var id (Var.set_sym_type ty) w)).
Proof.
  intros Hi Hid. unfold check_output, outputs in *.
  rewrite bind_run. simpl. rewrite Hi.
  rewrite bind_run. simpl. rewrite bind_run. unfold get_var at 1. rewrite Hid.
  rewrite bind_run. simpl. rewrite bind_run. simpl.
  rewrite bind_run. unfold get_var. rewrite !edit_var_lookup.
  rewrite !decide_True by done. rewrite Hid. simpl.
  rewrite bind_run.
  destruct sv as [b|]; simpl; [|by rewrite bind_run].
  change (Var.sym_val (Var.set_sym_val (Some b) (Var.set_sym_type ty v)))
    with (Some (val b)).
  unfold lift. destruct (np_any_ne_self (val b)) as [differs ->].
  destruct differs; [|done].
  rewrite bind_run. cbv beta iota. unfold update_var, modify. cbv beta iota.
  rewrite edit_var_idem by done. by rewrite bind_run.
Qed.

(** X6. A re-inference that overwrites replaces the type and the value of an
    existing output by the inferred ones and raises no error on a changed
    type or value: the check of the output ends normally or with the
    exception for a reference to no node, and in both cases the node has the
    inferred type and value. *)
Theorem overwrite_replaces_type_and_value (i id : nat) (ty : mil_type)
    (sv : option builtin_val) (v : Var.t) (w : World) (r : exn + unit) (w' : World) :
  outputs w !! i = Some id -> vars w !! id = Some v ->
  check_output true i (ty, sv) w = (r, w') ->
  (r = inr tt \/ r = inl ReferenceError) /\
  _output_vars (self w') = _output_vars (self w) /\
  exists v', vars w' !! id = Some v' /\ Var._sym_type v' = ty /\ Var._sym_val v' = sv.
Proof.
  intros Hi Hid Hrun. rewrite (check_output_overwrite i id ty sv v w Hi Hid) in Hrun.
  set (w2 := edit_var id (Var.set_sym_val sv) (edit_var id (Var.set_sym_type ty) w)) in *.
  pose proof (refresh_outputs_reads (outputs w) w2 w2 (conj eq_refl (values_kept_refl _)))
    as Hwp.
  apply (wp_run _ _ _ _ _ _ Hwp) in Hrun.
  assert (Hnode : exists v2, vars w2 !! id = Some v2 /\
                             Var._sym_type v2 = ty /\ Var._sym_val v2 = sv).
  { unfold w2. rewrite !edit_var_lookup, !decide_True by done. rewrite Hid.
    by eexists. }
  destruct Hnode as (v2 & Hv2 & Hty & Hval).
  assert (Hfinal : rerun_inv w2 w' -> _output_vars (self w') = _output_vars (self w) /\
            exists v', vars w' !! id = Some v' /\ Var._sym_type v' = ty /\
                       Var._sym_val v' = sv).
  { intros [Hout Hkept]. split; [done|]. specialize (Hkept id). rewrite Hv2 in Hkept.
    destruct (vars w' !! id) as [v'|]; [|done]. destruct Hkept as [Hty' Hval'].
    exists v'. split; [done|]. split; congruence. }
  destruct r as [e|[]].
  - destruct Hrun as [-> Hinv]. split; [by right|]. by apply Hfinal.
  - split; [by left|]. by apply Hfinal.
Qed.

(** X7. A re-inference that does not overwrite stops at an output whose
    inferred type is not compatible with the type the node has: it raises the
    ValueError on the type, naming the node, before any value is compared and
    without changing the state; and an inferred output beyond the existing
    ones ends it with IndexError. *)
Theorem type_drift_is_raised (i : nat) (ty : mil_type) (sv : option builtin_val)
    (w : World) :
  (forall id v,
      outputs w !! i = Some id -> vars w !! id = Some v ->
      is_compatible_type ty (Var.sym_type v) = false ->
      check_output false i (ty, sv) w
      = (inl (ValueError (type_changes (Var.name v))), w)) /\
  (forall b, outputs w !! i = None ->
             check_output b i (ty, sv) w = (inl IndexError, w)).
Proof.
  split.
  - intros id v Hi Hid Hty. unfold check_output, outputs in *.
    rewrite bind_run. simpl. rewrite Hi.
    rewrite bind_run. simpl. rewrite bind_run. unfold get_var at 1. rewrite Hid.
    by rewrite Hty.
  - intros b Hi. unfold check_output, outputs in *.
    rewrite bind_run. simpl. rewrite Hi. by rewrite bind_run.
Qed.

End reinference.

(** Overwriting the output of the inferred addition with another value. *)
Lemma overwrite_replaces_type_and_value_witness :
  exists v',
    vars (check_output (collab := Demo.collaborators) true 0
            (TTensor int32 [Dim 2], Some (Demo.vec [4; 7]))
            (Demo.inferred Demo.sum_kind [("x"%string, PyVar 0); ("y"%string, PyVar 1)])).2
      !! 7%nat = Some v' /\
    Var._sym_type v' = TTensor int32 [Dim 2] /\
    Var._sym_val v' = Some (Demo.vec [4; 7]).
Proof.
  refine (proj2 (proj2 (overwrite_replaces_type_and_value (collab := Demo.collaborators)
            0 7 (TTensor int32 [Dim 2]) (Some (Demo.vec [4; 7]))
            (Var.mk (PyStr "op_7") (TTensor int32 [Dim 2]) (Some (Demo.vec [4; 6]))
                    (Some 7%nat) (Some 0%nat) ∅ ∅ PlainVar)
            (Demo.inferred Demo.sum_kind [("x"%string, PyVar 0); ("y"%string, PyVar 1)])
            _ _ _ _ (surjective_pairing _)))).
  - vm_compute. reflexivity.
  - vm_compute. reflexivity.
Defined.

(** The output of the inferred addition against an inferred type of another
    length. *)
Lemma type_drift_is_raised_witness :
  check_output (collab := Demo.collaborators) false 0
    (TTensor int32 [Dim 3], Some (Demo.vec [1; 1; 1]))
    (Demo.inferred Demo.sum_kind [("x"%string, PyVar 0); ("y"%string, PyVar 1)])
  = (inl (ValueError (type_changes (PyStr "op_7"))),
     Demo.inferred Demo.sum_kind [("x"%string, PyVar 0); ("y"%string, PyVar 1)]).
Proof.
  apply (proj1 (type_drift_is_raised (collab := Demo.collaborators) 0
                  (TTensor int32 [Dim 3]) (Some (Demo.vec [1; 1; 1]))
                  (Demo.inferred Demo.sum_kind
                     [("x"%string, PyVar 0); ("y"%string, PyVar 1)]))
           7%nat
           (Var.mk (PyStr "op_7") (TTensor int32 [Dim 2]) (Some (Demo.vec [4; 6]))
                   (Some 7%nat) (Some 0%nat) ∅ ∅ PlainVar)).
  - vm_compute. reflexivity.
  - vm_compute. reflexivity.
  - reflexivity.
Defined.

Section reinference_reads.
Context {collab : Collaborators} (k : OpKind).

Lemma refresh_outputs_frame (l : list nat) (w0 w : World) :
  self w = self w0 /\ values_kept w0 w ->
  wp (for_each _set_nonreplaceable_vars_upstream l)
     (fun _ w' => self w' = self w0 /\ values_kept w0 w')
     (fun _ w' => self w' = self w0 /\ values_kept w0 w') w.
Proof.
  intros Hw. apply wp_for_each; [done|].
  intros o w' _ [Hself Hkept]. unfold _set_nonreplaceable_vars_upstream.
  wp_steps; try done. split; [done|]. by apply values_kept_marker.
Qed.

Lemma check_output_frame (i : nat) (item : mil_type * option builtin_val)
    (w0 w : World) :
  self w = self w0 /\ values_kept w0 w ->
  wp (check_output false i item)
     (fun _ w' => self w' = self w0 /\ values_kept w0 w')
     (fun _ w' => self w' = self w0 /\ values_kept w0 w') w.
Proof.
  intros Hw. destruct item as [ty sv]. unfold check_output. cbv iota.
  wp_steps; try done; by apply refresh_outputs_frame.
Qed.

(** X8. A re-inference that does not overwrite only reads the types and
    values: whether it returns or raises, the operation object (its inputs
    and its list of outputs) is the one it started from and every node of
    the graph has the type and the value it had. *)
Theorem reinference_without_overwrite_reads_only (w w' : World) (r : exn + unit) :
  is_Some (_output_vars (self w)) ->
  type_value_inference k false w = (r, w') ->
  self w' = self w /\ values_kept w w'.
Proof.
  intros [outs Houts] Hrun.
  assert (Hwp : wp (type_value_inference k false)
                   (fun _ w' => self w' = self w /\ values_kept w w')
                   (fun _ w' => self w' = self w /\ values_kept w w') w).
  { pose proof (values_kept_refl w) as Hrefl.
    apply wp_type_value_inference; try done.
    intros t vals names _ _ _. rewrite Houts.
    apply (wp_for_enumerate (fun w' => self w' = self w /\ values_kept w w'));
      [done|].
    intros j item w1 _ Hw1. by apply check_output_frame. }
  apply (wp_run _ _ _ _ _ _ Hwp) in Hrun. by destruct r.
Qed.

(** X9. An inferred value of None is not compared with the value an output
    has: without overwriting and with a compatible type, the check of the
    output goes straight to refreshing the markers, so the node keeps the
    value of the earlier inference. *)
Theorem unknown_inferred_value_keeps_old_value (i id : nat) (ty : mil_type)
    (v : Var.t) (w : World) :
  outputs w !! i = Some id -> vars w !! id = Some v ->
  is_compatible_type ty (Var.sym_type v) = true ->
  check_output false i (ty, None) w
  = for_each _set_nonreplaceable_vars_upstream (outputs w) w /\
  exists v', vars (check_output false i (ty, None) w).2 !! id = Some v' /\
             Var._sym_val v' = Var._sym_val v.
Proof.
  intros Hi Hid Hty.
  assert (Hrun : check_output false i (ty, None) w
                 = for_each _set_nonreplaceable_vars_upstream (outputs w) w).
  { unfold check_output, outputs in *.
    rewrite bind_run. simpl. rewrite Hi.
    rewrite bind_run. simpl. rewrite bind_run. unfold get_var at 1. rewrite Hid.
    rewrite Hty. simpl. rewrite !bind_run. simpl. rewrite bind_run.
    change ((mret tt : M unit) w) with (inr (B := unit) (A := exn) tt, w).
    cbv beta iota. rewrite bind_run.
    unfold get_var. rewrite Hid. by rewrite !bind_run. }
  split; [done|]. rewrite Hrun.
  pose proof (refresh_outputs_frame (outputs w) w w (conj eq_refl (values_kept_refl w)))
    as Hwp.
  destruct (for_each _set_nonreplaceable_vars_upstream (outputs w) w) as [r w'] eqn:Hr.
  apply (wp_run _ _ _ _ _ _ Hwp) in Hr.
  assert (Hkept : values_kept w w') by (destruct r; apply Hr).
  specialize (Hkept id). rewrite Hid in Hkept. simpl.
  destruct (vars w' !! id) as [v'|]; [|done].
  exists v'. split; [done|]. destruct Hkept as [_ Hval]. by rewrite Hval.
Qed.
End reinference_reads.

(** A second inference of the addition on the state left by the first. *)
Lemma reinference_without_overwrite_reads_only_witness :
  let w := Demo.inferred Demo.sum_kind [("x"%string, PyVar 0); ("y"%string, PyVar 1)] in
  self (type_value_inference (collab := Demo.collaborators) Demo.sum_kind false w).2
  = self w /\
  values_kept w (type_value_inference (collab := Demo.collaborators)
                   Demo.sum_kind false w).2.
Proof.
  intros w.
  apply (reinference_without_overwrite_reads_only (collab := Demo.collaborators)
           Demo.sum_kind w _
           (type_value_inference (collab := Demo.collaborators) Demo.sum_kind false w).1).
  - vm_compute. by eexists.
  - apply surjective_pairing.
Defined.

(** The output of the inferred addition checked against an unknown value. *)
Lemma unknown_inferred_value_keeps_old_value_witness :
  exists v',
    vars (check_output (collab := Demo.collaborators) false 0
            (TTensor int32 [Dim 2], None)
            (Demo.inferred Demo.sum_kind [("x"%string, PyVar 0); ("y"%string, PyVar 1)])).2
      !! 7%nat = Some v' /\
    Var._sym_val v' = Some (Demo.vec [4; 6]).
Proof.
  refine (proj2 (unknown_inferred_value_keeps_old_value (collab := Demo.collaborators)
            0 7 (TTensor int32 [Dim 2])
            (Var.mk (PyStr "op_7") (TTensor int32 [Dim 2]) (Some (Demo.vec [4; 6]))
                    (Some 7%nat) (Some 0%nat) ∅ ∅ PlainVar)
            (Demo.inferred Demo.sum_kind [("x"%string, PyVar 0); ("y"%string, PyVar 1)])
            _ _ _)).
  - vm_compute. reflexivity.
  - vm_compute. reflexivity.
  - reflexivity.
Defined.

(** ** The outputs of a first inference *)

Section first_inference.
Context {collab : Collaborators} (k : OpKind).

(** One step of the creation loop appends one node produced at the position
    of the step, or raises and leaves the state as it was. *)
Lemma create_output_node (i : nat) (item : string * mil_type * option builtin_val)
    (w : World) :
  wp (create_output k i item)
     (fun _ w' => exists v, w' = (append_output v w).2 /\
                            produced_by (self_id (self w)) i v)
     (fun _ w' => w' = w) w.
Proof.
  destruct item as [[n ty] sv]. unfold create_output. wp_steps; try done.
  all: unfold wp, append_output; eexists; split; [reflexivity|]; done.
Qed.

Lemma fresh_outputs_append (w0 w : World) (v : Var.t) :
  fresh_outputs w0 w ->
  produced_by (self_id (self w)) (length (outputs w)) v ->
  fresh_outputs w0 (append_output v w).2.
Proof.
  intros (Hgrows & outs & Houts & Hnodup & Hnew & Hnodes & Hdom) Hv.
  assert (Hid : self_id (self w) = self_id (self w0)).
  { destruct Hgrows as [Hself _].
    by apply (f_equal self_id) in Hself. }
  assert (Hfresh : fresh (dom (vars w)) ∉ dom (vars w)) by apply is_fresh.
  split; [by apply grows_append|].
  unfold outputs in Hv. rewrite Houts in Hv. simpl in Hv.
  exists (outs ++ [fresh (dom (vars w))]). simpl. rewrite Houts. simpl.
  split; [done|]. split; [|split; [|split]].
  - apply NoDup_app. split; [done|]. split; [|apply NoDup_singleton].
    intros id Hin ->%list_elem_of_singleton. apply Hfresh.
    apply list_elem_of_lookup in Hin as [j Hj].
    destruct (Hnodes j _ Hj) as (v0 & Hv0 & _). apply elem_of_dom. by exists v0.
  - intros id [Hin | ->%list_elem_of_singleton]%elem_of_app; [by apply Hnew|].
    apply not_elem_of_dom. intros [v0 Hv0]%elem_of_dom. apply Hfresh.
    apply elem_of_dom. exists v0. by apply Hgrows.
  - intros j id Hj. apply lookup_app_Some in Hj as [Hj | [Hlen Hj]].
    + destruct (Hnodes j id Hj) as (v0 & Hv0 & Hp). exists v0. split; [|done].
      rewrite lookup_insert_ne; [done|]. intros <-. apply Hfresh.
      apply elem_of_dom. by exists v0.
    + apply list_lookup_singleton_Some in Hj as [Hj <-].
      exists v. rewrite lookup_insert_eq. split; [done|].
      replace j with (length outs) by lia. by rewrite <- Hid.
  - rewrite dom_insert_L, Hdom, list_to_set_app_L. simpl.
    rewrite (right_id_L ∅ (∪)). rewrite (comm_L (∪) {[_]}).
    by rewrite (assoc_L (∪)).
Qed.

(** The creation loop, whether it ends normally or raises: the outputs are
    fresh nodes at their positions; a normal end has created one for every
    item, a raise fewer. *)
Lemma create_outputs_fresh (items : list (string * mil_type * option builtin_val))
    (i : nat) (w0 w : World) (r : exn + unit) (w1 : World) :
  fresh_outputs w0 w -> length (outputs w) = i ->
  for_enumerate (create_output k) i items w = (r, w1) ->
  fresh_outputs w0 w1 /\
  match r with
  | inr _ => length (outputs w1) = (i + length items)%nat
  | inl _ => (length (outputs w1) < i + length items)%nat
  end.
Proof.
  revert i w r w1. induction items as [|item items IH]; intros i w r w1 Hw Hlen Hrun.
  - injection Hrun as <- <-. split; [done|]. simpl. lia.
  - rewrite for_enumerate_cons, bind_run in Hrun.
    pose proof (create_output_node i item w) as Hstep. unfold wp in Hstep.
    destruct (create_output k i item w) as [[e|[]] w'].
    + injection Hrun as <- <-. subst w'. split; [done|]. simpl. lia.
    + destruct Hstep as (v & -> & Hv).
      assert (Hlen' : length (outputs (append_output v w).2) = S i).
      { unfold outputs, append_output. simpl. fold (outputs w).
        rewrite length_app. simpl. lia. }
      rewrite <- Hlen in Hv.
      destruct (IH (S i) _ r w1 (fresh_outputs_append w0 w v Hw Hv) Hlen' Hrun)
        as [Hinv Hcount].
      split; [done|]. destruct r; simpl; lia.
Qed.

Lemma fresh_outputs_start (w : World) :
  fresh_outputs w (with_self (set_output_vars (Some [])) w).
Proof.
  split; [by split|]. exists []. simpl. split; [done|]. split; [constructor|].
  split; [by intros id Hin%elem_of_nil|]. split; [done|].
  by rewrite (right_id_L ∅ (∪)).
Qed.

(** X10. A first inference that returns normally has created one node for
    every item of the zipped names, types and values and nothing else: the
    outputs are pairwise distinct nodes the graph did not have, the node at
    position j records the operation as its producer and j as its index,
    every node the graph had is as it was, and the object differs from the
    one before by its outputs only. *)
Theorem first_inference_creates_fresh_outputs (b : bool) (w w1 : World) :
  _output_vars (self w) = None ->
  type_value_inference k b w = (inr tt, w1) ->
  fresh_outputs w w1 /\
  forall t vals names,
    type_inference k w = inr t ->
    (_auto_val k (type_tuple t) w).1 = inr vals ->
    names_tuple (output_names k w) (type_tuple t) = inr names ->
    length (outputs w1) = length (zip3 names (type_tuple t) vals).
Proof.
  intros Hnone Hrun. rewrite type_value_inference_run in Hrun.
  destruct (type_inference k w) as [e|t]; [done|].
  destruct (_auto_val k (type_tuple t) w).1 as [e|vals] eqn:Hvals; [done|].
  destruct (names_tuple (output_names k w) (type_tuple t)) as [e|names] eqn:Hnames;
    [done|].
  rewrite Hnone in Hrun.
  destruct (create_outputs_fresh _ 0 w _ _ w1 (fresh_outputs_start w) eq_refl Hrun)
    as [Hinv Hcount].
  split; [done|]. intros t' vals' names' Ht' Hvals' Hnames'.
  injection Ht' as <-. rewrite Hvals in Hvals'. rewrite Hnames in Hnames'.
  injection Hvals' as <-. injection Hnames' as <-. exact Hcount.
Qed.

(** X11. A first inference whose type inference, value inference and naming
    have succeeded but whose creation loop raises leaves the operation with
    the outputs created before the raise, fewer than the items: the list of
    outputs is no longer None, so the next inference checks against it
    instead of creating the outputs.  An exception of the type inference, of
    the value inference or of the naming leaves the state as it was. *)
Theorem failed_first_inference_keeps_partial_outputs (b : bool) (w w1 : World) (e : exn) :
  _output_vars (self w) = None ->
  type_value_inference k b w = (inl e, w1) ->
  match type_inference k w with
  | inl _ => w1 = w
  | inr t =>
      match (_auto_val k (type_tuple t) w).1,
            names_tuple (output_names k w) (type_tuple t) with
      | inr vals, inr names =>
          fresh_outputs w w1 /\
          (length (outputs w1) < length (zip3 names (type_tuple t) vals))%nat
      | _, _ => w1 = w
      end
  end.
Proof.
  intros Hnone Hrun. rewrite type_value_inference_run in Hrun.
  destruct (type_inference k w) as [e0|t]; [by injection Hrun|].
  destruct (_auto_val k (type_tuple t) w).1 as [e0|vals]; [by injection Hrun|].
  destruct (names_tuple (output_names k w) (type_tuple t)) as [e0|names];
    [by injection Hrun|].
  rewrite Hnone in Hrun.
  exact (create_outputs_fresh _ 0 w _ _ w1 (fresh_outputs_start w) eq_refl Hrun).
Qed.
End first_inference.

(** The first inference of the addition of two constants. *)
Lemma first_inference_creates_fresh_outputs_witness :
  fresh_outputs
    (Demo.constructed Demo.sum_kind [("x"%string, PyVar 0); ("y"%string, PyVar 1)])
    (Demo.inferred Demo.sum_kind [("x"%string, PyVar 0); ("y"%string, PyVar 1)]).
Proof.
  refine (proj1 (first_inference_creates_fresh_outputs (collab := Demo.collaborators)
            Demo.sum_kind false
            (Demo.constructed Demo.sum_kind [("x"%string, PyVar 0); ("y"%string, PyVar 1)])
            (Demo.inferred Demo.sum_kind [("x"%string, PyVar 0); ("y"%string, PyVar 1)])
            _ _)).
  - vm_compute. reflexivity.
  - vm_compute. reflexivity.
Defined.

(** The first inference of a list of tensors of rank 5: the loop raises at
    the first item and the list of outputs is left empty, not None. *)
Lemma failed_first_inference_keeps_partial_outputs_witness :
  _output_vars
    (self (type_value_inference (collab := Demo.collaborators) (Demo.list_kind 5) false
             (Demo.constructed (Demo.list_kind 5) [])).2) = Some [] /\
  fresh_outputs (Demo.constructed (Demo.list_kind 5) [])
    (type_value_inference (collab := Demo.collaborators) (Demo.list_kind 5) false
       (Demo.constructed (Demo.list_kind 5) [])).2.
Proof.
  split; [vm_compute; reflexivity|].
  refine (proj1 (failed_first_inference_keeps_partial_outputs
                   (collab := Demo.collaborators) (Demo.list_kind 5) false
                   (Demo.constructed (Demo.list_kind 5) []) _
                   (ValueError (list_rank 5)) _ _)).
  - vm_compute. reflexivity.
  - vm_compute. reflexivity.
Defined.

(** ** Keyword checks and the binding of inputs *)

(** A loop of checks that leave the state alone ends normally when every
    check does, and with the exception of the first check that raises. *)
Lemma for_each_checks_ok {A} (body : A -> M unit) (l : list A) (w : World) :
  (forall x, x ∈ l -> body x w = (inr tt, w)) -> for_each body l w = (inr tt, w).
Proof.
  induction l as [|x l IH]; intros Hall; [done|].
  rewrite for_each_cons, bind_run, (Hall x) by left.
  apply IH. intros y Hy. apply Hall. by right.
Qed.

Lemma for_each_checks_fail {A} (body : A -> M unit) (pre post : list A) (x : A)
    (e : exn) (w : World) :
  (forall y, y ∈ pre -> body y w = (inr tt, w)) -> body x w = (inl e, w) ->
  for_each body (pre ++ x :: post) w = (inl e, w).
Proof.
  induction pre as [|y pre IH]; intros Hpre Hx; simpl.
  - by rewrite bind_run, Hx.
  - rewrite bind_run, (Hpre y) by left. apply IH; [|done].
    intros z Hz. apply Hpre. by right.
Qed.

Lemma check_expected_key_run (key : string) (w : World) :
  (expected_key w key -> check_expected_key key w = (inr tt, w)) /\
  (~ expected_key w key ->
   check_expected_key key w = (inl (ValueError (unknown_input key)), w)).
Proof.
  unfold check_expected_key, expected_key. rewrite bind_run. simpl.
  case_bool_decide as Hsys; simpl.
  - split; [done|]. intros Hn. destruct Hn. by left.
  - destruct (dict_has key (_input_types (self w))); simpl.
    + split; [done|]. intros Hn. destruct Hn. by right.
    + split; [|done]. by intros [?|?].
Qed.

(** X12. The check of the keyword arguments returns normally when every
    keyword is a system name or a name of the contract, and otherwise raises
    the ValueError for the first keyword that is neither; it changes nothing
    in either case. *)
Theorem unexpected_keyword_is_rejected (kwargs : list (string * pyval)) (w : World) :
  (Forall (expected_key w) kwargs.*1 -> _check_expected_inputs kwargs w = (inr tt, w)) /\
  (forall pre key post,
      kwargs.*1 = pre ++ key :: post ->
      Forall (expected_key w) pre -> ~ expected_key w key ->
      _check_expected_inputs kwargs w = (inl (ValueError (unknown_input key)), w)).
Proof.
  unfold _check_expected_inputs. split.
  - intros Hall. apply for_each_checks_ok. intros key Hkey.
    apply check_expected_key_run. by apply (proj1 (Forall_forall _ _) Hall).
  - intros pre key post -> Hpre Hkey. apply for_each_checks_fail.
    + intros y Hy. apply check_expected_key_run.
      by apply (proj1 (Forall_forall _ _) Hpre).
    + by apply check_expected_key_run.
Qed.

(** A keyword outside the contract of the addition, after two that belong to
    it. *)
Lemma unexpected_keyword_is_rejected_witness :
  _check_expected_inputs
    [("x"%string, PyVar 0); ("name"%string, PyStr "add_0"); ("z"%string, PyVar 1)]
    (Demo.constructed Demo.sum_kind [("x"%string, PyVar 0); ("y"%string, PyVar 1)])
  = (inl (ValueError (unknown_input "z")),
     Demo.constructed Demo.sum_kind [("x"%string, PyVar 0); ("y"%string, PyVar 1)]).
Proof.
  apply (proj2 (unexpected_keyword_is_rejected
                  [("x"%string, PyVar 0); ("name"%string, PyStr "add_0");
                   ("z"%string, PyVar 1)]
                  (Demo.constructed Demo.sum_kind
                     [("x"%string, PyVar 0); ("y"%string, PyVar 1)]))
           ["x"%string; "name"%string] "z"%string []).
  - reflexivity.
  - constructor; [|constructor; [|constructor]].
    + right. vm_compute. reflexivity.
    + left. unfold non_attributes. apply list_elem_of_In. simpl. tauto.
  - intros [Hsys | Hin].
    + unfold non_attributes in Hsys. apply list_elem_of_In in Hsys. simpl in Hsys.
      repeat destruct Hsys as [Hsys | Hsys]; done.
    + vm_compute in Hin. done.
Defined.

Section binding.
Context {collab : Collaborators} (k : OpKind).

Lemma check_known_key_run (key : string) (w : World) :
  check_known_key key w
  = if dict_has key (_input_types (self w)) then (inr tt, w)
    else (inl (RuntimeError key), w).
Proof.
  unfold check_known_key. rewrite bind_run. simpl.
  by destruct (dict_has key (_input_types (self w))).
Qed.

(** The binding as its three phases. *)
Lemma _validate_and_set_inputs_run (kvs : list (string * pyval)) (b : bool) (w : World) :
  _validate_and_set_inputs k kvs b w
  = match for_each check_known_key kvs.*1 w with
    | (inl e, _) => (inl e, w)
    | (inr _, _) =>
        match validate_inputs (name (self w)) (op_type k) kvs w with
        | Some e => (inl e, w)
        | None => for_each (set_input b) kvs w
        end
    end.
Proof.
  unfold _validate_and_set_inputs. rewrite bind_run.
  pose proof (for_each_preserves (fun w' => w' = w) check_known_key kvs.*1) as Hs.
  specialize (Hs (fun x w' _ Hw' => eq_trans (check_known_key_state x w')
                                      Hw') w eq_refl).
  destruct (for_each check_known_key kvs.*1 w) as [[e|[]] w1]; simpl in Hs; subst w1;
    [done|].
  rewrite bind_run. simpl. rewrite bind_run.
  by destruct (validate_inputs (name (self w)) (op_type k) kvs w).
Qed.

(** X13. The binding validates before it changes anything: a key outside
    the contract ends it with RuntimeError for the first such key, whatever
    the validation of the contract would say, and when every key is known an
    error of that validation is raised as it is; the state is unchanged in
    both cases. *)
Theorem binding_validates_before_it_binds (kvs : list (string * pyval)) (b : bool)
    (w : World) :
  (forall pre key post,
      kvs.*1 = pre ++ key :: post ->
      Forall (fun n => dict_has n (_input_types (self w)) = true) pre ->
      dict_has key (_input_types (self w)) = false ->
      _validate_and_set_inputs k kvs b w = (inl (RuntimeError key), w)) /\
  (forall e,
      Forall (fun n => dict_has n (_input_types (self w)) = true) kvs.*1 ->
      validate_inputs (name (self w)) (op_type k) kvs w = Some e ->
      _validate_and_set_inputs k kvs b w = (inl e, w)).
Proof.
  split.
  - intros pre key post Hkeys Hpre Hkey. rewrite _validate_and_set_inputs_run, Hkeys.
    rewrite (for_each_checks_fail check_known_key pre post key (RuntimeError key) w);
      [done| |].
    + intros y Hy. rewrite check_known_key_run.
      by rewrite (proj1 (Forall_forall _ _) Hpre y Hy).
    + by rewrite check_known_key_run, Hkey.
  - intros e Hall Hval. rewrite _validate_and_set_inputs_run.
    rewrite (for_each_checks_ok check_known_key kvs.*1 w).
    + by rewrite Hval.
    + intros y Hy. rewrite check_known_key_run.
      by rewrite (proj1 (Forall_forall _ _) Hall y Hy).
Qed.

(** One step of the binding loop: a normal end has set the slot, which
    existed, and has not put None over a node; a raise leaves the object as
    it was. *)
Lemma set_input_slot (b : bool) (n : string) (var : pyval) (w : World) :
  wp (set_input b (n, var))
     (fun _ w' => self w' = set_input_var n var (self w) /\
                  exists old, _input_vars (self w) !! n = Some old /\
                              (var = PyNone -> old = PyNone))
     (fun _ w' => self w' = self w) w.
Proof.
  assert (Hdetach : forall v_new v_old w',
             self w' = self w ->
             wp (check_and_detach v_new v_old b) (fun _ w'' => self w'' = self w)
                (fun _ w'' => self w'' = self w) w').
  { intros v_new v_old w' Hw'.
    by apply (check_and_detach_inv (fun w'' => self w'' = self w)). }
  assert (Hattach : forall id w',
             self w' = self w ->
             wp (add_child_op id) (fun _ w'' => self w'' = self w)
                (fun _ w'' => self w'' = self w) w').
  { intros id w' Hw'. by apply (add_child_op_inv (fun w'' => self w'' = self w)). }
  unfold set_input. apply wp_bind, wp_input_var.
  destruct (_input_vars (self w) !! n) as [existing|] eqn:Hslot; [|done].
  apply wp_bind.
  apply wp_mono with
    (Q := fun _ w' => self w' = self w /\ (var = PyNone -> existing = PyNone))
    (E := fun _ w' => self w' = self w); [| |done].
  - case_bool_decide as Hnone; simpl; [done|].
    destruct (decide (var = PyNone)) as [->|Hvar].
    + destruct existing; try done; unfold check_and_detach, var_of, iterate;
        wp_steps; done.
    + apply wp_mono with (Q := fun _ w' => self w' = self w)
                         (E := fun _ w' => self w' = self w); [|by intros|done].
      destruct existing; try by apply Hdetach.
      unfold iterate. apply wp_bind.
      destruct var; wp_steps; try done.
      all: apply wp_for_each; [done|]; intros; by apply Hdetach.
  - intros [] w' [Hw' Hnone]. apply wp_bind.
    apply wp_mono with (Q := fun _ w'' => self w'' = self w)
                       (E := fun _ w'' => self w'' = self w); [| |done].
    + destruct var; try done.
      * by apply Hattach.
      * apply wp_for_each; [done|]. intros; by apply Hattach.
    + intros [] w'' Hw''. wp_step. simpl. rewrite Hw''. split; [done|].
      by exists existing.
Qed.

Lemma with_slots_lookup (kvs : list (string * pyval)) (o : Operation) (n : string) :
  (n ∉ kvs.*1 -> _input_vars (with_slots kvs o) !! n = _input_vars o !! n) /\
  (forall v, NoDup kvs.*1 -> (n, v) ∈ kvs -> _input_vars (with_slots kvs o) !! n = Some v).
Proof.
  revert o. induction kvs as [|[n' v'] kvs IH]; intros o.
  - split; [done|]. by intros v _ Hin%elem_of_nil.
  - unfold with_slots. simpl. fold (with_slots kvs (set_input_var n' v' o)).
    destruct (IH (set_input_var n' v' o)) as [IHout IHin]. split.
    + intros Hn. apply not_elem_of_cons in Hn as [Hne Hn].
      rewrite IHout by done. simpl. by rewrite lookup_insert_ne.
    + intros v Hnodup Hin. apply NoDup_cons in Hnodup as [Hfirst Hnodup].
      apply elem_of_cons in Hin as [[= -> ->]|Hin].
      * rewrite IHout by done. simpl. by rewrite lookup_insert_eq.
      * by apply IHin.
Qed.

Lemma with_slots_types (kvs : list (string * pyval)) (o : Operation) :
  _input_types (with_slots kvs o) = _input_types o.
Proof.
  revert o. induction kvs as [|[n v] kvs IH]; intros o; [done|].
  unfold with_slots. simpl. fold (with_slots kvs (set_input_var n v o)).
  by rewrite IH.
Qed.

(** The binding loop, when it ends normally. *)
Lemma set_inputs_loop (b : bool) (kvs : list (string * pyval)) (w w' : World) :
  for_each (set_input b) kvs w = (inr tt, w') ->
  self w' = with_slots kvs (self w) /\
  (forall n, slot_bound w n -> slot_bound w' n) /\
  Forall (fun n => is_Some (_input_vars (self w') !! n)) kvs.*1.
Proof.
  revert w. induction kvs as [|[n var] kvs IH]; intros w Hrun.
  - injection Hrun as <-. by repeat split.
  - rewrite for_each_cons, bind_run in Hrun.
    pose proof (set_input_slot b n var w) as Hstep. unfold wp in Hstep.
    destruct (set_input b (n, var) w) as [[e|[]] w1]; [done|].
    destruct Hstep as (Hself & old & Hold & Hnone).
    destruct (IH w1 Hrun) as (Hfinal & Hbound & Hkeys).
    split; [|split].
    + rewrite Hfinal, Hself. reflexivity.
    + intros m Hm. apply Hbound. destruct Hm as (v & Hv & Hne).
      unfold slot_bound. rewrite Hself. simpl.
      destruct (decide (n = m)) as [->|Hnm].
      * rewrite lookup_insert_eq. exists var. split; [done|].
        intros Hvar. apply Hne. rewrite Hold in Hv. injection Hv as <-. by apply Hnone.
      * rewrite lookup_insert_ne by done. by exists v.
    + constructor; [|done]. simpl.
      destruct (decide (n ∈ kvs.*1)) as [Hin|Hout].
      * by apply (proj1 (Forall_forall _ _) Hkeys).
      * rewrite Hfinal. rewrite (proj1 (with_slots_lookup kvs _ n) Hout).
        rewrite Hself. simpl. rewrite lookup_insert_eq. by eexists.
Qed.

(** A binding that returns normally has passed both validations and run the
    binding loop to its end. *)
Lemma binding_ok_loop (kvs : list (string * pyval)) (b : bool) (w w' : World) :
  _validate_and_set_inputs k kvs b w = (inr tt, w') ->
  Forall (fun n => dict_has n (_input_types (self w)) = true) kvs.*1 /\
  validate_inputs (name (self w)) (op_type k) kvs w = None /\
  for_each (set_input b) kvs w = (inr tt, w').
Proof.
  intros Hrun. rewrite _validate_and_set_inputs_run in Hrun.
  assert (Hkeys : Forall (fun n => dict_has n (_input_types (self w)) = true) kvs.*1).
  { apply Forall_forall. intros n Hn.
    destruct (dict_has n (_input_types (self w))) eqn:Hhas; [done|].
    apply list_elem_of_split in Hn as (pre & post & Hsplit).
    exfalso. revert Hrun. rewrite Hsplit. clear Hsplit.
    induction pre as [|y pre IHpre]; simpl.
    - by rewrite bind_run, check_known_key_run, Hhas.
    - rewrite bind_run, check_known_key_run.
      by destruct (dict_has y (_input_types (self w))). }
  destruct (for_each check_known_key kvs.*1 w) as [[e|[]] w1]; [done|].
  by destruct (validate_inputs (name (self w)) (op_type k) kvs w) as [e|].
Qed.

(** X14. A binding that returns normally has set the slots of the object to
    the values given, in the order given, and nothing else of the object:
    every key was a name of the contract accepted by its validation, a slot
    that is named once holds the value given for it, and a slot that is not
    named holds what it held. *)
Theorem binding_sets_the_slots_given (kvs : list (string * pyval)) (b : bool)
    (w w' : World) :
  _validate_and_set_inputs k kvs b w = (inr tt, w') ->
  self w' = with_slots kvs (self w) /\
  Forall (fun n => dict_has n (_input_types (self w)) = true) kvs.*1 /\
  validate_inputs (name (self w)) (op_type k) kvs w = None /\
  (forall n v, NoDup kvs.*1 -> (n, v) ∈ kvs -> _input_vars (self w') !! n = Some v) /\
  (forall n, n ∉ kvs.*1 -> _input_vars (self w') !! n = _input_vars (self w) !! n).
Proof.
  intros Hrun. destruct (binding_ok_loop kvs b w w' Hrun) as (Hkeys & Hval & Hloop).
  destruct (set_inputs_loop b kvs w w' Hloop) as (Hself & _ & _).
  split; [done|]. split; [done|]. split; [done|]. rewrite Hself. split.
  - intros n v Hnodup Hin. by apply with_slots_lookup.
  - intros n Hn. by apply with_slots_lookup.
Qed.

Lemma ensure_slots_bound (l : list (string * InputType)) (w w' : World) :
  (forall n, slot_bound w n -> slot_bound w' n) ->
  for_each ensure_slot l w = (inr tt, w) ->
  for_each ensure_slot l w' = (inr tt, w').
Proof.
  intros Hbound. induction l as [|[n t] l IH]; [done|].
  rewrite !for_each_cons, !bind_run.
  pose proof (ensure_slot_state (n, t) w) as Hs.
  destruct (ensure_slot (n, t) w) as [[e|[]] w1] eqn:Hstep; [done|].
  simpl in Hs. subst w1. intros Hrest.
  assert (Hstep' : ensure_slot (n, t) w' = (inr tt, w')).
  { unfold ensure_slot in *. destruct (optional t); [done|].
    rewrite bind_run in Hstep. rewrite bind_run. unfold input_var in *.
    destruct (_input_vars (self w) !! n) as [v|] eqn:Hv; [|done].
    case_bool_decide as Hnone; [done|].
    destruct (Hbound n) as (v' & Hv' & Hne'); [by exists v|].
    rewrite Hv'. by rewrite bool_decide_eq_false_2. }
  rewrite Hstep'. by apply IH.
Qed.

(** X15. A binding that returns normally never unbinds a slot: None offered
    for a slot that holds something raises, also when the type check is
    skipped, so every slot that was bound is bound afterwards; and an
    operation that passed the check of its required inputs before the binding
    passes it after. *)
Theorem binding_keeps_slots_bound (kvs : list (string * pyval)) (b : bool)
    (w w' : World) :
  _validate_and_set_inputs k kvs b w = (inr tt, w') ->
  (forall n, slot_bound w n -> slot_bound w' n) /\
  (_ensure_required_inputs w = (inr tt, w) ->
   _ensure_required_inputs w' = (inr tt, w')).
Proof.
  intros Hrun.
  destruct (binding_ok_loop kvs b w w' Hrun) as (_ & _ & Hloop).
  destruct (set_inputs_loop b kvs w w' Hloop) as (Hself & Hbound & _).
  split; [done|]. unfold _ensure_required_inputs. rewrite !bind_run. simpl.
  rewrite Hself. rewrite with_slots_types. by apply ensure_slots_bound.
Qed.
End binding.

(** A key outside the contract of the addition. *)
Lemma binding_validates_before_it_binds_witness :
  _validate_and_set_inputs (collab := Demo.collaborators) Demo.sum_kind
    [("x"%string, PyVar 2); ("z"%string, PyVar 1)] false
    (Demo.inferred Demo.sum_kind [("x"%string, PyVar 0); ("y"%string, PyVar 1)])
  = (inl (RuntimeError "z"),
     Demo.inferred Demo.sum_kind [("x"%string, PyVar 0); ("y"%string, PyVar 1)]).
Proof.
  apply (proj1 (binding_validates_before_it_binds (collab := Demo.collaborators)
                  Demo.sum_kind [("x"%string, PyVar 2); ("z"%string, PyVar 1)] false
                  (Demo.inferred Demo.sum_kind
                     [("x"%string, PyVar 0); ("y"%string, PyVar 1)]))
           ["x"%string] "z"%string []).
  - reflexivity.
  - constructor; [|constructor]. vm_compute. reflexivity.
  - vm_compute. reflexivity.
Defined.

(** The first input of the inferred addition rebound to another constant. *)
Lemma binding_sets_the_slots_given_witness :
  _input_vars
    (self (Demo.rebound Demo.sum_kind [("x"%string, PyVar 0); ("y"%string, PyVar 1)]
             false [("x"%string, PyVar 2)])) !! "x"%string = Some (PyVar 2) /\
  _input_vars
    (self (Demo.rebound Demo.sum_kind [("x"%string, PyVar 0); ("y"%string, PyVar 1)]
             false [("x"%string, PyVar 2)])) !! "y"%string
  = _input_vars
      (self (Demo.inferred Demo.sum_kind [("x"%string, PyVar 0); ("y"%string, PyVar 1)]))
      !! "y"%string.
Proof.
  assert (Hrun :
    _validate_and_set_inputs (collab := Demo.collaborators) Demo.sum_kind
      [("x"%string, PyVar 2)] false
      (Demo.inferred Demo.sum_kind [("x"%string, PyVar 0); ("y"%string, PyVar 1)])
    = (inr tt,
       Demo.rebound Demo.sum_kind [("x"%string, PyVar 0); ("y"%string, PyVar 1)]
         false [("x"%string, PyVar 2)])).
  { vm_compute. reflexivity. }
  destruct (binding_sets_the_slots_given (collab := Demo.collaborators) Demo.sum_kind
              _ _ _ _ Hrun) as (_ & _ & _ & Hin & Hout).
  split.
  - apply Hin.
    + simpl. apply NoDup_singleton.
    + apply list_elem_of_singleton. reflexivity.
  - apply Hout. simpl. intros Hy%list_elem_of_singleton. discriminate Hy.
Defined.

(** The second input of the addition is still bound after the first was
    rebound. *)
Lemma binding_keeps_slots_bound_witness :
  slot_bound
    (Demo.rebound Demo.sum_kind [("x"%string, PyVar 0); ("y"%string, PyVar 1)]
       false [("x"%string, PyVar 2)]) "y".
Proof.
  assert (Hrun :
    _validate_and_set_inputs (collab := Demo.collaborators) Demo.sum_kind
      [("x"%string, PyVar 2)] false
      (Demo.inferred Demo.sum_kind [("x"%string, PyVar 0); ("y"%string, PyVar 1)])
    = (inr tt,
       Demo.rebound Demo.sum_kind [("x"%string, PyVar 0); ("y"%string, PyVar 1)]
         false [("x"%string, PyVar 2)])).
  { vm_compute. reflexivity. }
  apply (proj1 (binding_keeps_slots_bound (collab := Demo.collaborators) Demo.sum_kind
                  _ _ _ _ Hrun)).
  exists (PyVar 1). split; [vm_compute; reflexivity|discriminate].
Defined.

(** ** Construction *)

Section construction_run.
Context {collab : Collaborators} (k : OpKind).

Lemma with_slots_fields (kvs : list (string * pyval)) (o : Operation) :
  self_id (with_slots kvs o) = self_id o /\
  name (with_slots kvs o) = name o /\
  _output_vars (with_slots kvs o) = _output_vars o /\
  enclosing_block (with_slots kvs o) = enclosing_block o /\
  scopes (with_slots kvs o) = scopes o.
Proof.
  revert o. induction kvs as [|[n v] kvs IH]; intros o; [done|].
  unfold with_slots. simpl. fold (with_slots kvs (set_input_var n v o)).
  apply (IH (set_input_var n v o)).
Qed.

(** The loop that initialises the slots sets each name of the contract to
    None. *)
Lemma init_slots_with_slots (keys : list string) (w : World) :
  for_each (fun key => modify (with_self (set_input_var key PyNone))) keys w
  = (inr tt, with_self (with_slots ((fun key => (key, PyNone)) <$> keys)) w).
Proof.
  revert w. induction keys as [|key keys IH]; intros w; [by destruct w|].
  rewrite for_each_cons, bind_run. simpl. by rewrite IH.
Qed.

(** X16. A construction without the keyword [enclosing_block], or with it
    and without [scopes], raises KeyError for that keyword before it looks at
    any other keyword or at the contract: the object is left with its name
    taken from the keywords, no slot and no outputs, and the graph as it
    was. *)
Theorem construction_needs_block_and_scopes (kwargs : list (string * pyval)) (w : World) :
  (dict_get "enclosing_block" kwargs = None ->
   exists w1, __init__ k kwargs w = (inl (KeyError "enclosing_block"), w1) /\
              name (self w1) = default PyNone (dict_get "name" kwargs) /\
              _input_vars (self w1) = ∅ /\ _output_vars (self w1) = None /\
              vars w1 = vars w) /\
  (forall block,
      dict_get "enclosing_block" kwargs = Some block ->
      dict_get "scopes" kwargs = None ->
      exists w1, __init__ k kwargs w = (inl (KeyError "scopes"), w1) /\
                 name (self w1) = default PyNone (dict_get "name" kwargs) /\
                 enclosing_block (self w1) = block /\
                 _input_vars (self w1) = ∅ /\ _output_vars (self w1) = None /\
                 vars w1 = vars w).
Proof.
  split.
  - intros Hblock.
    assert (Hwp : wp (__init__ k kwargs) (fun _ _ => False)
                     (fun e w1 => e = KeyError "enclosing_block" /\
                        name (self w1) = default PyNone (dict_get "name" kwargs) /\
                        _input_vars (self w1) = ∅ /\ _output_vars (self w1) = None /\
                        vars w1 = vars w) w).
    { unfold __init__, __init___bind. cbv zeta. do 3 wp_step. wp_step.
      unfold kwarg. rewrite Hblock. by wp_step. }
    unfold wp in Hwp. destruct (__init__ k kwargs w) as [[e|[]] w1]; [|done].
    destruct Hwp as [-> Hw1]. by exists w1.
  - intros block Hblock Hscopes.
    assert (Hwp : wp (__init__ k kwargs) (fun _ _ => False)
                     (fun e w1 => e = KeyError "scopes" /\
                        name (self w1) = default PyNone (dict_get "name" kwargs) /\
                        enclosing_block (self w1) = block /\
                        _input_vars (self w1) = ∅ /\ _output_vars (self w1) = None /\
                        vars w1 = vars w) w).
    { unfold __init__, __init___bind. cbv zeta. do 3 wp_step. wp_step.
      unfold kwarg. rewrite Hblock. do 4 wp_step. rewrite Hscopes. by wp_step. }
    unfold wp in Hwp. destruct (__init__ k kwargs w) as [[e|[]] w1]; [|done].
    destruct Hwp as [-> Hw1]. by exists w1.
Qed.
(** What the steps of [__init__] before the binding establish and the later
    ones keep. *)
Lemma __init___bind_run (kwargs : list (string * pyval)) (w : World) :
  wp (__init___bind k kwargs)
     (fun _ w' =>
        name (self w') = default PyNone (dict_get "name" kwargs) /\
        _output_vars (self w') = None /\
        dict_get "enclosing_block" kwargs = Some (enclosing_block (self w')) /\
        dict_get "scopes" kwargs = Some (scopes (self w')) /\
        self_id (self w') = self_id (self w) /\
        nodes_kept w w' /\
        forall n v, NoDup kwargs.*1 -> (n, v) ∈ kwargs -> n ∈ (input_types k).*1 ->
                    v <> PyNone -> _input_vars (self w') !! n = Some v)
     (fun _ _ => True) w.
Proof.
  set (F := fun (block sc : pyval) (w' : World) =>
              name (self w') = default PyNone (dict_get "name" kwargs) /\
              _output_vars (self w') = None /\
              enclosing_block (self w') = block /\
              scopes (self w') = sc /\
              self_id (self w') = self_id (self w) /\
              vars w' = vars w).
  unfold __init___bind. cbv zeta.
  do 2 wp_step. wp_step. unfold kwarg.
  destruct (dict_get "enclosing_block" kwargs) as [block|] eqn:Hblock; [|done].
  do 4 wp_step.
  destruct (dict_get "scopes" kwargs) as [sc|] eqn:Hscopes; [|done].
  do 4 wp_step.
  match goal with |- wp _ _ _ ?w1 => set (w1' := w1) end.
  assert (Hw1 : F block sc w1') by (unfold F, w1'; simpl; by repeat split).
  assert (Htypes1 : _input_types (self w1') = input_types k) by done.
  clearbody w1'.
  eapply wp_eq; [exact (init_slots_with_slots (input_types k).*1 w1')|].
  destruct (init_slots_run (input_types k).*1 w1') as (w2' & Hrun & _ & Htypes & Hin & _).
  rewrite init_slots_with_slots in Hrun. injection Hrun as <-.
  pose proof (with_slots_fields ((fun key => (key, PyNone)) <$> (input_types k).*1)
                (self w1')) as Hfields.
  cbv beta iota.
  assert (Hready : contract_ready k
                     (with_self (with_slots ((fun key => (key, PyNone))
                                               <$> (input_types k).*1)) w1') /\
                   F block sc
                     (with_self (with_slots ((fun key => (key, PyNone))
                                               <$> (input_types k).*1)) w1')).
  { split; [split|].
    - by rewrite Htypes, Htypes1.
    - intros n Hn. rewrite (Hin n Hn). by eexists.
    - destruct Hfields as (Hid & Hname & Hout & Hb & Hs).
      destruct Hw1 as (Hname1 & Hout1 & Hb1 & Hs1 & Hid1 & Hvars1).
      unfold F. unfold with_self at 1 2 3 4 5 6. cbn [self vars].
      rewrite Hid, Hname, Hout, Hb, Hs. by repeat split. }
  revert Hready.
  generalize (with_self (with_slots ((fun key => (key, PyNone)) <$> (input_types k).*1))
                        w1').
  clear Htypes Hin Hfields Hw1 Htypes1. intros w2 Hready.
  wp_step. unfold _check_expected_inputs.
  apply wp_mono with (Q := fun _ w' => contract_ready k w' /\ F block sc w')
                     (E := fun _ _ => True); [| |done].
  { apply wp_for_each; [done|]. intros key w' _ Hw'.
    unfold check_expected_key. wp_steps; done. }
  intros [] w3 Hw3. wp_step.
  apply wp_mono with (Q := fun _ w' => contract_ready k w' /\ F block sc w')
                     (E := fun _ _ => True); [| |done].
  { apply wp_for_enumerate; [done|]. intros j entry w' Hj Hw'.
    apply populate_type_domain_ready; done. }
  intros [] w4 [Hready4 HF4]. do 2 wp_step. cbv zeta.
  match goal with |- wp (_validate_and_set_inputs _ ?kv _) _ _ _ => set (input_kv := kv) end.
  unfold wp. destruct (_validate_and_set_inputs k input_kv false w4) as [[e|[]] w5] eqn:Hbind;
    [done|].
  pose proof (_validate_and_set_inputs_frame k input_kv false w4) as Hframe.
  pose proof (wp_run _ _ _ _ _ _ Hframe Hbind) as [Hout5 Hkept5].
  destruct (binding_ok_loop k input_kv false w4 w5 Hbind) as (_ & _ & Hloop).
  destruct (set_inputs_loop false input_kv w4 w5 Hloop) as (Hself & _ & _).
  destruct (with_slots_fields input_kv (self w4)) as (Hid & Hname & Hout & Hb & Hs).
  destruct HF4 as (Hname4 & Hout4 & Hb4 & Hs4 & Hid4 & Hvars4).
  rewrite Hself, Hname, Hout, Hb, Hs, Hid.
  split; [done|]. split; [done|]. split; [by rewrite Hb4|]. split; [by rewrite Hs4|].
  split; [done|]. split.
  - intros id. specialize (Hkept5 id). by rewrite Hvars4 in Hkept5.
  - intros n v Hnodup Hin Hn Hv. apply with_slots_lookup; [|].
    + apply (sublist_NoDup _ _ Hnodup). apply fmap_sublist, sublist_filter.
    + apply list_elem_of_filter. split; [|done]. split; [|done]. simpl.
      apply bool_decide_eq_true_2.
      destruct Hready4 as [Hsig _].
      by rewrite <- (signature_names (_input_types (self w4))), Hsig, signature_names.
Qed.

(** X17. A construction that returns normally has bound what was supplied
    and inferred nothing: when no keyword is given twice, every slot of the
    contract holds the value supplied for it unless that value is None; the
    name, the enclosing block and the scopes are those of the keywords; the
    operation has no outputs yet; and the graph has the nodes it had, changed
    at most in their consumer sets. *)
Theorem construction_binds_supplied_inputs (kwargs : list (string * pyval))
    (w w' : World) :
  __init__ k kwargs w = (inr tt, w') ->
  name (self w') = default PyNone (dict_get "name" kwargs) /\
  _output_vars (self w') = None /\
  dict_get "enclosing_block" kwargs = Some (enclosing_block (self w')) /\
  dict_get "scopes" kwargs = Some (scopes (self w')) /\
  self_id (self w') = self_id (self w) /\
  nodes_kept w w' /\
  forall n v, NoDup kwargs.*1 -> (n, v) ∈ kwargs -> n ∈ (input_types k).*1 ->
              v <> PyNone -> _input_vars (self w') !! n = Some v.
Proof.
  intros Hrun. unfold __init__ in Hrun. rewrite bind_run in Hrun.
  pose proof (__init___bind_run kwargs w) as Hwp. unfold wp in Hwp.
  destruct (__init___bind k kwargs w) as [[e|[]] w1]; [done|].
  pose proof (_ensure_required_inputs_state w1) as Hs. rewrite Hrun in Hs.
  simpl in Hs. by subst w'.
Qed.
End construction_run.

(** A construction of the addition without its enclosing block; the keyword
    that no contract has is not looked at. *)
Lemma construction_needs_block_and_scopes_witness :
  exists w1,
    __init__ (collab := Demo.collaborators) Demo.sum_kind
      [("z"%string, PyVar 0); ("scopes"%string, PyNone)] Demo.w0
    = (inl (KeyError "enclosing_block"), w1) /\
    _input_vars (self w1) = ∅.
Proof.
  destruct (proj1 (construction_needs_block_and_scopes (collab := Demo.collaborators)
                     Demo.sum_kind [("z"%string, PyVar 0); ("scopes"%string, PyNone)]
                     Demo.w0) eq_refl)
    as (w1 & Hrun & _ & Hslots & _).
  exists w1. by split.
Defined.

(** The construction of the addition of two constants. *)
Lemma construction_binds_supplied_inputs_witness :
  _output_vars
    (self (Demo.constructed Demo.sum_kind
             [("x"%string, PyVar 0); ("y"%string, PyVar 1)])) = None /\
  _input_vars
    (self (Demo.constructed Demo.sum_kind
             [("x"%string, PyVar 0); ("y"%string, PyVar 1)])) !! "y"%string
  = Some (PyVar 1).
Proof.
  assert (Hrun :
    __init__ (collab := Demo.collaborators) Demo.sum_kind
      (Demo.system_kwargs ++ [("x"%string, PyVar 0); ("y"%string, PyVar 1)]) Demo.w0
    = (inr tt, Demo.constructed Demo.sum_kind
                 [("x"%string, PyVar 0); ("y"%string, PyVar 1)])).
  { vm_compute. reflexivity. }
  destruct (construction_binds_supplied_inputs (collab := Demo.collaborators)
              Demo.sum_kind _ _ _ Hrun) as (_ & Hout & _ & _ & _ & _ & Hslots).
  split; [exact Hout|]. apply Hslots.
  - apply (bool_decide_unpack (NoDup _)). vm_compute. exact I.
  - apply list_elem_of_In. simpl. tauto.
  - apply list_elem_of_In. simpl. tauto.
  - discriminate.
Defined.

(** ** The first missing input, type domains, opset versions and names *)

Lemma ensure_slot_run (e : string * InputType) (w : World) :
  (entry_satisfied w e -> ensure_slot e w = (inr tt, w)) /\
  (optional e.2 = false -> slot_unbound w e.1 ->
   ensure_slot e w = (inl (ValueError (required_input_missing e.1)), w)) /\
  (optional e.2 = false -> _input_vars (self w) !! e.1 = None ->
   ensure_slot e w = (inl (KeyError e.1), w)).
Proof.
  destruct e as [n t]. unfold entry_satisfied, slot_bound, slot_unbound, ensure_slot.
  simpl. destruct (optional t); [by repeat split|].
  rewrite bind_run. unfold input_var.
  destruct (_input_vars (self w) !! n) as [v|]; simpl.
  - split; [|split]; [|by intros _ [= ->]|done].
    intros [?|(v' & [= <-] & Hne)]; [done|]. by rewrite bool_decide_eq_false_2.
  - split; [|split]; [|done|done]. by intros [?|(v' & ? & _)].
Qed.

(** X18. The check of the required inputs reports the first entry of the
    contract, in its order, that is required and unbound: when every entry
    before it is optional or bound, the ValueError names that entry, whatever
    comes after it; and it returns normally when every entry is optional or
    bound.  The state is unchanged. *)
Theorem first_missing_input_is_named (w : World) :
  (Forall (entry_satisfied w) (_input_types (self w)) ->
   _ensure_required_inputs w = (inr tt, w)) /\
  (forall pre e post,
      _input_types (self w) = pre ++ e :: post ->
      Forall (entry_satisfied w) pre ->
      optional e.2 = false -> slot_unbound w e.1 ->
      _ensure_required_inputs w = (inl (ValueError (required_input_missing e.1)), w)).
Proof.
  unfold _ensure_required_inputs. rewrite bind_run. simpl. split.
  - intros Hall. apply for_each_checks_ok. intros e He.
    apply ensure_slot_run. by apply (proj1 (Forall_forall _ _) Hall).
  - intros pre e post -> Hpre Hopt Hu. apply for_each_checks_fail.
    + intros e' He'. apply ensure_slot_run. by apply (proj1 (Forall_forall _ _) Hpre).
    + by apply ensure_slot_run.
Qed.

(** The addition constructed without any input: both are missing and the
    first is named. *)
Lemma first_missing_input_is_named_witness :
  _ensure_required_inputs (Demo.constructed Demo.sum_kind [])
  = (inl (ValueError (required_input_missing "x")), Demo.constructed Demo.sum_kind []).
Proof.
  apply (proj2 (first_missing_input_is_named (Demo.constructed Demo.sum_kind []))
           [] ("x"%string, Demo.tensor_in) [("y"%string, Demo.tensor_in)]).
  - vm_compute. reflexivity.
  - constructor.
  - reflexivity.
  - vm_compute. reflexivity.
Defined.

Lemma for_enumerate_app {A} (body : nat -> A -> M unit) (l1 l2 : list A) (i : nat)
    (w : World) :
  for_enumerate body i (l1 ++ l2) w
  = match for_enumerate body i l1 w with
    | (inr _, w1) => for_enumerate body (i + length l1) l2 w1
    | (inl e, w1) => (inl e, w1)
    end.
Proof.
  revert i w. induction l1 as [|x l1 IH]; intros i w; simpl.
  - by rewrite Nat.add_0_r.
  - rewrite !bind_run. destruct (body i x w) as [[e|[]] w1]; [done|].
    rewrite IH. by rewrite Nat.add_succ_r.
Qed.

Lemma with_input_types_id (w : World) (ts : list (string * InputType)) :
  _input_types (self w) = ts -> with_self (set_input_types ts) w = w.
Proof. destruct w as [[] ?]. simpl. by intros ->. Qed.

(** The loop over a stretch [mid] of the contract whose empty type domains
    are all defined resolves them and changes nothing else. *)
Lemma populate_type_domains_run (ds : gmap string (list dtype))
    (mid : list (string * InputType)) :
  forall (pre post : list (string * InputType)) (w : World),
    _type_domains (self w) = ds ->
    _input_types (self w) = (resolve_domain ds <$> pre) ++ mid ++ post ->
    Forall (fun e => undefined_domain ds e = None) mid ->
    for_enumerate populate_type_domain (length pre) mid w
    = (inr tt,
       with_self (set_input_types
                    ((resolve_domain ds <$> pre) ++ (resolve_domain ds <$> mid) ++ post)) w).
Proof.
  induction mid as [|[n v] mid IH]; intros pre post w Hds Hts Hall.
  - simpl. by rewrite with_input_types_id.
  - apply Forall_cons in Hall as [He Hall].
    rewrite for_enumerate_cons, bind_run.
    assert (Hstep : populate_type_domain (length pre) (n, v) w
                    = (inr tt,
                       with_self (set_input_types
                                    ((resolve_domain ds <$> pre ++ [(n, v)]) ++ mid ++ post))
                                 w)).
    { rewrite fmap_app, <- (assoc_L (++)). simpl.
      unfold populate_type_domain, resolve_domain, undefined_domain in *. simpl in *.
      destruct (in_class v) as [td id| |]; try by rewrite with_input_types_id.
      case_bool_decide; [|by rewrite with_input_types_id].
      rewrite bind_run. simpl. rewrite Hds.
      destruct (ds !! id) as [d|]; [|done].
      unfold modify, with_self. simpl. do 3 f_equal.
      rewrite Hts. rewrite insert_app_r_alt by by rewrite length_fmap.
      rewrite length_fmap, Nat.sub_diag. reflexivity. }
    rewrite Hstep.
    replace (S (length pre)) with (length (pre ++ [(n, v)]))
      by (rewrite length_app; simpl; lia).
    rewrite (IH (pre ++ [(n, v)]) post); [| done | done | done].
    rewrite fmap_app, <- (assoc_L (++)). reflexivity.
Qed.

(** X19. The loop of the construction that fills in the type domains: when
    every empty type domain of the contract is defined in the registry of the
    class, the loop returns normally and leaves the contract with each empty
    domain replaced by its definition and every other entry, and everything
    else, as it was; otherwise it raises the ValueError for the first
    undefined identifier, with the entries before it already resolved. *)
Theorem type_domains_are_resolved (ts : list (string * InputType)) (w : World) :
  _input_types (self w) = ts ->
  (Forall (fun e => undefined_domain (_type_domains (self w)) e = None) ts ->
   for_enumerate populate_type_domain 0 ts w
   = (inr tt,
      with_self (set_input_types (resolve_domain (_type_domains (self w)) <$> ts)) w)) /\
  (forall pre e post id,
      ts = pre ++ e :: post ->
      Forall (fun e => undefined_domain (_type_domains (self w)) e = None) pre ->
      undefined_domain (_type_domains (self w)) e = Some id ->
      for_enumerate populate_type_domain 0 ts w
      = (inl (ValueError (type_domain_not_defined id)),
         with_self (set_input_types
                      ((resolve_domain (_type_domains (self w)) <$> pre) ++ e :: post)) w)).
Proof.
  intros Hts. split.
  - intros Hall.
    pose proof (populate_type_domains_run (_type_domains (self w)) ts [] [] w eq_refl)
      as Hrun.
    simpl in Hrun. rewrite !(right_id_L [] (++)) in Hrun. by apply Hrun.
  - intros pre e post id -> Hpre He.
    rewrite for_enumerate_app.
    pose proof (populate_type_domains_run (_type_domains (self w)) pre [] (e :: post) w
                  eq_refl Hts Hpre) as Hrun.
    simpl in Hrun. rewrite Hrun.
    simpl. rewrite bind_run.
    destruct e as [n v]. unfold populate_type_domain, undefined_domain in *. simpl in *.
    destruct (in_class v) as [td tid| |]; try done.
    case_bool_decide; [|done].
    rewrite bind_run. simpl.
    destruct (_type_domains (self w) !! tid) as [d|] eqn:Hd; [done|].
    by injection He as <-.
Qed.

(** X20. The opset version of an operation is the least version of the table
    of variants that is registered for its class, and there is none exactly
    when no version is. *)
Theorem opset_version_is_least (op_variants : gmap Z nat) (cls : nat) :
  match opset_version op_variants cls with
  | Some v => op_variants !! v = Some cls /\
              forall v', op_variants !! v' = Some cls -> v <= v'
  | None => forall v, op_variants !! v <> Some cls
  end.
Proof.
  unfold opset_version. cbv zeta.
  set (keys := merge_sort Z.le (elements (dom op_variants))).
  assert (Hkeys : forall v c, op_variants !! v = Some c -> v ∈ keys).
  { intros v c Hv. unfold keys. rewrite merge_sort_Permutation.
    apply elem_of_elements, elem_of_dom. by exists c. }
  assert (Hsorted : StronglySorted Z.le keys)
    by (apply StronglySorted_merge_sort; apply _).
  destruct (list_find _ keys) as [[i v]|] eqn:Hfind; simpl.
  - apply list_find_Some in Hfind as (Hi & Hv & Hmin). split; [done|].
    intros v' Hv'. apply (Hkeys v' cls) in Hv' as Hin.
    apply list_elem_of_lookup in Hin as [j Hj].
    destruct (decide (j < i)%nat) as [Hlt|Hge]; [by destruct (Hmin j v' Hj Hlt)|].
    destruct (decide (j = i)) as [->|Hne]; [by simplify_eq|].
    assert (Hij : (i < j)%nat) by lia. clear Hge Hne Hmin Hkeys.
    revert i j Hi Hj Hij. induction Hsorted as [|a l Hs IH Hall]; intros i j Hi Hj Hij;
      [done|].
    destruct i as [|i], j as [|j]; simpl in *; try lia.
    + injection Hi as <-. apply (proj1 (Forall_forall _ _) Hall).
      by eapply list_elem_of_lookup_2.
    + apply (IH i j); [done|done|lia].
  - apply list_find_None in Hfind. intros v Hv.
    by apply (proj1 (Forall_forall _ _) Hfind v (Hkeys v cls Hv)).
Qed.

(** X21. The names given to the outputs when the kind names none: they are
    pairwise distinct and at least as many as the types, so the creation loop
    pairs every type that has a value entry with a name of its own. *)
Theorem default_names_are_distinct (output_types : list mil_type) :
  NoDup (default_output_names output_types) /\
  (length output_types <= length (default_output_names output_types))%nat /\
  forall (m : not_implemented) (output_vals : list (option builtin_val)),
    names_tuple (inl (NotImplementedError m)) output_types
    = inr (default_output_names output_types) /\
    length (zip3 (default_output_names output_types) output_types output_vals)
    = length (zip output_types output_vals).
Proof.
  assert (Hlen : (length output_types <= length (default_output_names output_types))%nat).
  { unfold default_output_names. case_bool_decide.
    - by rewrite length_fmap, length_seq.
    - simpl. lia. }
  split; [|split; [done|]].
  - unfold default_output_names. case_bool_decide.
    + apply NoDup_fmap_2; [apply _|apply NoDup_seq].
    + apply NoDup_singleton.
  - intros m vals. split; [done|]. unfold zip3.
    rewrite !length_zip_with. lia.
Qed.

(** A contract with two empty type domains of which the registry defines the
    first only: the first entry is resolved, the second ends the loop. *)
Lemma type_domains_are_resolved_witness :
  let x := ("x"%string, mk_input_type false (TensorInputType [] "T")) in
  let y := ("y"%string, mk_input_type true (TensorInputType [] "U")) in
  let w := mk_world (mk_op 7 PyNone [x; y] {["T"%string := [int32; fp32]]} ∅ None
                           PyNone PyNone) ∅ in
  for_enumerate populate_type_domain 0 [x; y] w
  = (inl (ValueError (type_domain_not_defined "U")),
     with_self (set_input_types
                  ((resolve_domain (_type_domains (self w)) <$> [x]) ++ [y])) w) /\
  resolve_domain (_type_domains (self w)) x
  = ("x"%string, mk_input_type false (TensorInputType [int32; fp32] "T")).
Proof.
  intros x y w. split; [|vm_compute; reflexivity].
  apply (proj2 (type_domains_are_resolved [x; y] w eq_refl) [x] y [] "U"%string).
  - reflexivity.
  - constructor; [vm_compute; reflexivity|constructor].
  - vm_compute. reflexivity.
Defined.

(** A table with three versions of which the two later ones are registered
    for the class. *)
Lemma opset_version_is_least_witness :
  let op_variants : gmap Z nat := <[7 := 1%nat]> (<[5 := 2%nat]> (<[6 := 1%nat]> ∅)) in
  opset_version op_variants 1 = Some 6 /\
  (forall v', op_variants !! v' = Some 1%nat -> 6 <= v') /\
  opset_version op_variants 3 = None.
Proof.
  intros op_variants. split; [vm_compute; reflexivity|]. split.
  - exact (proj2 (opset_version_is_least op_variants 1)).
  - vm_compute. reflexivity.
Defined.
